(** * Live Screen Translator: glossary, translation gateway, capture loop
      and pipeline coordinator

    A shallow embedding of
      - [src/translation/translation_engine.py]  (engines, IndustrialGlossary,
        TranslationManager),
      - [src/core/screen_capture.py]             (RealTimeMonitor),
      - [src/core/translator_app.py]             (LiveScreenTranslator),
      - [src/ocr/ocr_engine.py]                  (OCRResult),
    followed by the properties that the design document states about them.

    Conventions.
      - A Python [str] is a list of Unicode code points ([N]), so that [len]
        counts characters, as in Python.
      - A Python [float] that only carries a confidence or a time stamp is a
        rational ([Q]); the code only compares them and stores constants.
      - A call that may raise has result type [outcome]; an exception that the
        code catches is visible as the [Raised] branch of a [match].
      - Of the calls of [logger], those that make up the handling of a
        failure are recorded: in the journal of the glossary and in the
        trace of the capture loop.
      - What the SQLite file, the network and the screen do is an input:
        the faults of the database are read from an oracle carried by the
        world, the translation back ends and the frame fingerprint are
        functions held by the objects that use them. *)

From Stdlib Require Import List Bool Arith NArith ZArith QArith Qround Lia Lqa String Ascii.
From Stdlib Require Import Sorted Permutation.
Import ListNotations.

Local Close Scope Q_scope.
Local Open Scope list_scope.

Set Implicit Arguments.

(* ================================================================== *)
(** ** Results of calls that may raise *)

Inductive outcome (A : Type) : Type :=
| Returned (a : A)
| Raised.

Arguments Returned {A} a.
Arguments Raised {A}.

(* ================================================================== *)
(** ** Python strings *)

Module PyStr.

Definition char := N.
Definition str := list char.

(** An ASCII literal of the source as a [str]. *)
Definition lit (s : string) : str := map N_of_ascii (list_ascii_of_string s).

Fixpoint eqb (s t : str) : bool :=
  match s, t with
  | [], [] => true
  | c :: s', d :: t' => N.eqb c d && eqb s' t'
  | _, _ => false
  end.

(** [len(s)] *)
Definition len (s : str) : nat := List.length s.

(** Truth value of a string: [bool(s)], false exactly for [''] *)
Definition truthy (s : str) : bool :=
  match s with [] => false | _ :: _ => true end.

(** The characters that [str.strip()] removes (CPython's
    [_PyUnicode_IsWhitespace]). *)
Definition isspace (c : char) : bool :=
  ((0x09 <=? c) && (c <=? 0x0D) || (0x1C <=? c) && (c <=? 0x20)
   || (c =? 0x85) || (c =? 0xA0) || (c =? 0x1680)
   || (0x2000 <=? c) && (c <=? 0x200A)
   || (c =? 0x2028) || (c =? 0x2029) || (c =? 0x202F) || (c =? 0x205F)
   || (c =? 0x3000))%N.

Fixpoint lstrip (s : str) : str :=
  match s with
  | [] => []
  | c :: s' => if isspace c then lstrip s' else s
  end.

Definition rstrip (s : str) : str := rev (lstrip (rev s)).

(** [s.strip()] *)
Definition strip (s : str) : str := rstrip (lstrip s).

(** [s.startswith(p)] *)
Fixpoint starts_with (p s : str) : bool :=
  match p, s with
  | [], _ => true
  | _ :: _, [] => false
  | c :: p', d :: s' => N.eqb c d && starts_with p' s'
  end.

(** [p in s] *)
Fixpoint occurs (p s : str) : bool :=
  match s with
  | [] => starts_with p []
  | _ :: s' => starts_with p s || occurs p s'
  end.

(** Left-to-right scan of [replace] for a non-empty [old]; [skip] counts
    the characters of the occurrence just replaced that still have to be
    dropped, so that occurrences never overlap. *)
Fixpoint replace_scan (old new : str) (skip : nat) (s : str) : str :=
  match s with
  | [] => []
  | c :: s' =>
      match skip with
      | S k => replace_scan old new k s'
      | O =>
          if starts_with old s
          then new ++ replace_scan old new (List.length old - 1) s'
          else c :: replace_scan old new 0 s'
      end
  end.

(** [s.replace(old, new)]: every non-overlapping occurrence, leftmost
    first; an empty [old] matches before every character and at the end. *)
Definition replace (old new s : str) : str :=
  match old with
  | [] => new ++ flat_map (fun c => c :: new) s
  | _ :: _ => replace_scan old new 0 s
  end.

End PyStr.

Import PyStr.

(* ================================================================== *)
(** ** IndustrialGlossary: the SQLite-backed term table *)

Module Glossary.

(** One row of table [glossary]; [UNIQUE(chinese, english)],
    [usage_count INTEGER DEFAULT 0], [id INTEGER PRIMARY KEY
    AUTOINCREMENT]. *)
Record row : Type := mkRow {
  id : N;
  chinese : str;
  english : str;
  category : str;
  confidence : Q;
  usage_count : N
}.

(** The table in rowid order, and the largest rowid ever handed out
    (what AUTOINCREMENT keeps in [sqlite_sequence]). *)
Record store : Type := mkStore {
  rows : list row;
  last_id : N
}.

Definition empty_store : store := mkStore [] 0.

(** What can go wrong in one [with sqlite3.connect(...) as conn:] block:
    the connection is refused, the [k]-th statement raises, or the commit
    on leaving the block raises. *)
Inductive fault : Type :=
| NoFault
| ConnectFails
| StatementFails (k : nat)
| CommitFails.

Definition connect_ok (f : fault) : bool :=
  match f with ConnectFails => false | _ => true end.

Definition stmt_ok (f : fault) (k : nat) : bool :=
  match f with StatementFails j => negb (Nat.eqb j k) | _ => true end.

Definition commit_ok (f : fault) : bool :=
  match f with CommitFails => false | _ => true end.

(** Lines written through [logger]. *)
Inductive log_record : Type :=
| InfoLoadedDefaults (n : nat)
| ErrorLoadingDefaults
| ErrorLookingUp (chinese_text : str)
| InfoAddedTerm (chinese english : str)
| ErrorAddingTerm.

(** The glossary object together with its surroundings: the database
    file, the faults its next blocks will meet (none once the list is
    used up), and the log, newest line first. *)
Record world : Type := mkWorld {
  db : store;
  faults : list fault;
  journal : list log_record
}.

Definition next_fault (w : world) : fault * world :=
  match faults w with
  | [] => (NoFault, w)
  | f :: fs => (f, mkWorld (db w) fs (journal w))
  end.

Definition set_db (s : store) (w : world) : world :=
  mkWorld s (faults w) (journal w).

Definition log (l : log_record) (w : world) : world :=
  mkWorld (db w) (faults w) (l :: journal w).

(** [with sqlite3.connect(self.db_path) as conn: body]: the body's writes
    are committed when it returns and rolled back when it raises. *)
Definition with_connection {A : Type} (f : fault)
           (body : store -> outcome (A * store)) (s : store)
  : outcome A * store :=
  if connect_ok f then
    match body s with
    | Returned (a, s') =>
        if commit_ok f then (Returned a, s') else (Raised, s)
    | Raised => (Raised, s)
    end
  else (Raised, s).

(** *** SQL statements *)

Definition same_pair (c e : str) (r : row) : bool :=
  PyStr.eqb (chinese r) c && PyStr.eqb (english r) e.

Definition fresh_row (s : store) (c e cat : str) (conf : Q) : row :=
  mkRow (last_id s + 1) c e cat conf 0.

(** [INSERT OR IGNORE INTO glossary (chinese, english, category,
    confidence) VALUES (?, ?, ?, ?)] *)
Definition insert_or_ignore (t : str * str * str * Q) (s : store) : store :=
  let '(c, e, cat, conf) := t in
  if existsb (same_pair c e) (rows s) then s
  else mkStore (rows s ++ [fresh_row s c e cat conf]) (last_id s + 1).

(** [INSERT OR REPLACE INTO glossary (chinese, english, category,
    confidence) VALUES (?, ?, ?, ?)]: the row that holds the pair is
    deleted and a new row is inserted, with a new id and the column
    defaults. *)
Definition insert_or_replace (t : str * str * str * Q) (s : store) : store :=
  let '(c, e, cat, conf) := t in
  mkStore (filter (fun r => negb (same_pair c e r)) (rows s)
           ++ [fresh_row s c e cat conf])
          (last_id s + 1).

(** [ORDER BY confidence DESC, usage_count DESC] *)
Definition outranks (a b : row) : bool :=
  match Qcompare (confidence a) (confidence b) with
  | Gt => true
  | Lt => false
  | Eq => (usage_count b <? usage_count a)%N
  end.

Fixpoint insert_ranked (x : row) (l : list row) : list row :=
  match l with
  | [] => [x]
  | y :: l' => if outranks y x then y :: insert_ranked x l' else x :: l
  end.

(** Rows that tie on both keys stay in rowid order (SQLite leaves the
    order of ties open). *)
Fixpoint order_by_rank (l : list row) : list row :=
  match l with
  | [] => []
  | x :: l' => insert_ranked x (order_by_rank l')
  end.

(** [SELECT english, category, confidence FROM glossary WHERE chinese = ?
    ORDER BY confidence DESC, usage_count DESC], before the projection *)
Definition select_rows (chinese_text : str) (s : store) : list row :=
  order_by_rank (filter (fun r => PyStr.eqb (chinese r) chinese_text) (rows s)).

Definition hit : Type := (str * str * Q)%type.

Definition to_hit (r : row) : hit := (english r, category r, confidence r).

Definition bump (r : row) : row :=
  mkRow (id r) (chinese r) (english r) (category r) (confidence r)
        (usage_count r + 1).

(** [UPDATE glossary SET usage_count = usage_count + 1 WHERE chinese = ?] *)
Definition update_usage (chinese_text : str) (s : store) : store :=
  mkStore (map (fun r => if PyStr.eqb (chinese r) chinese_text
                         then bump r else r) (rows s))
          (last_id s).

(** *** Methods *)

Definition default_terms : list (str * str * str * Q) :=
  [ ([0x542F; 0x52A8]%N, lit "Start", lit "automation", 1.0%Q);
    ([0x505C; 0x6B62]%N, lit "Stop", lit "automation", 1.0%Q);
    ([0x6682; 0x505C]%N, lit "Pause", lit "automation", 1.0%Q);
    ([0x590D; 0x4F4D]%N, lit "Reset", lit "automation", 1.0%Q);
    ([0x62A5; 0x8B66]%N, lit "Alarm", lit "automation", 1.0%Q);
    ([0x6545; 0x969C]%N, lit "Fault", lit "automation", 1.0%Q);
    ([0x8FD0; 0x884C]%N, lit "Run", lit "automation", 1.0%Q);
    ([0x624B; 0x52A8]%N, lit "Manual", lit "automation", 1.0%Q);
    ([0x81EA; 0x52A8]%N, lit "Auto", lit "automation", 1.0%Q);
    ([0x7A0B; 0x5E8F]%N, lit "Program", lit "plc", 1.0%Q);
    ([0x4E0B; 0x8F7D]%N, lit "Download", lit "plc", 1.0%Q);
    ([0x4E0A; 0x4F20]%N, lit "Upload", lit "plc", 1.0%Q);
    ([0x76D1; 0x63A7]%N, lit "Monitor", lit "plc", 1.0%Q);
    ([0x8C03; 0x8BD5]%N, lit "Debug", lit "plc", 1.0%Q);
    ([0x4EFF; 0x771F]%N, lit "Simulation", lit "plc", 1.0%Q);
    ([0x4F3A; 0x670D]%N, lit "Servo", lit "motor", 1.0%Q);
    ([0x7535; 0x673A]%N, lit "Motor", lit "motor", 1.0%Q);
    ([0x901F; 0x5EA6]%N, lit "Speed", lit "motor", 1.0%Q);
    ([0x4F4D; 0x7F6E]%N, lit "Position", lit "motor", 1.0%Q);
    ([0x626D; 0x77E9]%N, lit "Torque", lit "motor", 1.0%Q);
    ([0x7F16; 0x7801; 0x5668]%N, lit "Encoder", lit "motor", 1.0%Q);
    ([0x754C; 0x9762]%N, lit "Interface", lit "hmi", 1.0%Q);
    ([0x753B; 0x9762]%N, lit "Screen", lit "hmi", 1.0%Q);
    ([0x6309; 0x94AE]%N, lit "Button", lit "hmi", 1.0%Q);
    ([0x6307; 0x793A; 0x706F]%N, lit "Indicator", lit "hmi", 1.0%Q);
    ([0x6570; 0x503C]%N, lit "Value", lit "hmi", 1.0%Q);
    ([0x786E; 0x5B9A]%N, lit "OK", lit "ui", 1.0%Q);
    ([0x53D6; 0x6D88]%N, lit "Cancel", lit "ui", 1.0%Q);
    ([0x8BBE; 0x7F6E]%N, lit "Settings", lit "ui", 1.0%Q);
    ([0x914D; 0x7F6E]%N, lit "Configuration", lit "ui", 1.0%Q);
    ([0x53C2; 0x6570]%N, lit "Parameter", lit "ui", 1.0%Q);
    ([0x9009; 0x9879]%N, lit "Option", lit "ui", 1.0%Q);
    ([0x83DC; 0x5355]%N, lit "Menu", lit "ui", 1.0%Q);
    ([0x5DE5; 0x5177]%N, lit "Tools", lit "ui", 1.0%Q);
    ([0x5E2E; 0x52A9]%N, lit "Help", lit "ui", 1.0%Q);
    ([0x5173; 0x4E8E]%N, lit "About", lit "ui", 1.0%Q) ].

(** [conn.executemany('INSERT OR IGNORE ...', default_terms)] *)
Definition load_default_terms_body (f : fault) (s : store)
  : outcome (unit * store) :=
  if stmt_ok f 0
  then Returned (tt, fold_left (fun acc t => insert_or_ignore t acc)
                               default_terms s)
  else Raised.

(** [IndustrialGlossary._load_default_terms] *)
Definition load_default_terms (w : world) : world :=
  let (f, w1) := next_fault w in
  match with_connection f (load_default_terms_body f) (db w1) with
  | (Returned _, s') =>
      log (InfoLoadedDefaults (List.length default_terms)) (set_db s' w1)
  | (Raised, _) => log ErrorLoadingDefaults w1
  end.

Definition lookup_body (f : fault) (chinese_text : str) (s : store)
  : outcome (list hit * store) :=
  if stmt_ok f 0 then
    let results := select_rows chinese_text s in
    match results with
    | [] => Returned ([], s)
    | _ :: _ =>
        if stmt_ok f 1
        then Returned (map to_hit results, update_usage chinese_text s)
        else Raised
    end
  else Raised.

(** [IndustrialGlossary.lookup] *)
Definition lookup (chinese_text : str) (w : world) : list hit * world :=
  let (f, w1) := next_fault w in
  match with_connection f (lookup_body f chinese_text) (db w1) with
  | (Returned results, s') => (results, set_db s' w1)
  | (Raised, _) => ([], log (ErrorLookingUp chinese_text) w1)
  end.

Definition add_term_body (f : fault) (t : str * str * str * Q) (s : store)
  : outcome (unit * store) :=
  if stmt_ok f 0 then Returned (tt, insert_or_replace t s) else Raised.

(** [IndustrialGlossary.add_term]; [category] defaults to ['custom'] and
    [confidence] to [1.0] at the call sites that leave them out. *)
Definition add_term (chinese english category : str) (confidence : Q)
           (w : world) : world :=
  let (f, w1) := next_fault w in
  match with_connection f
          (add_term_body f (chinese, english, category, confidence))
          (db w1) with
  | (Returned _, s') => log (InfoAddedTerm chinese english) (set_db s' w1)
  | (Raised, _) => log ErrorAddingTerm w1
  end.

(** What a [GlossaryEntry] of the design document shows of a row. *)
Definition entry : Type := (str * str * str * Q * N)%type.

Definition entry_of (r : row) : entry :=
  (chinese r, english r, category r, confidence r, usage_count r).

Definition entries (s : store) : list entry := map entry_of (rows s).

(** [usage_count] of the row that holds the pair, if there is one. *)
Definition usage_of (c e : str) (s : store) : option N :=
  option_map usage_count (find (same_pair c e) (rows s)).

(** Number of rows that hold the pair. *)
Definition count_pair (c e : str) (s : store) : nat :=
  List.length (filter (same_pair c e) (rows s)).


(** *** Sequences of glossary operations *)

Inductive operation : Type :=
| Lookup (chinese_text : str)
| AddTerm (chinese english category : str) (confidence : Q)
| LoadDefaultTerms.

Definition perform (o : operation) (w : world) : world :=
  match o with
  | Lookup chinese_text => snd (lookup chinese_text w)
  | AddTerm c e cat conf => add_term c e cat conf w
  | LoadDefaultTerms => load_default_terms w
  end.

Definition perform_all (ops : list operation) (w : world) : world :=
  fold_left (fun acc o => perform o acc) ops w.

(** The operation is an [add_term] of the pair. *)
Definition writes_pair (c e : str) (o : operation) : bool :=
  match o with
  | AddTerm c' e' _ _ => PyStr.eqb c' c && PyStr.eqb e' e
  | _ => false
  end.

End Glossary.

(* ================================================================== *)
(** ** Translation engines and the TranslationManager *)

Module Translation.

(** [class TranslationResult] *)
Record TranslationResult : Type := mkResult {
  original_text : str;
  translated_text : str;
  confidence : Q;
  source_lang : str;
  target_lang : str;
  glossary_matches : list str
}.

(** [TranslationResult(text, text, 0.0)]: the other fields take the
    defaults of [__init__]. *)
Definition failed (text : str) : TranslationResult :=
  mkResult text text 0.0%Q (lit "auto") (lit "en") [].

(** [class TranslationEngine(ABC)] *)
Class TranslationEngine (E : Type) : Type := {
  translate : E -> str -> str -> str -> TranslationResult;
  is_available : E -> bool
}.

(** *** GoogleTranslateEngine *)

(** What [self.translator.translate(text, src=..., dest=...)] returns:
    [result.text] and [result.src]. *)
Record google_reply : Type := mkReply {
  reply_text : str;
  reply_src : str
}.

(** [self.translator] is [None] when [googletrans] could not be set up. *)
Record GoogleTranslateEngine : Type := mkGoogle {
  translator : option (str -> str -> str -> outcome google_reply)
}.

Definition google_is_available (g : GoogleTranslateEngine) : bool :=
  match translator g with Some _ => true | None => false end.

Definition google_translate (g : GoogleTranslateEngine)
           (text source_lang target_lang : str) : TranslationResult :=
  match translator g with
  | None => failed text
  | Some tr =>
      let source_lang :=
        if PyStr.eqb source_lang (lit "zh") then lit "zh-cn" else source_lang in
      match tr text source_lang target_lang with
      | Returned result =>
          mkResult text (reply_text result) 0.9%Q (reply_src result)
                   target_lang []
      | Raised => failed text
      end
  end.

#[export] Instance google_engine : TranslationEngine GoogleTranslateEngine :=
  {| translate := google_translate; is_available := google_is_available |}.

(** *** OpenAITranslationEngine *)

(** [self.client] stands for the chat completion issued for a text (the
    prompt is a fixed frame around the text); it returns
    [response.choices[0].message.content]. *)
Record OpenAITranslationEngine : Type := mkOpenAI {
  api_key : option str;
  client : option (str -> outcome str)
}.

Definition openai_is_available (o : OpenAITranslationEngine) : bool :=
  match client o, api_key o with
  | Some _, Some _ => true
  | _, _ => false
  end.

Definition newline : char := 0x0A%N.

Fixpoint rest_of_line (s : str) : str :=
  match s with
  | [] => []
  | c :: s' => if N.eqb c newline then [] else c :: rest_of_line s'
  end.

(** [(.+?)(?:\n|$)] tried at the head of [s] *)
Definition group_at (s : str) : option str :=
  match s with
  | [] => None
  | c :: s' => if N.eqb c newline then None else Some (c :: rest_of_line s')
  end.

(** [\s*(.+?)(?:\n|$)]: the longest run of white space after which the
    group matches *)
Fixpoint spaces_then_group (s : str) : option str :=
  match s with
  | [] => None
  | c :: s' =>
      if isspace c then
        match spaces_then_group s' with
        | Some g => Some g
        | None => group_at s
        end
      else group_at s
  end.

(** [re.search(r'Translation:\s*(.+?)(?:\n|$)', content)], group 1 of the
    leftmost match *)
Fixpoint search_translation (content : str) : option str :=
  match content with
  | [] => None
  | _ :: content' =>
      let here :=
        if starts_with (lit "Translation:") content
        then spaces_then_group (skipn 12 content)
        else None in
      match here with
      | Some g => Some g
      | None => search_translation content'
      end
  end.

Definition openai_translate (o : OpenAITranslationEngine)
           (text source_lang target_lang : str) : TranslationResult :=
  match client o, api_key o with
  | Some chat, Some _ =>
      match chat text with
      | Returned content =>
          let translated_text :=
            match search_translation content with
            | Some g => strip g
            | None => text
            end in
          mkResult text translated_text 0.95%Q (lit "zh") target_lang []
      | Raised => failed text
      end
  | _, _ => failed text
  end.

#[export] Instance openai_engine : TranslationEngine OpenAITranslationEngine :=
  {| translate := openai_translate; is_available := openai_is_available |}.

(** An engine object as the manager holds it: some implementation of the
    interface. *)
Record engine : Type := Engine {
  engine_class : Type;
  engine_methods : TranslationEngine engine_class;
  engine_self : engine_class
}.

Definition engine_translate (e : engine) : str -> str -> str -> TranslationResult :=
  @translate _ (engine_methods e) (engine_self e).

Definition engine_is_available (e : engine) : bool :=
  @is_available _ (engine_methods e) (engine_self e).

(** *** TranslationManager *)

(** The keys of [config['translation']] that the manager reads; [None]
    is an absent key. *)
Record config : Type := mkConfig {
  cfg_primary_engine : option str;
  cfg_use_glossary : option bool
}.

(** [ConfigManager._get_default_config()['translation']] *)
Definition default_config : config :=
  mkConfig (Some (lit "google")) (Some true).

Record TranslationManager : Type := mkManager {
  manager_config : config;
  engines : list (str * engine);
  primary_engine : option engine
}.

Fixpoint dict_get (k : str) (d : list (str * engine)) : option engine :=
  match d with
  | [] => None
  | (k', e) :: d' => if PyStr.eqb k' k then Some e else dict_get k d'
  end.

(** [TranslationManager._initialize_engines] *)
Definition initialize_engines (c : config) (google : GoogleTranslateEngine)
           (openai : OpenAITranslationEngine) : TranslationManager :=
  let engines :=
    (if is_available google then [(lit "google", Engine _ google)] else [])
    ++ (if is_available openai then [(lit "openai", Engine _ openai)] else []) in
  let preferred_engine :=
    match cfg_primary_engine c with Some p => p | None => lit "google" end in
  let primary :=
    match dict_get preferred_engine engines with
    | Some e => Some e
    | None =>
        match engines with
        | (_, e) :: _ => Some e
        | [] => None
        end
    end in
  mkManager c engines primary.

(** [replacements] of [_post_process_translation], in the order of the
    dict literal *)
Definition replacements : list (str * str) :=
  [ (lit "Servo motor", lit "Servo");
    (lit "Motor drive", lit "Drive");
    (lit "Programmable logic controller", lit "PLC");
    (lit "Human machine interface", lit "HMI");
    (lit "Variable frequency drive", lit "VFD");
    (lit "Input/Output", lit "I/O") ].

(** [TranslationManager._post_process_translation] *)
Definition post_process_translation (translation original : str) : str :=
  fold_left (fun processed on => replace (fst on) (snd on) processed)
            replacements translation.

(** [f"{text} -> {best_match[0]} ({best_match[1]})"] *)
Definition match_note (text : str) (best_match : Glossary.hit) : str :=
  let '(english, category, _) := best_match in
  text ++ lit " -> " ++ english ++ lit " (" ++ category ++ lit ")".

Definition use_glossary_enabled (c : config) : bool :=
  match cfg_use_glossary c with Some b => b | None => true end.

(** [TranslationManager.translate].  [enhanced_translation] is [None] or
    a string; [not enhanced_translation] holds for [None] and for ['']. *)
Definition manager_translate (m : TranslationManager)
           (text source_lang target_lang : str) (use_glossary : bool)
           (w : Glossary.world) : TranslationResult * Glossary.world :=
  let '(glossary_matches, enhanced_translation, w1) :=
    if use_glossary && use_glossary_enabled (manager_config m) then
      let (glossary_results, w') := Glossary.lookup text w in
      match glossary_results with
      | best_match :: _ =>
          ([match_note text best_match], Some (fst (fst best_match)), w')
      | [] => ([], None, w')
      end
    else ([], None, w) in
  let no_translation :=
    match enhanced_translation with
    | Some s => negb (truthy s)
    | None => true
    end in
  let enhanced_translation : str :=
    if no_translation then
      match primary_engine m with
      | Some e =>
          translated_text (engine_translate e text source_lang target_lang)
      | None => text
      end
    else match enhanced_translation with Some s => s | None => text end in
  let enhanced_translation :=
    post_process_translation enhanced_translation text in
  (mkResult text enhanced_translation
            (match glossary_matches with [] => 0.8%Q | _ :: _ => 0.95%Q end)
            source_lang target_lang glossary_matches,
   w1).

(** [TranslationManager.translate_batch] *)
Fixpoint translate_batch (m : TranslationManager) (texts : list str)
         (source_lang target_lang : str) (w : Glossary.world)
  : list TranslationResult * Glossary.world :=
  match texts with
  | [] => ([], w)
  | text :: texts' =>
      if truthy (strip text) then
        let (result, w1) :=
          manager_translate m text source_lang target_lang true w in
        let (results, w2) :=
          translate_batch m texts' source_lang target_lang w1 in
        (result :: results, w2)
      else translate_batch m texts' source_lang target_lang w
  end.

(** [TranslationManager.add_custom_term] *)
Definition add_custom_term (chinese english category : str)
           (w : Glossary.world) : Glossary.world :=
  Glossary.add_term chinese english category 1.0%Q w.

(** *** Auxiliary notions for the properties *)

(** None of the phrases of [replacements] occurs in the text. *)
Definition plain (s : str) : bool :=
  forallb (fun on => negb (occurs (fst on) s)) replacements.

(** [not text.strip()] *)
Definition blank (text : str) : bool := negb (truthy (strip text)).

(** [translate] applied to each text in turn, the glossary carried from
    one call to the next. *)
Fixpoint translate_each (m : TranslationManager) (texts : list str)
         (source_lang target_lang : str) (w : Glossary.world)
  : list TranslationResult * Glossary.world :=
  match texts with
  | [] => ([], w)
  | text :: texts' =>
      let (result, w1) :=
        manager_translate m text source_lang target_lang true w in
      let (results, w2) :=
        translate_each m texts' source_lang target_lang w1 in
      (result :: results, w2)
  end.

(** The batch operation as the design document words it: [translate]
    per non-blank input, in order, blank inputs left out. *)
Definition batch_as_specified (m : TranslationManager) (texts : list str)
           (source_lang target_lang : str) (w : Glossary.world)
  : list TranslationResult * Glossary.world :=
  translate_each m (filter (fun text => negb (blank text)) texts)
                 source_lang target_lang w.

(** The google back end does not answer for the text: there is no
    translator, or its call raises. *)
Definition google_fails (g : GoogleTranslateEngine)
           (text source_lang target_lang : str) : Prop :=
  match translator g with
  | None => True
  | Some tr =>
      tr text (if PyStr.eqb source_lang (lit "zh") then lit "zh-cn"
               else source_lang) target_lang = Raised
  end.

(** The OpenAI back end does not answer for the text. *)
Definition openai_fails (o : OpenAITranslationEngine) (text : str) : Prop :=
  match client o, api_key o with
  | Some chat, Some _ => chat text = Raised
  | _, _ => True
  end.

(** No translation comes from a back end: the manager has no primary
    engine, or its primary engine hands back its failure result. *)
Definition no_backend_answer (m : TranslationManager)
           (text source_lang target_lang : str) : Prop :=
  match primary_engine m with
  | None => True
  | Some e => engine_translate e text source_lang target_lang = failed text
  end.

End Translation.

(* ================================================================== *)
(** ** RealTimeMonitor: the change-gated capture loop *)

Definition Qlt_bool (a b : Q) : bool := negb (Qle_bool b a).

Module Capture.

Section Monitor.

(** [np.ndarray], [WindowInfo], [ScreenRegion]; what the OCR callback
    returns an item of; the state of the object that owns the
    callbacks. *)
Variables Frame WindowInfo ScreenRegion Item App : Type.

(** [image.size] *)
Variable size : Frame -> N.

(** [hash(gray.tobytes())] of the 32x32 grey-scale image, or the
    exception that [cv2.resize], [cv2.cvtColor] or [hash] raised. *)
Variable gray_hash : Frame -> outcome Z.

(** [ScreenCapture] at the moment of one loop iteration; its methods
    return an array of size 0 when the capture fails. *)
Record screen : Type := mkScreen {
  capture_window : WindowInfo -> Frame;
  capture_region : ScreenRegion -> Frame;
  capture_full_screen : Frame
}.

(** What one pass through the loop head reads from outside:
    [self.is_monitoring], [time.time()] and the screen. *)
Record tick : Type := mkTick {
  is_monitoring : bool;
  now : Q;
  screen_now : screen
}.

(** The fields of [RealTimeMonitor] that the loop reads. *)
Record monitor : Type := mkMonitor {
  ocr_callback : option (Frame -> App -> outcome (list Item) * App);
  translation_callback : option (list Item -> App -> outcome unit * App);
  target_window : option WindowInfo;
  monitor_regions : list ScreenRegion;
  frame_interval : Q
}.

(** What the loop does that can be seen from outside, newest first. *)
Inductive event : Type :=
| Slept (seconds : Q)
| OcrCalled (image : Frame)
| TranslationCalled (ocr_results : list Item)
| ErrorLogged.

(** The locals of [_monitor_loop], the callbacks' object, the trace. *)
Record loop_state : Type := mkLoop {
  last_capture_time : Q;
  previous_hash : option Z;
  app : App;
  trace : list event
}.

Definition initial (a : App) : loop_state := mkLoop 0%Q None a [].

(** [RealTimeMonitor._calculate_image_hash] *)
Definition calculate_image_hash (image : Frame) : Z :=
  match gray_hash image with
  | Returned h => h
  | Raised => 0%Z
  end.

Definition capture (m : monitor) (t : tick) : Frame :=
  match target_window m with
  | Some w => capture_window (screen_now t) w
  | None =>
      match monitor_regions m with
      | r :: _ => capture_region (screen_now t) r
      | [] => capture_full_screen (screen_now t)
      end
  end.

(** [current_hash == previous_hash] *)
Definition same_hash (current_hash : Z) (previous_hash : option Z) : bool :=
  match previous_hash with
  | Some p => Z.eqb current_hash p
  | None => false
  end.

(** [except Exception as e: logger.error(...); time.sleep(1.0)] *)
Definition on_exception (st : loop_state) : loop_state :=
  mkLoop (last_capture_time st) (previous_hash st) (app st)
         (Slept 1.0%Q :: ErrorLogged :: trace st).

(** The body of [while self.is_monitoring:] *)
Definition iteration (m : monitor) (t : tick) (st : loop_state) : loop_state :=
  let current_time := now t in
  if Qlt_bool (current_time - last_capture_time st)%Q (frame_interval m) then
    mkLoop (last_capture_time st) (previous_hash st) (app st)
           (Slept 0.1%Q :: trace st)
  else
    let image := capture m t in
    if N.eqb (size image) 0 then st
    else
      let current_hash := calculate_image_hash image in
      if same_hash current_hash (previous_hash st) then st
      else
        let st1 := mkLoop current_time (Some current_hash) (app st) (trace st) in
        match ocr_callback m with
        | None => st1
        | Some ocr =>
            let '(r, a1) := ocr image (app st1) in
            let st2 := mkLoop current_time (Some current_hash) a1
                              (OcrCalled image :: trace st1) in
            match r with
            | Raised => on_exception st2
            | Returned ocr_results =>
                match ocr_results, translation_callback m with
                | _ :: _, Some translate =>
                    let '(r', a2) := translate ocr_results a1 in
                    let st3 := mkLoop current_time (Some current_hash) a2
                                 (TranslationCalled ocr_results :: trace st2) in
                    match r' with
                    | Raised => on_exception st3
                    | Returned _ => st3
                    end
                | _, _ => st2
                end
            end
        end.

(** [RealTimeMonitor._monitor_loop] from some point of its run on: one
    [tick] per evaluation of the loop condition. *)
Fixpoint monitor_loop_from (m : monitor) (ticks : list tick)
         (st : loop_state) : loop_state :=
  match ticks with
  | [] => st
  | t :: ticks' =>
      if is_monitoring t
      then monitor_loop_from m ticks' (iteration m t st)
      else st
  end.

(** [RealTimeMonitor._monitor_loop] *)
Definition monitor_loop (m : monitor) (ticks : list tick) (a : App)
  : loop_state :=
  monitor_loop_from m ticks (initial a).

(** The frame of the tick gets as far as the comparison of fingerprints:
    the frame interval has elapsed and the capture is not empty. *)
Definition fingerprinted (m : monitor) (t : tick) (st : loop_state) : Prop :=
  Qlt_bool (now t - last_capture_time st)%Q (frame_interval m) = false
  /\ size (capture m t) <> 0%N.

Definition is_ocr_call (e : event) : bool :=
  match e with OcrCalled _ => true | _ => false end.

Definition is_translation_call (e : event) : bool :=
  match e with TranslationCalled _ => true | _ => false end.

(** Number of times the OCR callback has been invoked. *)
Definition ocr_calls (st : loop_state) : nat :=
  List.length (filter is_ocr_call (trace st)).

Definition translation_calls (st : loop_state) : nat :=
  List.length (filter is_translation_call (trace st)).

End Monitor.

End Capture.

(* ================================================================== *)
(** ** LiveScreenTranslator: the pipeline coordinator *)

Module Coordinator.

(** [class OCRResult] *)
Record OCRResult : Type := mkOCRResult {
  text : str;
  bbox : Z * Z * Z * Z;
  confidence : Q
}.

(** [OCRResult.__init__]: the text is stored stripped. *)
Definition new_OCRResult (text : str) (bbox : Z * Z * Z * Z) (confidence : Q)
  : OCRResult :=
  mkOCRResult (strip text) bbox confidence.

(** [result.bbox[3]] *)
Definition bbox_height (r : OCRResult) : Z :=
  let '(_, _, _, h) := bbox r in h.

Definition emission : Type :=
  (list OCRResult * list Translation.TranslationResult)%type.

(** What the coordinator owns and changes: [self.stats], the glossary
    behind [self.translation_manager], the recent list of the main
    window, the arguments of every [translation_completed.emit] and of
    every direct call of [_on_translation_completed], newest first. *)
Record state : Type := mkState {
  texts_detected : N;
  texts_translated : N;
  glossary : Glossary.world;
  recent_translations : list (str * str);
  emitted : list emission;
  completed : list emission
}.

Section App.

Variable Frame : Type.

(** [image.size] *)
Variable size : Frame -> N.

(** [self.ocr_manager.detect_text(self.ocr_manager.preprocess_image(image))],
    or the exception either call raised. *)
Variable detect_text : Frame -> outcome (list OCRResult).

(** [config['screen']['min_text_size']], [None] when the key is absent. *)
Variable cfg_min_text_size : option Z.

Variable translation_manager : Translation.TranslationManager.

Definition min_text_size : Z :=
  match cfg_min_text_size with Some n => n | None => 12%Z end.

Definition keep_region (result : OCRResult) : bool :=
  (min_text_size <=? bbox_height result)%Z
  && (1 <? len (strip (text result)))%nat.

(** [LiveScreenTranslator._process_ocr] *)
Definition process_ocr (image : Frame) (st : state)
  : list OCRResult * state :=
  match detect_text image with
  | Returned ocr_results =>
      let filtered_results := filter keep_region ocr_results in
      (filtered_results,
       mkState (texts_detected st + N.of_nat (List.length filtered_results))
               (texts_translated st) (glossary st)
               (recent_translations st) (emitted st) (completed st))
  | Raised => ([], st)
  end.

(** The test under which a pair is kept. *)
Definition worth_showing (t : Translation.TranslationResult) : bool :=
  negb (PyStr.eqb (Translation.translated_text t) (Translation.original_text t))
  && Qlt_bool 0.5%Q (Translation.confidence t).

(** The [for ... in zip(ocr_results, translation_results)] loop: the
    pairs appended to [valid_ocr] and [valid_translations]. *)
Definition valid_pairs (ocr_results : list OCRResult)
           (translation_results : list Translation.TranslationResult)
  : list (OCRResult * Translation.TranslationResult) :=
  filter (fun p => worth_showing (snd p))
         (combine ocr_results translation_results).

(** [MainWindow.add_recent_translation]: newest first, at most 20 kept. *)
Definition add_recent_translation (original translated : str)
           (recent : list (str * str)) : list (str * str) :=
  firstn 20 ((original, translated) :: recent).

(** [LiveScreenTranslator._process_translations]; the calls into the
    main window are taken to return. *)
Definition process_translations (ocr_results : list OCRResult) (st : state)
  : state :=
  match ocr_results with
  | [] => st
  | _ :: _ =>
      let texts_to_translate := map text ocr_results in
      let (translation_results, w) :=
        Translation.translate_batch translation_manager texts_to_translate
                                    (lit "auto") (lit "en") (glossary st) in
      let valid := valid_pairs ocr_results translation_results in
      let valid_ocr := map fst valid in
      let valid_translations := map snd valid in
      let recent :=
        fold_left (fun acc t =>
                     add_recent_translation (Translation.original_text t)
                                            (Translation.translated_text t) acc)
                  valid_translations (recent_translations st) in
      mkState (texts_detected st)
              (texts_translated st + N.of_nat (List.length valid_translations))
              w recent
              ((valid_ocr, valid_translations) :: emitted st)
              (completed st)
  end.

(** [LiveScreenTranslator.capture_and_translate_once], from the captured
    [image] on. *)
Definition capture_and_translate_once (image : Frame) (st : state)
  : list Translation.TranslationResult * state :=
  if N.eqb (size image) 0 then ([], st)
  else
    let (ocr_results, st1) := process_ocr image st in
    match ocr_results with
    | [] => ([], st1)
    | _ :: _ =>
        let texts := map text ocr_results in
        let (translation_results, w) :=
          Translation.translate_batch translation_manager texts
                                      (lit "auto") (lit "en") (glossary st1) in
        (translation_results,
         mkState (texts_detected st1) (texts_translated st1) w
                 (recent_translations st1) (emitted st1)
                 ((ocr_results, translation_results) :: completed st1))
    end.

(** The callbacks as [RealTimeMonitor] receives them in
    [LiveScreenTranslator.__init__]; neither lets an exception out. *)
Definition ocr_callback (image : Frame) (st : state)
  : outcome (list OCRResult) * state :=
  let (r, st') := process_ocr image st in (Returned r, st').

Definition translation_callback (ocr_results : list OCRResult) (st : state)
  : outcome unit * state :=
  (Returned tt, process_translations ocr_results st).

(** [self.monitor] once [start_monitoring] has set the target;
    [frame_interval = 1.0 / fps]. *)
Definition the_monitor (WindowInfo ScreenRegion : Type)
           (target_window : option WindowInfo)
           (monitor_regions : list ScreenRegion) (capture_fps : Q)
  : Capture.monitor Frame WindowInfo ScreenRegion OCRResult state :=
  Capture.mkMonitor (Some ocr_callback) (Some translation_callback)
                    target_window monitor_regions (1.0 / capture_fps)%Q.

End App.

(** The two lists of an emission go together position by position. *)
Definition aligned (e : emission) : Prop :=
  List.length (fst e) = List.length (snd e)
  /\ map text (fst e) = map Translation.original_text (snd e).

End Coordinator.

(* ================================================================== *)
(** ** Sample objects *)

Module Samples.

(** A database file that has just been created, nothing going wrong. *)
Definition fresh_world : Glossary.world :=
  Glossary.mkWorld Glossary.empty_store [] [].

(** [IndustrialGlossary()] on a new file. *)
Definition seeded_world : Glossary.world :=
  Glossary.load_default_terms fresh_world.

(** The terms 'qi dong' (start), 'ce shi' (test), 'wei zhi ci hui'
    (unknown word) and 'si fu dian ji' (servo motor). *)
Definition qidong : str := [0x542F; 0x52A8]%N.
Definition ceshi : str := [0x6D4B; 0x8BD5]%N.
Definition weizhicihui : str := [0x672A; 0x77E5; 0x8BCD; 0x6C47]%N.

(** Neither [googletrans] nor an OpenAI key is there. *)
Definition no_engine_manager : Translation.TranslationManager :=
  Translation.initialize_engines Translation.default_config
    (Translation.mkGoogle None) (Translation.mkOpenAI None None).

(** [googletrans] is installed and every request raises. *)
Definition unreachable_google : Translation.GoogleTranslateEngine :=
  Translation.mkGoogle (Some (fun _ _ _ => Raised)).

Definition unreachable_manager : Translation.TranslationManager :=
  Translation.initialize_engines Translation.default_config
    unreachable_google (Translation.mkOpenAI None None).

(** [googletrans] answers every request with the same word. *)
Definition echo_google : Translation.GoogleTranslateEngine :=
  Translation.mkGoogle
    (Some (fun _ _ _ => Returned (Translation.mkReply (lit "word") (lit "zh-cn")))).

Definition echo_manager : Translation.TranslationManager :=
  Translation.initialize_engines Translation.default_config
    echo_google (Translation.mkOpenAI None None).

(** A monitor over frames that are numbers: the OCR callback finds one
    item and counts its calls in the application state; two frames a
    second. *)
Definition counting_monitor : Capture.monitor N unit unit nat nat :=
  Capture.mkMonitor
    (Some (fun (_ : N) (calls : nat) => (Returned [0%nat], S calls)))
    (Some (fun (_ : list nat) (calls : nat) => (Returned tt, calls)))
    None [] (1.0 / 2)%Q.

Definition showing (f : N) : Capture.screen N unit unit :=
  Capture.mkScreen (fun _ => f) (fun _ => f) f.

(** Frame 7 at second 10, frame 9 at second 11. *)
Definition first_tick : Capture.tick N unit unit :=
  Capture.mkTick true 10%Q (showing 7).

Definition second_tick : Capture.tick N unit unit :=
  Capture.mkTick true 11%Q (showing 9).

(** An OCR pass that finds ' qi dong', a lone space and 'wei zhi ci hui',
    each twenty pixels high. *)
Definition three_regions (_ : N) : outcome (list Coordinator.OCRResult) :=
  Returned
    [ Coordinator.new_OCRResult (0x20%N :: qidong) (0, 0, 40, 20)%Z 0.9%Q;
      Coordinator.new_OCRResult [0x20%N] (0, 30, 10, 20)%Z 0.9%Q;
      Coordinator.new_OCRResult weizhicihui (0, 60, 80, 20)%Z 0.8%Q ].

(** The coordinator right after construction, on a new glossary file. *)
Definition start_state : Coordinator.state :=
  Coordinator.mkState 0 0 seeded_world [] [] [].

(** The coordinator's monitor on the full screen, two frames a second. *)
Definition app_monitor (tm : Translation.TranslationManager)
  : Capture.monitor N unit unit Coordinator.OCRResult Coordinator.state :=
  Coordinator.the_monitor three_regions None tm None [] 2%Q.

End Samples.

(* ================================================================== *)
(** ** Further notions about the glossary table *)

Module GlossaryTable.

(** The table constraint [UNIQUE(chinese, english)]. *)
Definition unique_pairs (s : Glossary.store) : Prop :=
  forall c e, (Glossary.count_pair c e s <= 1)%nat.

(** The pair has a row. *)
Definition has_pair (c e : str) (s : Glossary.store) : bool :=
  existsb (Glossary.same_pair c e) (Glossary.rows s).

(** A row without its usage count. *)
Definition columns_of (r : Glossary.row)
  : N * str * str * str * Q :=
  (Glossary.id r, Glossary.chinese r, Glossary.english r,
   Glossary.category r, Glossary.confidence r).

(** [a] comes before [b] under [ORDER BY confidence DESC, usage_count
    DESC], ties allowed. *)
Definition ranked_before (a b : Glossary.row) : Prop :=
  Glossary.outranks b a = false.

End GlossaryTable.

(* ================================================================== *)
(** ** TranslationManager.load_custom_glossary, the JSON branch *)

Module CustomGlossary.

(** One object of the JSON list, as far as it is read: the four keys, each
    of which may be absent. *)
Record json_record : Type := mkRecord {
  rec_chinese : option str;
  rec_english : option str;
  rec_category : option str;
  rec_confidence : option Q
}.

(** [item.get(key, default)] *)
Definition get {A : Type} (field : option A) (default : A) : A :=
  match field with Some v => v | None => default end.

Definition add_record (item : json_record) (w : Glossary.world)
  : Glossary.world :=
  Glossary.add_term (get (rec_chinese item) [])
                    (get (rec_english item) [])
                    (get (rec_category item) (lit "custom"))
                    (get (rec_confidence item) 1.0%Q) w.

(** [TranslationManager.load_custom_glossary] for a path that ends in
    ['.json'], from the result of [json.load] on: [Returned items] when
    the file holds a list of objects, [Raised] when opening or parsing it
    raises. *)
Definition load_custom_glossary_json (data : outcome (list json_record))
           (w : Glossary.world) : Glossary.world :=
  match data with
  | Returned items => fold_left (fun acc item => add_record item acc) items w
  | Raised => w
  end.

End CustomGlossary.

(* ================================================================== *)
(** ** Further notions about the translation gateway *)

Module Gateway.

(** [translation_config.get('primary_engine', 'google')] *)
Definition preferred_engine (c : Translation.config) : str :=
  match Translation.cfg_primary_engine c with
  | Some p => p
  | None => lit "google"
  end.

(** An answer in the format the prompt asks for: the marker, white space,
    the translation on the rest of the line, and whatever follows on
    further lines. *)
Definition formatted_answer (spaces body further_lines : str) : str :=
  lit "Translation:" ++ spaces ++ body
  ++ match further_lines with
     | [] => []
     | _ :: _ => Translation.newline :: further_lines
     end.

(** The text has no line break and does not start with white space. *)
Definition one_line (body : str) : bool :=
  match body with
  | [] => false
  | c :: _ =>
      negb (isspace c)
      && forallb (fun d => negb (N.eqb d Translation.newline)) body
  end.

End Gateway.

(* ================================================================== *)
(** ** Further notions about the capture loop *)

Module LoopTrace.

(** A call of the translation callback that was given OCR results. *)
Definition on_results {Frame Item : Type} (e : Capture.event Frame Item)
  : Prop :=
  match e with
  | Capture.TranslationCalled _ rs => rs <> []
  | _ => True
  end.

(** The tick comes before the frame interval has elapsed. *)
Definition too_early {Frame WindowInfo ScreenRegion Item App : Type}
           (m : Capture.monitor Frame WindowInfo ScreenRegion Item App)
           (st : Capture.loop_state Frame Item App)
           (t : Capture.tick Frame WindowInfo ScreenRegion) : Prop :=
  Qlt_bool (Capture.now t - Capture.last_capture_time st)%Q
           (Capture.frame_interval m) = true.

End LoopTrace.

(* ================================================================== *)
(** ** Starting and stopping a session *)

Module Session.

Section Control.

Variables WindowInfo ScreenRegion : Type.

(** What [RealTimeMonitor.monitor_regions] is bound to: a list of the
    monitor's own, or the very list object that the caller of
    [start_monitoring] passed (then every later change of that list is a
    change of this one). *)
Inductive region_list : Type :=
| Own (l : list ScreenRegion)
| OfCaller.

(** The fields of [RealTimeMonitor] that [start_monitoring] and
    [stop_monitoring] write, and the number of worker threads started. *)
Record monitor_object : Type := mkMonitorObject {
  is_monitoring : bool;
  target_window : option WindowInfo;
  monitor_regions : region_list;
  threads_started : nat
}.

(** [regions or []] *)
Definition regions_or_empty (regions : option (list ScreenRegion))
  : region_list :=
  match regions with
  | Some (_ :: _) => OfCaller
  | _ => Own []
  end.

(** [RealTimeMonitor.start_monitoring] *)
Definition start_monitoring (target_window : option WindowInfo)
           (regions : option (list ScreenRegion)) (mo : monitor_object)
  : monitor_object :=
  if is_monitoring mo then mo
  else mkMonitorObject true target_window (regions_or_empty regions)
                       (S (threads_started mo)).

(** [RealTimeMonitor.stop_monitoring] *)
Definition stop_monitoring (mo : monitor_object) : monitor_object :=
  mkMonitorObject false (target_window mo) (monitor_regions mo)
                  (threads_started mo).

(** What [_show_error] is called with. *)
Inductive error_message : Type :=
| NoOcrEngine
| NoTranslationEngine.

(** The fields of [LiveScreenTranslator] that the control methods read
    and write; [ocr_ready] and [translation_ready] say whether the two
    managers have a primary engine; [status_shown] says whether the status
    overlay shows 'Live Translation Active'. *)
Record translator : Type := mkTranslator {
  ocr_ready : bool;
  translation_ready : bool;
  current_mode : str;
  app_target_window : option WindowInfo;
  app_monitor_regions : list ScreenRegion;
  translation_active : bool;
  sessions_count : N;
  the_monitor : monitor_object;
  errors_shown : list error_message;
  status_shown : bool
}.

Definition with_monitor (mo : monitor_object) (t : translator) : translator :=
  mkTranslator (ocr_ready t) (translation_ready t) (current_mode t)
               (app_target_window t) (app_monitor_regions t)
               (translation_active t) (sessions_count t) mo
               (errors_shown t) (status_shown t).

Definition show_error (e : error_message) (t : translator) : translator :=
  mkTranslator (ocr_ready t) (translation_ready t) (current_mode t)
               (app_target_window t) (app_monitor_regions t)
               (translation_active t) (sessions_count t) (the_monitor t)
               (e :: errors_shown t) (status_shown t).

(** Truth value of an optional object and of a list. *)
Definition is_some {A : Type} (o : option A) : bool :=
  match o with Some _ => true | None => false end.

Definition nonempty {A : Type} (l : list A) : bool :=
  match l with [] => false | _ :: _ => true end.

(** [LiveScreenTranslator.start_translation] *)
Definition start_translation (t : translator) : translator :=
  if translation_active t then t
  else if negb (ocr_ready t) then show_error NoOcrEngine t
  else if negb (translation_ready t) then show_error NoTranslationEngine t
  else
    let mo :=
      if PyStr.eqb (current_mode t) (lit "app") && is_some (app_target_window t)
      then start_monitoring (app_target_window t) None (the_monitor t)
      else if PyStr.eqb (current_mode t) (lit "region")
              && nonempty (app_monitor_regions t)
           then start_monitoring None (Some (app_monitor_regions t))
                                 (the_monitor t)
           else start_monitoring None None (the_monitor t) in
    mkTranslator (ocr_ready t) (translation_ready t) (current_mode t)
                 (app_target_window t) (app_monitor_regions t)
                 true (sessions_count t + 1) mo (errors_shown t) true.

(** [LiveScreenTranslator.stop_translation] *)
Definition stop_translation (t : translator) : translator :=
  if translation_active t then
    mkTranslator (ocr_ready t) (translation_ready t) (current_mode t)
                 (app_target_window t) (app_monitor_regions t)
                 false (sessions_count t) (stop_monitoring (the_monitor t))
                 (errors_shown t) false
  else t.

(** [LiveScreenTranslator.toggle_translation] *)
Definition toggle_translation (t : translator) : translator :=
  if translation_active t then stop_translation t else start_translation t.

(** [LiveScreenTranslator.set_target_window] *)
Definition set_target_window (window_info : WindowInfo) (t : translator)
  : translator :=
  mkTranslator (ocr_ready t) (translation_ready t) (lit "app")
               (Some window_info) (app_monitor_regions t)
               (translation_active t) (sessions_count t) (the_monitor t)
               (errors_shown t) (status_shown t).

(** [LiveScreenTranslator.add_monitor_region] *)
Definition add_monitor_region (region : ScreenRegion) (t : translator)
  : translator :=
  mkTranslator (ocr_ready t) (translation_ready t) (lit "region")
               (app_target_window t) (app_monitor_regions t ++ [region])
               (translation_active t) (sessions_count t) (the_monitor t)
               (errors_shown t) (status_shown t).

(** What the user, the main window and the hot keys can ask for. *)
Inductive command : Type :=
| Start
| Stop
| Toggle
| SetTargetWindow (w : WindowInfo)
| AddMonitorRegion (r : ScreenRegion).

Definition obey (c : command) (t : translator) : translator :=
  match c with
  | Start => start_translation t
  | Stop => stop_translation t
  | Toggle => toggle_translation t
  | SetTargetWindow w => set_target_window w t
  | AddMonitorRegion r => add_monitor_region r t
  end.

Definition obey_all (cs : list command) (t : translator) : translator :=
  fold_left (fun acc c => obey c acc) cs t.

(** [LiveScreenTranslator.__init__] as far as these fields go. *)
Definition new_translator (ocr_ready translation_ready : bool) (mode : str)
  : translator :=
  mkTranslator ocr_ready translation_ready mode None [] false 0
               (mkMonitorObject false None (Own []) 0) [] false.

(** The list that [self.monitor_regions] of the monitor stands for. *)
Definition watched_regions (t : translator) : list ScreenRegion :=
  match monitor_regions (the_monitor t) with
  | Own l => l
  | OfCaller => app_monitor_regions t
  end.

(** The monitor as its loop reads it, for given callbacks and frame
    interval. *)
Definition loop_monitor (Frame Item App : Type)
           (ocr : option (Frame -> App -> outcome (list Item) * App))
           (translate : option (list Item -> App -> outcome unit * App))
           (frame_interval : Q) (t : translator)
  : Capture.monitor Frame WindowInfo ScreenRegion Item App :=
  Capture.mkMonitor ocr translate (target_window (the_monitor t))
                    (watched_regions t) frame_interval.


End Control.

End Session.

(* ================================================================== *)
(** ** Python dicts with string keys *)

Module PyDict.

Section Dict.

Variable V : Type.

(** A dict as the list of its items in insertion order; a key occurs at
    most once. *)
Definition dict : Type := list (str * V).

(** [d[key]], [None] for [KeyError]; also [d.get(key)] *)
Fixpoint item (key : str) (d : dict) : option V :=
  match d with
  | [] => None
  | (k, v) :: d' => if PyStr.eqb k key then Some v else item key d'
  end.

(** [d[key] = v] *)
Fixpoint set_item (key : str) (v : V) (d : dict) : dict :=
  match d with
  | [] => [(key, v)]
  | (k, v') :: d' =>
      if PyStr.eqb k key then (k, v) :: d'
      else (k, v') :: set_item key v d'
  end.

(** [key in d] *)
Definition contains (key : str) (d : dict) : bool :=
  match item key d with Some _ => true | None => false end.

End Dict.

End PyDict.

(* ================================================================== *)
(** ** ConfigManager: dotted paths into nested mappings *)

Module Config.

(** [s.split(sep)] for a separator of one character *)
Fixpoint split_on (sep : char) (s : str) : list str :=
  match s with
  | [] => [[]]
  | c :: s' =>
      if N.eqb c sep then [] :: split_on sep s'
      else match split_on sep s' with
           | first :: rest => (c :: first) :: rest
           | [] => [[c]]
           end
  end.

Section Values.

(** What a YAML document holds besides mappings: strings, numbers,
    booleans, lists, [None]. *)
Variable Leaf : Type.

(** A configuration value; the keys of a mapping are strings, in the
    order of insertion, each at most once. *)
#[warnings="-register-all"]
Inductive value : Type :=
| Scalar (a : Leaf)
| Mapping (items : list (str * value)).

(** [d[key]] and [d[key] = v] on the items of a mapping *)
Definition item (key : str) (items : list (str * value)) : option value :=
  PyDict.item key items.

Definition set_item (key : str) (v : value) (items : list (str * value))
  : list (str * value) :=
  PyDict.set_item key v items.

(** [for key in keys: value = value[key]]; [None] when a key is missing
    ([KeyError]) or the value at hand is not a mapping ([TypeError]). *)
Fixpoint descend (keys : list str) (v : value) : option value :=
  match keys with
  | [] => Some v
  | key :: keys' =>
      match v with
      | Mapping items =>
          match item key items with
          | Some v' => descend keys' v'
          | None => None
          end
      | Scalar _ => None
      end
  end.

(** [ConfigManager.get] *)
Definition get (config : value) (key_path : str) (default : value) : value :=
  match descend (split_on 0x2E%N key_path) config with
  | Some v => v
  | None => default
  end.

(** The loop and the final assignment of [ConfigManager.set] along
    [keys]; a value on the way that is not a mapping makes the membership
    test, the subscript or the assignment raise, before anything was
    written. *)
Fixpoint assign (keys : list str) (v : value) (config : value)
  : outcome value :=
  match config with
  | Scalar _ => Raised
  | Mapping items =>
      match keys with
      | [] => Raised
      | [key] => Returned (Mapping (set_item key v items))
      | key :: keys' =>
          let child :=
            match item key items with
            | Some c => c
            | None => Mapping []
            end in
          match assign keys' v child with
          | Returned child' => Returned (Mapping (set_item key child' items))
          | Raised => Raised
          end
      end
  end.

(** [ConfigManager.set]: the configuration afterwards, or the exception. *)
Definition set (config : value) (key_path : str) (v : value) : outcome value :=
  assign (split_on 0x2E%N key_path) v config.


End Values.

End Config.

(* ================================================================== *)
(** ** GlossaryLoader *)

Module Loader.

(** [Dict[str, str]] *)
Definition terms : Type := PyDict.dict str.

(** What [json.load] can return: a list of objects (whose 'chinese' and
    'english', when present, are strings), a mapping from strings to
    strings, given by its items, or anything else. *)
Inductive json_data : Type :=
| JList (items : list CustomGlossary.json_record)
| JDict (d : list (str * str))
| JOther.

(** The [for item in data] loop of the list format *)
Definition add_item (glossary : terms) (item : CustomGlossary.json_record)
  : terms :=
  let chinese := strip (CustomGlossary.get (CustomGlossary.rec_chinese item) []) in
  let english := strip (CustomGlossary.get (CustomGlossary.rec_english item) []) in
  if truthy chinese && truthy english
  then PyDict.set_item chinese english glossary
  else glossary.

(** [{k: v for k, v in data.items() if k.strip() and v.strip()}], on the
    items of [data] *)
Definition keep_filled (d : list (str * str)) : terms :=
  filter (fun kv => truthy (strip (fst kv)) && truthy (strip (snd kv))) d.

(** [GlossaryLoader.load_json_glossary], from the result of [json.load] on
    ([Raised] when opening or parsing the file raises) *)
Definition load_json_glossary (file : outcome json_data) : terms :=
  match file with
  | Returned (JList items) => fold_left add_item items []
  | Returned (JDict d) => keep_filled d
  | Returned JOther => []
  | Raised => []
  end.

(** The list that [GlossaryLoader.export_glossary_to_json] hands to
    [json.dump] *)
Definition export_glossary_to_json (glossary : terms) : json_data :=
  JList (map (fun ce =>
                CustomGlossary.mkRecord (Some (fst ce)) (Some (snd ce))
                                        (Some (lit "exported")) (Some 1.0%Q))
             glossary).

(** The body of the inner loop of [merge_glossaries] *)
Definition merge_entry (merged : terms) (ce : str * str) : terms :=
  let (chinese, english) := ce in
  match PyDict.item chinese merged with
  | Some current =>
      if negb (PyStr.eqb current english) then
        if (len current <? len english)%nat
        then PyDict.set_item chinese english merged
        else merged
      else PyDict.set_item chinese english merged
  | None => PyDict.set_item chinese english merged
  end.

(** [GlossaryLoader.merge_glossaries] *)
Definition merge_glossaries (glossaries : list terms) : terms :=
  fold_left (fun merged g => fold_left merge_entry g merged) glossaries [].

(** The dict that [validate_glossary] returns *)
Record issues : Type := mkIssues {
  empty_keys : list str;
  empty_values : list str;
  duplicate_values : list str;
  suspicious_entries : list str
}.

(** [f"{chinese} -> {english}"] *)
Definition arrow (chinese english : str) : str :=
  chinese ++ lit " -> " ++ english.

(** [f"'{english}' used for both '{seen_values[english]}' and '{chinese}'"] *)
Definition used_for_both (english first chinese : str) : str :=
  lit "'" ++ english ++ lit "' used for both '" ++ first ++ lit "' and '"
  ++ chinese ++ lit "'".

(** One pass of the loop of [validate_glossary]; [seen_values] goes
    along. *)
Definition validate_entry (acc : issues * PyDict.dict str) (ce : str * str)
  : issues * PyDict.dict str :=
  let (i, seen_values) := acc in
  let (chinese, english) := ce in
  let empty_keys :=
    if negb (truthy (strip chinese)) then empty_keys i ++ [chinese]
    else empty_keys i in
  let empty_values :=
    if negb (truthy (strip english))
    then empty_values i ++ [arrow chinese english]
    else empty_values i in
  let '(duplicate_values, seen_values) :=
    match PyDict.item english seen_values with
    | Some first =>
        (duplicate_values i ++ [used_for_both english first chinese],
         seen_values)
    | None => (duplicate_values i, PyDict.set_item english chinese seen_values)
    end in
  let suspicious_entries :=
    if (50 <? len chinese)%nat || (100 <? len english)%nat
    then suspicious_entries i ++ [arrow chinese english]
    else suspicious_entries i in
  (mkIssues empty_keys empty_values duplicate_values suspicious_entries,
   seen_values).

(** [GlossaryLoader.validate_glossary] *)
Definition validate_glossary (glossary : terms) : issues :=
  fst (fold_left validate_entry glossary (mkIssues [] [] [] [], [])).

(** The keys of the dict are pairwise different. *)
Definition well_formed (g : terms) : Prop := NoDup (map fst g).

(** Key and value are stripped and not empty. *)
Definition tidy (ce : str * str) : Prop :=
  strip (fst ce) = fst ce /\ fst ce <> []
  /\ strip (snd ce) = snd ce /\ snd ce <> [].

(** Neither key nor value is empty or white space. *)
Definition filled (ce : str * str) : Prop :=
  truthy (strip (fst ce)) = true /\ truthy (strip (snd ce)) = true.

(** What the loops of [merge_glossaries] keep true, [seen] being the
    entries gone through so far: the merged dict holds only entries that
    were seen, and for every entry seen it has the key with a translation
    that is no shorter. *)
Definition merge_invariant (seen : list (str * str)) (merged : terms)
  : Prop :=
  (forall c e, PyDict.item c merged = Some e -> In (c, e) seen)
  /\ (forall c e, In (c, e) seen ->
                  exists e', PyDict.item c merged = Some e'
                             /\ (len e <= len e')%nat).

(** What the loop of [validate_glossary] keeps true, [p] being the entries
    gone through so far: [seen_values] has the values of [p] as keys, and
    no duplicate is reported so far exactly when the values of [p] are
    pairwise different. *)
Definition seen_invariant (p : list (str * str))
           (acc : issues * PyDict.dict str) : Prop :=
  (forall e, PyDict.item e (snd acc) <> None <-> In e (map snd p))
  /\ (duplicate_values (fst acc) = [] <-> NoDup (map snd p)).


End Loader.

(* ================================================================== *)
(** ** OCR engines and OCRManager *)

Module Ocr.

(** [int(q)] of a float: the fraction is dropped, towards zero. *)
Definition int_of (q : Q) : Z :=
  if Qle_bool 0 q then Qfloor q else Qceiling q.

(** [min(l)]; [Raised] is the ValueError for an empty list. *)
Definition py_min (l : list Q) : outcome Q :=
  match l with
  | [] => Raised
  | a :: l' =>
      Returned (fold_left (fun m x => if Qlt_bool x m then x else m) l' a)
  end.

(** [max(l)] *)
Definition py_max (l : list Q) : outcome Q :=
  match l with
  | [] => Raised
  | a :: l' =>
      Returned (fold_left (fun m x => if Qlt_bool m x then x else m) l' a)
  end.

(** One line of PaddleOCR's answer: the corner points, and the text with
    its confidence. *)
Record paddle_line : Type := mkLine {
  bbox_points : list (Q * Q);
  text_info : str * Q
}.

(** One index of the columns that [pytesseract.image_to_data] returns;
    ['conf'] as the number that [float] makes of it. *)
Record tesseract_row : Type := mkRow {
  row_text : str;
  row_conf : Q;
  row_left : Z;
  row_top : Z;
  row_width : Z;
  row_height : Z
}.

(** [result.bbox[2]] *)
Definition bbox_width (r : Coordinator.OCRResult) : Z :=
  let '(_, _, w, _) := Coordinator.bbox r in w.

(** The rectangle around the corner points, lines 105-113 *)
Definition rectangle (bbox_points : list (Q * Q)) : outcome (Z * Z * Z * Z) :=
  let x_coords := map fst bbox_points in
  let y_coords := map snd bbox_points in
  match py_min x_coords, py_min y_coords, py_max x_coords, py_max y_coords with
  | Returned min_x, Returned min_y, Returned max_x, Returned max_y =>
      let x := int_of min_x in
      let y := int_of min_y in
      let width := int_of (max_x - inject_Z x) in
      let height := int_of (max_y - inject_Z y) in
      Returned (x, y, width, height)
  | _, _, _, _ => Raised
  end.

(** Width and height of the box are not negative. *)
Definition has_sides (r : Coordinator.OCRResult) : Prop :=
  (0 <= bbox_width r)%Z /\ (0 <= Coordinator.bbox_height r)%Z.

Inductive engine : Type := PaddleOCREngine | TesseractOCREngine.

(** [OCRManager]: the engines by name, and the primary one. *)
Record manager : Type := mkManager {
  engines : PyDict.dict engine;
  primary_engine : option engine
}.

Section Engines.

Variable Frame : Type.

(** The colour conversion and [self.ocr.ocr(image_rgb, cls=True)]:
    [Raised] when either raises, [None] when [results] or [results[0]] is
    empty or None, else the lines of [results[0]], a line being [None]
    when it is empty or None. *)
Variable paddle_ocr : Frame -> outcome (option (list (option paddle_line))).

(** The conversion to a PIL image and [pytesseract.image_to_data] *)
Variable image_to_data : Frame -> outcome (list tesseract_row).

(** [paddle_engine.is_available()] and [tesseract_engine.is_available()] *)
Variable paddle_available tesseract_available : bool.

(** [ocr_config.get('confidence_threshold')] and [ocr_config.get('engine')],
    [None] when the key is absent. *)
Variable cfg_confidence_threshold : option Q.
Variable cfg_engine : option str.

Definition confidence_threshold : Q :=
  match cfg_confidence_threshold with Some q => q | None => 0.7%Q end.

(** The loop of [PaddleOCREngine.detect_text], lines 95-114; an exception
    ends it. *)
Fixpoint paddle_regions (lines : list (option paddle_line))
         (ocr_results : list Coordinator.OCRResult)
  : outcome (list Coordinator.OCRResult) :=
  match lines with
  | [] => Returned ocr_results
  | None :: rest => paddle_regions rest ocr_results
  | Some line :: rest =>
      let (text, confidence) := text_info line in
      if Qle_bool confidence_threshold confidence && truthy (strip text) then
        match rectangle (bbox_points line) with
        | Returned bbox =>
            paddle_regions rest
              (ocr_results ++ [Coordinator.new_OCRResult text bbox confidence])
        | Raised => Raised
        end
      else paddle_regions rest ocr_results
  end.

(** [PaddleOCREngine.detect_text] *)
Definition paddle_detect_text (image : Frame) : list Coordinator.OCRResult :=
  if negb paddle_available then []
  else
    match paddle_ocr image with
    | Returned (Some lines) =>
        match paddle_regions lines [] with
        | Returned ocr_results => ocr_results
        | Raised => []
        end
    | Returned None => []
    | Raised => []
    end.

(** The body of the loop of [TesseractOCREngine.detect_text],
    lines 176-186 *)
Definition tesseract_region (ocr_results : list Coordinator.OCRResult)
           (row : tesseract_row) : list Coordinator.OCRResult :=
  let text := strip (row_text row) in
  let confidence := (row_conf row / 100)%Q in
  if Qle_bool confidence_threshold confidence && truthy text then
    ocr_results
      ++ [Coordinator.new_OCRResult
            text (row_left row, row_top row, row_width row, row_height row)
            confidence]
  else ocr_results.

(** [TesseractOCREngine.detect_text] *)
Definition tesseract_detect_text (image : Frame) : list Coordinator.OCRResult :=
  if negb tesseract_available then []
  else
    match image_to_data image with
    | Returned rows => fold_left tesseract_region rows []
    | Raised => []
    end.

(** [engine.is_available()] *)
Definition is_available (e : engine) : bool :=
  match e with
  | PaddleOCREngine => paddle_available
  | TesseractOCREngine => tesseract_available
  end.

(** [engine.detect_text(image)] *)
Definition engine_detect_text (e : engine) (image : Frame)
  : list Coordinator.OCRResult :=
  match e with
  | PaddleOCREngine => paddle_detect_text image
  | TesseractOCREngine => tesseract_detect_text image
  end.

(** [OCRManager._initialize_engines] *)
Definition initialize_engines : manager :=
  let engines := [] in
  let engines :=
    if paddle_available
    then PyDict.set_item (lit "paddleocr") PaddleOCREngine engines
    else engines in
  let engines :=
    if tesseract_available
    then PyDict.set_item (lit "tesseract") TesseractOCREngine engines
    else engines in
  let preferred_engine :=
    match cfg_engine with Some name => name | None => lit "paddleocr" end in
  let primary_engine :=
    match PyDict.item preferred_engine engines with
    | Some e => Some e
    | None =>
        match engines with
        | (_, e) :: _ => Some e
        | [] => None
        end
    end in
  mkManager engines primary_engine.

(** [engine_name and engine_name in self.engines], with the engine found *)
Definition named_engine (m : manager) (engine_name : option str)
  : option engine :=
  match engine_name with
  | Some name => if truthy name then PyDict.item name (engines m) else None
  | None => None
  end.

(** [OCRManager.detect_text] *)
Definition detect_text (m : manager) (image : Frame)
           (engine_name : option str) : list Coordinator.OCRResult :=
  match named_engine m engine_name with
  | Some engine => engine_detect_text engine image
  | None =>
      match primary_engine m with
      | Some engine => engine_detect_text engine image
      | None => []
      end
  end.

(** What both engines see to for every result they return. *)
Definition passes (r : Coordinator.OCRResult) : Prop :=
  Coordinator.text r <> []
  /\ strip (Coordinator.text r) = Coordinator.text r
  /\ (confidence_threshold <= Coordinator.confidence r)%Q.

End Engines.

End Ocr.

(* ================================================================== *)
(** * Properties *)

Unset Implicit Arguments.

(** ** Strings *)

Lemma str_eqb_refl (s : str) : PyStr.eqb s s = true.
Proof.
  induction s as [|c s IH]; simpl; [reflexivity|].
  now rewrite N.eqb_refl, IH.
Qed.

Lemma str_eqb_eq (s t : str) : PyStr.eqb s t = true <-> s = t.
Proof.
  split.
  - revert t; induction s as [|c s IH]; intros [|d t]; simpl; try congruence.
    intros H. apply andb_true_iff in H as [Hc Hs].
    apply N.eqb_eq in Hc. now rewrite Hc, (IH t Hs).
  - intros ->. apply str_eqb_refl.
Qed.

Lemma str_eqb_neq (s t : str) : PyStr.eqb s t = false <-> s <> t.
Proof.
  rewrite <- str_eqb_eq. destruct (PyStr.eqb s t); split; congruence.
Qed.

Lemma replace_scan_absent (old new s : str) :
  occurs old s = false -> replace_scan old new 0 s = s.
Proof.
  induction s as [|c s IH]; simpl; [reflexivity|].
  intros H. apply orb_false_iff in H as [Hhd Htl].
  rewrite Hhd. now rewrite IH.
Qed.

Lemma replace_absent (old new s : str) :
  occurs old s = false -> replace old new s = s.
Proof.
  destruct old as [|o old].
  - destruct s; simpl; discriminate.
  - intros H. unfold replace. now apply replace_scan_absent.
Qed.

(** A text in which none of the six phrases occurs is left as it is. *)
Lemma post_process_plain (s original : str) :
  Translation.plain s = true -> Translation.post_process_translation s original = s.
Proof.
  unfold Translation.plain, Translation.post_process_translation, Translation.replacements.
  cbn [forallb fold_left fst snd].
  rewrite !andb_true_iff, !negb_true_iff.
  intros (H1 & H2 & H3 & H4 & H5 & H6 & _).
  rewrite (replace_absent _ _ _ H1), (replace_absent _ _ _ H2),
          (replace_absent _ _ _ H3), (replace_absent _ _ _ H4),
          (replace_absent _ _ _ H5), (replace_absent _ _ _ H6).
  reflexivity.
Qed.

(** ** Ranking of glossary rows *)

Section Ranking.

Import Glossary.


(** [outranks] is the strict part of a total preorder. *)
Lemma outranks_neg_trans (a b c : row) :
  outranks a b = false -> outranks b c = false -> outranks a c = false.
Proof.
  unfold outranks.
  destruct (Qcompare_spec (confidence a) (confidence b)) as [Hab|Hab|Hab];
    destruct (Qcompare_spec (confidence b) (confidence c)) as [Hbc|Hbc|Hbc];
    destruct (Qcompare_spec (confidence a) (confidence c)) as [Hac|Hac|Hac];
    intros H1 H2; try discriminate; try reflexivity;
    try (exfalso; lra).
  all: apply N.ltb_ge in H1; apply N.ltb_ge in H2; apply N.ltb_ge; lia.
Qed.







End Ranking.

(** ** Glossary look-up *)

Section LookupFacts.

Import Glossary.

Lemma lookup_hit (T : str) (w : world) (top : row) (rest : list row) :
  fst (next_fault w) = NoFault ->
  select_rows T (db w) = top :: rest ->
  lookup T w
  = (map to_hit (top :: rest),
     set_db (update_usage T (db (snd (next_fault w)))) (snd (next_fault w))).
Proof.
  unfold lookup. destruct (next_fault w) as [f w1] eqn:E. simpl.
  intros -> Hsel.
  assert (Hdb : db w1 = db w).
  { unfold next_fault in E. destruct (faults w); inversion E; reflexivity. }
  unfold with_connection, lookup_body. simpl.
  rewrite Hdb, Hsel. reflexivity.
Qed.

Lemma next_fault_db (w : world) : db (snd (next_fault w)) = db w.
Proof. unfold next_fault. now destruct (faults w). Qed.

Lemma next_fault_journal (w : world) : journal (snd (next_fault w)) = journal w.
Proof. unfold next_fault. now destruct (faults w). Qed.

End LookupFacts.

(** ** Translation gateway *)

Section Gateway.

Import Translation.

Lemma google_failure_result (g : GoogleTranslateEngine) (text src tgt : str) :
  google_fails g text src tgt ->
  engine_translate (Engine _ g) text src tgt = failed text.
Proof.
  unfold google_fails, engine_translate. simpl. unfold google_translate.
  destruct (translator g) as [tr|]; [|reflexivity].
  now intros ->.
Qed.

Lemma openai_failure_result (o : OpenAITranslationEngine) (text src tgt : str) :
  openai_fails o text ->
  engine_translate (Engine _ o) text src tgt = failed text.
Proof.
  unfold openai_fails, engine_translate. simpl. unfold openai_translate.
  destruct (client o) as [chat|], (api_key o) as [k|]; try reflexivity.
  now intros ->.
Qed.


End Gateway.




(** An entry whose target is the empty string counts as a glossary match,
    and the text still goes to the engine: [not enhanced_translation] holds
    for [''] as it does for [None]. *)
Remark glossary_empty_target :
  let w := Glossary.add_term Samples.ceshi [] (lit "custom") 1.0%Q
                             Samples.fresh_world in
  let res := fst (Translation.manager_translate
                    Samples.echo_manager Samples.ceshi
                    (lit "auto") (lit "en") true w) in
  Translation.translated_text res = lit "word"
  /\ Translation.confidence res = 0.95%Q
  /\ List.length (Translation.glossary_matches res) = 1%nat.
Proof. cbv zeta. repeat split; vm_compute; reflexivity. Qed.

(** C2, as amended.  On a glossary miss, when the manager has no primary
    engine or the primary engine fails, [translate] returns the
    post-processed input text (the input text itself when none of the six
    replaced phrases occurs in it) with confidence 0.8 and no glossary
    match. *)
Theorem fallback_on_backend_failure
        (m : Translation.TranslationManager) (T src tgt : str)
        (use_glossary : bool) (w : Glossary.world) :
  fst (Glossary.lookup T w) = [] ->
  Translation.no_backend_answer m T src tgt ->
  let res := fst (Translation.manager_translate m T src tgt use_glossary w) in
  Translation.translated_text res = Translation.post_process_translation T T
  /\ Translation.confidence res = 0.8%Q
  /\ Translation.glossary_matches res = []
  /\ Translation.original_text res = T
  /\ (Translation.plain T = true -> Translation.translated_text res = T).
Proof.
  intros Hmiss Hfail. cbv zeta.
  assert (Hfb : match Translation.primary_engine m with
                | Some e => Translation.translated_text
                              (Translation.engine_translate e T src tgt)
                | None => T
                end = T).
  { unfold Translation.no_backend_answer in Hfail.
    destruct (Translation.primary_engine m); [now rewrite Hfail|reflexivity]. }
  unfold Translation.manager_translate.
  destruct (use_glossary
            && Translation.use_glossary_enabled (Translation.manager_config m)).
  - destruct (Glossary.lookup T w) as [res w']. simpl in Hmiss. subst res.
    cbn [fst snd Translation.translated_text Translation.confidence
         Translation.glossary_matches Translation.original_text].
    rewrite Hfb. repeat split. intros Hp. now apply post_process_plain.
  - cbn [fst snd Translation.translated_text Translation.confidence
         Translation.glossary_matches Translation.original_text].
    rewrite Hfb. repeat split. intros Hp. now apply post_process_plain.
Qed.

(** The seeded glossary and a google engine whose requests all raise. *)
Lemma fallback_on_backend_failure_witness :
  let res := fst (Translation.manager_translate
                    Samples.unreachable_manager Samples.weizhicihui
                    (lit "auto") (lit "en") true Samples.seeded_world) in
  Translation.translated_text res
  = Translation.post_process_translation Samples.weizhicihui Samples.weizhicihui
  /\ Translation.confidence res = 0.8%Q
  /\ Translation.glossary_matches res = []
  /\ Translation.original_text res = Samples.weizhicihui
  /\ (Translation.plain Samples.weizhicihui = true ->
      Translation.translated_text res = Samples.weizhicihui).
Proof.
  apply (fallback_on_backend_failure Samples.unreachable_manager
           Samples.weizhicihui (lit "auto") (lit "en") true
           Samples.seeded_world).
  - vm_compute. reflexivity.
  - unfold Translation.no_backend_answer. simpl.
    apply google_failure_result. unfold Translation.google_fails. simpl.
    reflexivity.
Defined.

(** C2, as stated, fails: without any engine, a text that is not in the
    glossary comes back with confidence 0.8. *)
Lemma fallback_on_backend_failure_counterexample :
  let res := fst (Translation.manager_translate
                    Samples.no_engine_manager Samples.weizhicihui
                    (lit "auto") (lit "en") true Samples.seeded_world) in
  fst (Glossary.lookup Samples.weizhicihui Samples.seeded_world) = []
  /\ Translation.primary_engine Samples.no_engine_manager = None
  /\ Translation.translated_text res = Samples.weizhicihui
  /\ Translation.confidence res = 0.8%Q
  /\ ~ (Translation.confidence res == 0.0)%Q.
Proof.
  cbv zeta. repeat split; try (vm_compute; reflexivity).
  vm_compute. discriminate.
Qed.

(** ** Capture loop *)

Section Gating.

Variables Frame WindowInfo ScreenRegion Item App : Type.
Variable size : Frame -> N.
Variable gray_hash : Frame -> outcome Z.

Local Abbreviation monitor := (Capture.monitor Frame WindowInfo ScreenRegion Item App).
Local Abbreviation tick := (Capture.tick Frame WindowInfo ScreenRegion).
Local Abbreviation loop_state := (Capture.loop_state Frame Item App).
Local Abbreviation iteration := (Capture.iteration size gray_hash).
Local Abbreviation image_hash := (Capture.calculate_image_hash gray_hash).

Lemma same_hash_refl (h : Z) : Capture.same_hash h (Some h) = true.
Proof. apply Z.eqb_refl. Qed.

(** An iteration that meets the fingerprint it has stored does nothing but,
    possibly, sleep. *)
Lemma iteration_skip (m : monitor) (t : tick) (st : loop_state) :
  Capture.previous_hash st = Some (image_hash (Capture.capture m t)) ->
  let st' := iteration m t st in
  Capture.ocr_calls st' = Capture.ocr_calls st
  /\ Capture.translation_calls st' = Capture.translation_calls st
  /\ Capture.app st' = Capture.app st
  /\ Capture.previous_hash st' = Capture.previous_hash st.
Proof.
  intros Hp. cbv zeta. unfold Capture.iteration.
  destruct (Qlt_bool _ _); [now repeat split|].
  destruct (N.eqb _ 0); [now repeat split|].
  rewrite Hp, same_hash_refl. now repeat split.
Qed.

(** An iteration calls the OCR callback at most once. *)
Lemma iteration_ocr_calls (m : monitor) (t : tick) (st : loop_state) :
  (Capture.ocr_calls (iteration m t st) <= Capture.ocr_calls st + 1)%nat.
Proof.
  unfold Capture.iteration, Capture.ocr_calls.
  destruct (Qlt_bool _ _); [simpl; lia|].
  destruct (N.eqb _ 0); [lia|].
  destruct (Capture.same_hash _ _); [lia|].
  destruct (Capture.ocr_callback m) as [ocr|]; [|simpl; lia].
  destruct (ocr _ _) as [[rs|] a1]; [|simpl; lia].
  destruct rs as [|x rs]; [simpl; lia|].
  destruct (Capture.translation_callback m) as [tr|]; [|simpl; lia].
  destruct (tr _ _) as [[u|] a2]; simpl; lia.
Qed.

(** Either the iteration leaves the stored fingerprint and the call counts
    as they are, or it stores the fingerprint of its frame. *)
Lemma iteration_hash (m : monitor) (t : tick) (st : loop_state) :
  (Capture.previous_hash (iteration m t st) = Capture.previous_hash st
   /\ Capture.ocr_calls (iteration m t st) = Capture.ocr_calls st)
  \/ Capture.previous_hash (iteration m t st)
     = Some (image_hash (Capture.capture m t)).
Proof.
  unfold Capture.iteration.
  destruct (Qlt_bool _ _); [now left|].
  destruct (N.eqb _ 0); [now left|].
  destruct (Capture.same_hash _ _); [now left|].
  right.
  destruct (Capture.ocr_callback m) as [ocr|]; [|reflexivity].
  destruct (ocr _ _) as [[rs|] a1]; [|reflexivity].
  destruct rs as [|x rs]; [reflexivity|].
  destruct (Capture.translation_callback m) as [tr|]; [|reflexivity].
  destruct (tr _ _) as [[u|] a2]; reflexivity.
Qed.

(** After a frame has been through the comparison, its fingerprint is the
    stored one, whether the frame was accepted or not. *)
Lemma fingerprinted_hash (m : monitor) (t : tick) (st : loop_state) :
  Capture.fingerprinted size m t st ->
  Capture.previous_hash (iteration m t st)
  = Some (image_hash (Capture.capture m t)).
Proof.
  intros [Hgate Hsize]. unfold Capture.iteration. rewrite Hgate.
  apply N.eqb_neq in Hsize. rewrite Hsize.
  destruct (Capture.same_hash _ _) eqn:Hs.
  - unfold Capture.same_hash in Hs.
    destruct (Capture.previous_hash st) as [p|]; [|discriminate].
    apply Z.eqb_eq in Hs. now rewrite Hs.
  - destruct (Capture.ocr_callback m) as [ocr|]; [|reflexivity].
    destruct (ocr _ _) as [[rs|] a1]; [|reflexivity].
    destruct rs as [|x rs]; [reflexivity|].
    destruct (Capture.translation_callback m) as [tr|]; [|reflexivity].
    destruct (tr _ _) as [[u|] a2]; reflexivity.
Qed.

(** Two frames with the same fingerprint, one after the other: at most one
    OCR call. *)
Lemma two_frames_one_call (m : monitor) (t1 t2 : tick) (st : loop_state) :
  image_hash (Capture.capture m t1) = image_hash (Capture.capture m t2) ->
  (Capture.ocr_calls (iteration m t2 (iteration m t1 st))
   <= Capture.ocr_calls st + 1)%nat.
Proof.
  intros Heq.
  destruct (iteration_hash m t1 st) as [[_ Hsame]|Hacc].
  - pose proof (iteration_ocr_calls m t2 (iteration m t1 st)). lia.
  - rewrite Heq in Hacc.
    destruct (iteration_skip m t2 (iteration m t1 st) Hacc) as (H & _).
    rewrite H. apply iteration_ocr_calls.
Qed.

End Gating.

(** C3.  Two ticks of the running loop whose frames have the same
    fingerprint lead to at most one call of the OCR callback; and once the
    first frame has been through the comparison of fingerprints, the
    iteration for the second frame calls neither the OCR callback nor the
    translation callback and leaves the application state and the stored
    fingerprint as they are. *)
Theorem idempotent_gating
        (Frame WindowInfo ScreenRegion Item App : Type)
        (size : Frame -> N) (gray_hash : Frame -> outcome Z)
        (m : Capture.monitor Frame WindowInfo ScreenRegion Item App)
        (t1 t2 : Capture.tick Frame WindowInfo ScreenRegion)
        (st : Capture.loop_state Frame Item App) :
  Capture.calculate_image_hash gray_hash (Capture.capture m t1)
  = Capture.calculate_image_hash gray_hash (Capture.capture m t2) ->
  (Capture.ocr_calls (Capture.monitor_loop_from size gray_hash m [t1; t2] st)
   <= Capture.ocr_calls st + 1)%nat
  /\ (Capture.fingerprinted size m t1 st ->
      let st1 := Capture.iteration size gray_hash m t1 st in
      let st2 := Capture.iteration size gray_hash m t2 st1 in
      Capture.ocr_calls st2 = Capture.ocr_calls st1
      /\ Capture.translation_calls st2 = Capture.translation_calls st1
      /\ Capture.app st2 = Capture.app st1
      /\ Capture.previous_hash st2 = Capture.previous_hash st1).
Proof.
  intros Heq. split.
  - simpl. destruct (Capture.is_monitoring t1); [|lia].
    destruct (Capture.is_monitoring t2).
    + now apply two_frames_one_call.
    + apply iteration_ocr_calls.
  - intros Hfp. cbv zeta. apply iteration_skip.
    rewrite <- Heq. now apply fingerprinted_hash.
Qed.

(** Frames 7 and 9 with a fingerprint that does not tell them apart. *)
Lemma idempotent_gating_witness :
  let gray_hash := fun _ : N => Returned 42%Z in
  let size := fun _ : N => 1024%N in
  let st := Capture.initial N nat 0%nat in
  let st1 := Capture.iteration size gray_hash Samples.counting_monitor
                               Samples.first_tick st in
  let st2 := Capture.iteration size gray_hash Samples.counting_monitor
                               Samples.second_tick st1 in
  (Capture.ocr_calls
     (Capture.monitor_loop_from size gray_hash Samples.counting_monitor
        [Samples.first_tick; Samples.second_tick] st)
   <= Capture.ocr_calls st + 1)%nat
  /\ Capture.ocr_calls st2 = Capture.ocr_calls st1
  /\ Capture.translation_calls st2 = Capture.translation_calls st1
  /\ Capture.app st2 = Capture.app st1
  /\ Capture.previous_hash st2 = Capture.previous_hash st1.
Proof.
  cbv zeta.
  destruct (idempotent_gating N unit unit nat nat (fun _ => 1024%N)
              (fun _ => Returned 42%Z) Samples.counting_monitor
              Samples.first_tick Samples.second_tick
              (Capture.initial N nat 0%nat) eq_refl) as [Hle Hskip].
  split; [exact Hle|].
  apply Hskip. split; [reflexivity | discriminate].
Defined.

(** C10.  The fingerprint of a frame is the hash of its grey image when
    that can be computed and 0 when anything on the way raises.  Two frames
    for which it raises have the same fingerprint, 0; when the first of them
    has been through the comparison of fingerprints, 0 is the stored
    fingerprint and the iteration for the second calls neither callback and
    leaves the application state and the stored fingerprint as they are. *)
Theorem fingerprint_total
        (Frame WindowInfo ScreenRegion Item App : Type)
        (size : Frame -> N) (gray_hash : Frame -> outcome Z)
        (m : Capture.monitor Frame WindowInfo ScreenRegion Item App)
        (t1 t2 : Capture.tick Frame WindowInfo ScreenRegion)
        (st : Capture.loop_state Frame Item App) :
  (forall f : Frame,
      Capture.calculate_image_hash gray_hash f
      = match gray_hash f with Returned h => h | Raised => 0%Z end)
  /\ (gray_hash (Capture.capture m t1) = Raised ->
      gray_hash (Capture.capture m t2) = Raised ->
      Capture.calculate_image_hash gray_hash (Capture.capture m t1) = 0%Z
      /\ Capture.calculate_image_hash gray_hash (Capture.capture m t2) = 0%Z
      /\ (Capture.fingerprinted size m t1 st ->
          let st1 := Capture.iteration size gray_hash m t1 st in
          let st2 := Capture.iteration size gray_hash m t2 st1 in
          Capture.previous_hash st1 = Some 0%Z
          /\ Capture.ocr_calls st2 = Capture.ocr_calls st1
          /\ Capture.translation_calls st2 = Capture.translation_calls st1
          /\ Capture.app st2 = Capture.app st1
          /\ Capture.previous_hash st2 = Some 0%Z)).
Proof.
  split; [reflexivity|].
  intros H1 H2.
  assert (E1 : Capture.calculate_image_hash gray_hash (Capture.capture m t1) = 0%Z)
    by (unfold Capture.calculate_image_hash; now rewrite H1).
  assert (E2 : Capture.calculate_image_hash gray_hash (Capture.capture m t2) = 0%Z)
    by (unfold Capture.calculate_image_hash; now rewrite H2).
  repeat split; trivial.
  all: pose proof (fingerprinted_hash _ _ _ _ _ size gray_hash m t1 st H) as Hst1;
    rewrite E1 in Hst1; trivial.
  all: assert (Hp : Capture.previous_hash (Capture.iteration size gray_hash m t1 st)
                    = Some (Capture.calculate_image_hash gray_hash
                              (Capture.capture m t2)))
    by (now rewrite E2).
  all: destruct (iteration_skip _ _ _ _ _ size gray_hash m t2 _ Hp)
    as (Ho & Ht & Ha & Hh); trivial.
  now rewrite Hh.
Qed.

(** Frames 7 and 9 when the grey image cannot be computed. *)
Lemma fingerprint_total_witness :
  let gray_hash := fun _ : N => @Raised Z in
  let size := fun _ : N => 1024%N in
  let st := Capture.initial N nat 0%nat in
  let st1 := Capture.iteration size gray_hash Samples.counting_monitor
                               Samples.first_tick st in
  let st2 := Capture.iteration size gray_hash Samples.counting_monitor
                               Samples.second_tick st1 in
  Capture.previous_hash st1 = Some 0%Z
  /\ Capture.ocr_calls st2 = Capture.ocr_calls st1
  /\ Capture.translation_calls st2 = Capture.translation_calls st1
  /\ Capture.app st2 = Capture.app st1
  /\ Capture.previous_hash st2 = Some 0%Z.
Proof.
  cbv zeta.
  refine (proj2 (proj2 (proj2 (fingerprint_total N unit unit nat nat
                   (fun _ => 1024%N) (fun _ => Raised) Samples.counting_monitor
                   Samples.first_tick Samples.second_tick
                   (Capture.initial N nat 0%nat)) _ _)) _).
  - reflexivity.
  - reflexivity.
  - split; [reflexivity | discriminate].
Defined.

(** ** Batch translation *)

Section Batch.

Import Translation.

Lemma manager_translate_original (m : TranslationManager) (text src tgt : str)
      (ug : bool) (w : Glossary.world) :
  original_text (fst (manager_translate m text src tgt ug w)) = text.
Proof.
  unfold manager_translate.
  destruct (ug && use_glossary_enabled (manager_config m)); [|reflexivity].
  destruct (Glossary.lookup text w) as [[|best rest] w']; reflexivity.
Qed.

Lemma translate_batch_unfold (m : TranslationManager) (texts : list str)
      (src tgt : str) (w : Glossary.world) :
  translate_batch m texts src tgt w = batch_as_specified m texts src tgt w.
Proof.
  unfold batch_as_specified, blank.
  revert w. induction texts as [|text texts IH]; intros w; [reflexivity|].
  cbn [translate_batch filter].
  destruct (truthy (strip text)); cbn [negb].
  - cbn [translate_each].
    destruct (manager_translate m text src tgt true w) as [result w1].
    now rewrite IH.
  - apply IH.
Qed.

Lemma translate_each_originals (m : TranslationManager) (texts : list str)
      (src tgt : str) (w : Glossary.world) :
  map original_text (fst (translate_each m texts src tgt w)) = texts.
Proof.
  revert w. induction texts as [|text texts IH]; intros w; [reflexivity|].
  cbn [translate_each].
  pose proof (manager_translate_original m text src tgt true w) as Ho.
  destruct (manager_translate m text src tgt true w) as [result w1].
  specialize (IH w1).
  destruct (translate_each m texts src tgt w1) as [results w2].
  simpl in *. now rewrite Ho, IH.
Qed.

Lemma filter_all {A : Type} (p : A -> bool) (l : list A) :
  Forall (fun x => p x = true) l -> filter p l = l.
Proof.
  induction 1 as [|x l Hx _ IH]; simpl; [reflexivity|].
  now rewrite Hx, IH.
Qed.

(** On texts none of which is blank the batch keeps every position. *)
Lemma translate_batch_originals (m : TranslationManager) (texts : list str)
      (src tgt : str) (w : Glossary.world) :
  Forall (fun text => blank text = false) texts ->
  map original_text (fst (translate_batch m texts src tgt w)) = texts.
Proof.
  intros Hnb. rewrite translate_batch_unfold. unfold batch_as_specified.
  rewrite filter_all.
  - apply translate_each_originals.
  - eapply Forall_impl; [|exact Hnb]. simpl. now intros a ->.
Qed.

End Batch.

(** C6.  [translate_batch] is [translate] applied, in order, to the inputs
    whose stripped form is not empty; the original texts of its results are
    exactly those inputs, in their order, so that a blank input has no
    element and the output is as long as there are non-blank inputs. *)
Theorem batch_translation
        (m : Translation.TranslationManager) (texts : list str)
        (src tgt : str) (w : Glossary.world) :
  Translation.translate_batch m texts src tgt w
  = Translation.batch_as_specified m texts src tgt w
  /\ map Translation.original_text
         (fst (Translation.translate_batch m texts src tgt w))
     = filter (fun text => truthy (strip text)) texts
  /\ List.length (fst (Translation.translate_batch m texts src tgt w))
     = List.length (filter (fun text => truthy (strip text)) texts).
Proof.
  assert (Hf : filter (fun text => negb (Translation.blank text)) texts
               = filter (fun text => truthy (strip text)) texts).
  { apply filter_ext. intros a. unfold Translation.blank.
    now rewrite negb_involutive. }
  assert (Ho : map Translation.original_text
                   (fst (Translation.translate_batch m texts src tgt w))
               = filter (fun text => truthy (strip text)) texts).
  { rewrite translate_batch_unfold. unfold Translation.batch_as_specified.
    rewrite translate_each_originals. exact Hf. }
  split; [apply translate_batch_unfold|]. split; [exact Ho|].
  rewrite <- Ho. now rewrite length_map.
Qed.

(** ** Pipeline coordinator *)

Section Pipeline.

Import Coordinator.

Lemma Qlt_bool_iff (a b : Q) : Qlt_bool a b = true <-> (a < b)%Q.
Proof.
  unfold Qlt_bool. rewrite negb_true_iff.
  split.
  - intros H. apply Qnot_le_lt. intros Hle.
    apply Qle_bool_iff in Hle. congruence.
  - intros H. destruct (Qle_bool b a) eqn:E; [|reflexivity].
    apply Qle_bool_iff in E. exfalso. now apply (Qlt_not_le a b).
Qed.


Lemma valid_pairs_lengths (os : list OCRResult)
      (ts : list Translation.TranslationResult) :
  List.length (map fst (valid_pairs os ts))
  = List.length (map snd (valid_pairs os ts)).
Proof. now rewrite !length_map. Qed.

Lemma valid_pairs_texts (os : list OCRResult)
      (ts : list Translation.TranslationResult) :
  map text os = map Translation.original_text ts ->
  map text (map fst (valid_pairs os ts))
  = map Translation.original_text (map snd (valid_pairs os ts)).
Proof.
  unfold valid_pairs.
  revert ts. induction os as [|o os IH]; intros [|t ts]; simpl;
    try reflexivity; try discriminate.
  intros H. injection H as Hhd Htl.
  destruct (worth_showing t); simpl; [rewrite Hhd; f_equal|]; now apply IH.
Qed.

(** What [_process_ocr] lets through is not blank. *)
Lemma kept_not_blank (cfg : option Z) (r : OCRResult) :
  keep_region cfg r = true -> Translation.blank (text r) = false.
Proof.
  unfold keep_region, Translation.blank, len.
  intros H. apply andb_true_iff in H as [_ H]. apply Nat.ltb_lt in H.
  destruct (strip (text r)); simpl in *; [lia|reflexivity].
Qed.

Lemma process_ocr_not_blank (Frame : Type)
      (detect_text : Frame -> outcome (list OCRResult)) (cfg : option Z)
      (image : Frame) (st : state) :
  Forall (fun text => Translation.blank text = false)
         (map text (fst (process_ocr detect_text cfg image st))).
Proof.
  unfold process_ocr. destruct (detect_text image) as [rs|]; simpl.
  - apply Forall_forall. intros x Hx.
    apply in_map_iff in Hx as (r & <- & Hr).
    apply filter_In in Hr as [_ Hk]. now apply (kept_not_blank cfg).
  - constructor.
Qed.

Lemma process_ocr_emitted (Frame : Type)
      (detect_text : Frame -> outcome (list OCRResult)) (cfg : option Z)
      (image : Frame) (st : state) :
  emitted (snd (process_ocr detect_text cfg image st)) = emitted st
  /\ completed (snd (process_ocr detect_text cfg image st)) = completed st.
Proof.
  unfold process_ocr. now destruct (detect_text image).
Qed.

(** The emission of [_process_translations] on regions without a blank
    text. *)
Lemma process_translations_aligned (tm : Translation.TranslationManager)
      (os : list OCRResult) (st : state) :
  Forall (fun text => Translation.blank text = false) (map text os) ->
  Forall aligned (emitted st) ->
  Forall aligned (emitted (process_translations tm os st)).
Proof.
  intros Hnb Hinv. unfold process_translations.
  destruct os as [|o os]; [exact Hinv|].
  pose proof (translate_batch_originals tm (map text (o :: os))
                (lit "auto") (lit "en") (glossary st) Hnb) as Ho.
  destruct (Translation.translate_batch tm (map text (o :: os))
              (lit "auto") (lit "en") (glossary st)) as [ts w].
  simpl fst in Ho. cbn [emitted].
  constructor; [|exact Hinv].
  split; cbn [fst snd].
  - apply valid_pairs_lengths.
  - apply valid_pairs_texts. now rewrite Ho.
Qed.

(** One frame through [_process_ocr] and then [_process_translations]. *)
Lemma pipeline_aligned (Frame : Type)
      (detect_text : Frame -> outcome (list OCRResult)) (cfg : option Z)
      (tm : Translation.TranslationManager) (image : Frame) (st : state) :
  Forall aligned (emitted st) ->
  Forall aligned
    (emitted (process_translations tm
                (fst (process_ocr detect_text cfg image st))
                (snd (process_ocr detect_text cfg image st)))).
Proof.
  intros Hinv. apply process_translations_aligned.
  - apply process_ocr_not_blank.
  - now rewrite (proj1 (process_ocr_emitted Frame detect_text cfg image st)).
Qed.

Lemma iteration_aligned (Frame WindowInfo ScreenRegion : Type)
      (size : Frame -> N) (gray_hash : Frame -> outcome Z)
      (detect_text : Frame -> outcome (list OCRResult)) (cfg : option Z)
      (tm : Translation.TranslationManager)
      (target : option WindowInfo) (regions : list ScreenRegion) (fps : Q)
      (t : Capture.tick Frame WindowInfo ScreenRegion)
      (st : Capture.loop_state Frame OCRResult state) :
  Forall aligned (emitted (Capture.app st)) ->
  Forall aligned
    (emitted (Capture.app
                (Capture.iteration size gray_hash
                   (the_monitor detect_text cfg tm target regions fps) t st))).
Proof.
  intros Hinv. unfold Capture.iteration.
  destruct (Qlt_bool _ _); [exact Hinv|].
  destruct (N.eqb _ 0); [exact Hinv|].
  destruct (Capture.same_hash _ _); [exact Hinv|].
  cbn [the_monitor Capture.ocr_callback Capture.translation_callback
       Capture.app].
  unfold ocr_callback, translation_callback.
  set (image := Capture.capture _ t).
  pose proof (pipeline_aligned Frame detect_text cfg tm image
                (Capture.app st) Hinv) as Hp.
  pose proof (process_ocr_emitted Frame detect_text cfg image
                (Capture.app st)) as [He _].
  destruct (process_ocr detect_text cfg image (Capture.app st)) as [rs st'].
  cbn [fst snd] in *.
  destruct rs as [|r rs]; cbn [Capture.app].
  - now rewrite He.
  - exact Hp.
Qed.

End Pipeline.

(** Without the filter of [_process_ocr] the pairing can be lost: a region
    with an empty text is paired with the translation of the next one. *)
Remark process_translations_needs_filter :
  let regions :=
    [ Coordinator.mkOCRResult [] (0, 0, 1, 20)%Z 0.9%Q;
      Coordinator.mkOCRResult Samples.qidong (0, 30, 40, 20)%Z 0.9%Q ] in
  exists e,
    Coordinator.emitted
      (Coordinator.process_translations Samples.no_engine_manager regions
                                        Samples.start_state) = [e]
    /\ map Coordinator.text (fst e) = [[]]
    /\ map Translation.original_text (snd e) = [Samples.qidong].
Proof.
  cbv zeta. eexists. split; [vm_compute; reflexivity|].
  split; reflexivity.
Qed.



(** C5.  Whatever the capture loop makes the coordinator emit, through
    [_process_ocr] and then [_process_translations], is two lists of the
    same length in which the original text of the i-th translation is the
    text of the i-th region; the same holds for what
    [capture_and_translate_once] hands to [_on_translation_completed]. *)
Theorem paired_emission
        (Frame WindowInfo ScreenRegion : Type)
        (size : Frame -> N) (gray_hash : Frame -> outcome Z)
        (detect_text : Frame -> outcome (list Coordinator.OCRResult))
        (cfg_min_text_size : option Z)
        (tm : Translation.TranslationManager)
        (target : option WindowInfo) (regions : list ScreenRegion) (fps : Q)
        (ticks : list (Capture.tick Frame WindowInfo ScreenRegion))
        (st : Capture.loop_state Frame Coordinator.OCRResult Coordinator.state)
        (image : Frame) (a : Coordinator.state) :
  (Forall Coordinator.aligned (Coordinator.emitted (Capture.app st)) ->
   Forall Coordinator.aligned
     (Coordinator.emitted
        (Capture.app
           (Capture.monitor_loop_from size gray_hash
              (Coordinator.the_monitor detect_text cfg_min_text_size tm
                                       target regions fps)
              ticks st))))
  /\ (Forall Coordinator.aligned (Coordinator.completed a) ->
      Forall Coordinator.aligned
        (Coordinator.completed
           (snd (Coordinator.capture_and_translate_once
                   size detect_text cfg_min_text_size tm image a)))).
Proof.
  split.
  - revert st. induction ticks as [|t ticks IH]; intros st Hinv; [exact Hinv|].
    cbn [Capture.monitor_loop_from].
    destruct (Capture.is_monitoring t); [|exact Hinv].
    apply IH. now apply iteration_aligned.
  - intros Hinv. unfold Coordinator.capture_and_translate_once.
    destruct (N.eqb (size image) 0); [exact Hinv|].
    pose proof (process_ocr_not_blank Frame detect_text cfg_min_text_size
                  image a) as Hnb.
    pose proof (process_ocr_emitted Frame detect_text cfg_min_text_size
                  image a) as [_ Hc].
    destruct (Coordinator.process_ocr detect_text cfg_min_text_size image a)
      as [rs a1].
    cbn [fst snd] in *.
    destruct rs as [|r rs]; [cbn [snd]; now rewrite Hc|].
    pose proof (translate_batch_originals tm (map Coordinator.text (r :: rs))
                  (lit "auto") (lit "en") (Coordinator.glossary a1) Hnb) as Ho.
    destruct (Translation.translate_batch tm _ _ _ _) as [ts w].
    cbn [fst snd Coordinator.completed] in *.
    constructor; [|now rewrite Hc].
    split; cbn [fst snd].
    + rewrite <- (length_map Coordinator.text),
              <- (length_map Translation.original_text ts).
      now rewrite Ho.
    + now rewrite Ho.
Qed.

(** Two frames with three regions each, one of them a lone space, through
    the loop of a coordinator that has just been started. *)
Lemma paired_emission_witness :
  let size := fun _ : N => 1024%N in
  let gray_hash := fun f : N => Returned (Z.of_N f) in
  let final :=
    Capture.monitor_loop size gray_hash
      (Samples.app_monitor Samples.echo_manager)
      [Samples.first_tick; Samples.second_tick] Samples.start_state in
  List.length (Coordinator.emitted (Capture.app final)) = 2%nat
  /\ Forall Coordinator.aligned (Coordinator.emitted (Capture.app final))
  /\ Forall Coordinator.aligned
       (Coordinator.completed
          (snd (Coordinator.capture_and_translate_once
                  size Samples.three_regions None Samples.echo_manager 7%N
                  Samples.start_state))).
Proof.
  cbv zeta. split; [vm_compute; reflexivity|].
  destruct (paired_emission N unit unit (fun _ => 1024%N)
              (fun f => Returned (Z.of_N f)) Samples.three_regions None
              Samples.echo_manager None [] 2%Q
              [Samples.first_tick; Samples.second_tick]
              (Capture.initial N Coordinator.OCRResult Samples.start_state)
              7%N Samples.start_state) as [Hloop Honce].
  split; [apply Hloop | apply Honce]; constructor.
Defined.

(** ** Glossary store *)

Section Store.

Import Glossary.

Lemma same_pair_fresh (s : store) (c e cat : str) (conf : Q) :
  same_pair c e (fresh_row s c e cat conf) = true.
Proof. unfold same_pair. simpl. now rewrite !str_eqb_refl. Qed.

Lemma filter_filter_neg {A : Type} (p : A -> bool) (l : list A) :
  filter p (filter (fun x => negb (p x)) l) = [].
Proof.
  induction l as [|x l IH]; simpl; [reflexivity|].
  destruct (p x) eqn:E; simpl; [exact IH|]. now rewrite E.
Qed.

Lemma filter_idem {A : Type} (p : A -> bool) (l : list A) :
  filter p (filter p l) = filter p l.
Proof.
  induction l as [|x l IH]; simpl; [reflexivity|].
  destruct (p x) eqn:E; simpl; [rewrite E|]; now rewrite ?IH.
Qed.

(** After [INSERT OR REPLACE] exactly one row holds the pair. *)
Lemma insert_or_replace_count (s : store) (c e cat : str) (conf : Q) :
  count_pair c e (insert_or_replace (c, e, cat, conf) s) = 1%nat.
Proof.
  unfold count_pair, insert_or_replace. cbn [rows].
  rewrite filter_app, filter_filter_neg. cbn [filter app].
  now rewrite same_pair_fresh.
Qed.

(** Writing the pair again replaces what the first write left. *)
Lemma insert_or_replace_twice (s : store) (c e cat cat' : str) (conf conf' : Q) :
  entries (insert_or_replace (c, e, cat, conf)
             (insert_or_replace (c, e, cat', conf') s))
  = entries (insert_or_replace (c, e, cat, conf) s).
Proof.
  unfold entries, insert_or_replace. cbn [rows last_id].
  rewrite filter_app, filter_idem. cbn [filter].
  rewrite same_pair_fresh. cbn [negb].
  rewrite app_nil_r, !map_app. reflexivity.
Qed.

Lemma add_term_db (c e cat : str) (conf : Q) (w : world) :
  fst (next_fault w) = NoFault ->
  db (add_term c e cat conf w) = insert_or_replace (c, e, cat, conf) (db w).
Proof.
  unfold add_term. destruct (next_fault w) as [f w1] eqn:E.
  pose proof (next_fault_db w) as Hdb. rewrite E in Hdb. simpl in Hdb.
  simpl. intros ->. unfold with_connection, add_term_body. simpl.
  now rewrite Hdb.
Qed.

Lemma cons_eq_inv {A : Type} (x y : A) (l l' : list A) :
  x :: l = y :: l' -> x = y /\ l = l'.
Proof. intros H. now injection H. Qed.

(** The answer to a look-up depends on the entries only, not on row ids. *)
Lemma outranks_entry (a a' b b' : row) :
  entry_of a = entry_of a' -> entry_of b = entry_of b' ->
  outranks a b = outranks a' b'.
Proof.
  unfold entry_of, outranks. intros Ha Hb.
  injection Ha as _ _ _ Hca Hua. injection Hb as _ _ _ Hcb Hub.
  now rewrite Hca, Hua, Hcb, Hub.
Qed.

Lemma insert_ranked_entries (x x' : row) (l l' : list row) :
  entry_of x = entry_of x' -> map entry_of l = map entry_of l' ->
  map entry_of (insert_ranked x l) = map entry_of (insert_ranked x' l').
Proof.
  intros Hx. revert l'. induction l as [|y l IH]; intros [|y' l'] Hl;
    try discriminate; simpl.
  - now rewrite Hx.
  - cbn [map] in Hl. apply cons_eq_inv in Hl as [Hy Hl].
    rewrite (outranks_entry y y' x x' Hy Hx).
    destruct (outranks y' x'); simpl.
    + cbn [map]. now rewrite Hy, (IH l' Hl).
    + cbn [map]. now rewrite Hx, Hy, Hl.
Qed.

Lemma order_by_rank_entries (l l' : list row) :
  map entry_of l = map entry_of l' ->
  map entry_of (order_by_rank l) = map entry_of (order_by_rank l').
Proof.
  revert l'. induction l as [|x l IH]; intros [|x' l'] Hl;
    try discriminate; simpl; [reflexivity|].
  cbn [map] in Hl. apply cons_eq_inv in Hl as [Hx Hl].
  apply insert_ranked_entries; [exact Hx | now apply IH].
Qed.

Lemma filter_chinese_entries (T : str) (l l' : list row) :
  map entry_of l = map entry_of l' ->
  map entry_of (filter (fun r => PyStr.eqb (chinese r) T) l)
  = map entry_of (filter (fun r => PyStr.eqb (chinese r) T) l').
Proof.
  revert l'. induction l as [|x l IH]; intros [|x' l'] Hl;
    try discriminate; simpl; [reflexivity|].
  cbn [map] in Hl. apply cons_eq_inv in Hl as [Hx Hl].
  assert (Hc : chinese x = chinese x') by (unfold entry_of in Hx; congruence).
  rewrite Hc. destruct (PyStr.eqb (chinese x') T); cbn [map].
  - now rewrite Hx, (IH l' Hl).
  - now apply IH.
Qed.

Lemma select_rows_entries (T : str) (s s' : store) :
  entries s = entries s' ->
  map to_hit (select_rows T s) = map to_hit (select_rows T s').
Proof.
  intros H. unfold select_rows.
  assert (Hm : map entry_of
                 (order_by_rank (filter (fun r => PyStr.eqb (chinese r) T) (rows s)))
               = map entry_of
                   (order_by_rank (filter (fun r => PyStr.eqb (chinese r) T) (rows s'))))
    by (apply order_by_rank_entries, filter_chinese_entries; exact H).
  assert (Hh : forall l, map to_hit l
                         = map (fun p : entry =>
                                  let '(_, e, cat, conf, _) := p in (e, cat, conf))
                               (map entry_of l)).
  { intros l. rewrite map_map. apply map_ext. now intros []. }
  now rewrite !Hh, Hm.
Qed.

End Store.

(** C7.  [add_term] called twice with the same source and target term,
    the database answering both times, leaves one entry for the pair, and
    the same entries, in the same order, as one call; every look-up is
    answered the same after two calls as after one.  When the two calls
    differ in category or confidence, the entries are those of the later
    call alone. *)
Theorem add_term_idempotent (c e cat : str) (conf : Q) (w : Glossary.world) :
  fst (Glossary.next_fault w) = Glossary.NoFault ->
  fst (Glossary.next_fault (Glossary.add_term c e cat conf w)) = Glossary.NoFault ->
  let once := Glossary.add_term c e cat conf w in
  let twice := Glossary.add_term c e cat conf once in
  Glossary.count_pair c e (Glossary.db once) = 1%nat
  /\ Glossary.count_pair c e (Glossary.db twice) = 1%nat
  /\ Glossary.entries (Glossary.db twice) = Glossary.entries (Glossary.db once)
  /\ (forall T, map Glossary.to_hit (Glossary.select_rows T (Glossary.db twice))
                = map Glossary.to_hit (Glossary.select_rows T (Glossary.db once)))
  /\ (forall s cat' conf',
         Glossary.entries
           (Glossary.insert_or_replace (c, e, cat, conf)
              (Glossary.insert_or_replace (c, e, cat', conf') s))
         = Glossary.entries (Glossary.insert_or_replace (c, e, cat, conf) s)).
Proof.
  intros H1 H2. cbv zeta.
  rewrite (add_term_db c e cat conf _ H2), (add_term_db c e cat conf w H1).
  assert (He : Glossary.entries
                 (Glossary.insert_or_replace (c, e, cat, conf)
                    (Glossary.insert_or_replace (c, e, cat, conf) (Glossary.db w)))
               = Glossary.entries
                   (Glossary.insert_or_replace (c, e, cat, conf) (Glossary.db w)))
    by apply insert_or_replace_twice.
  repeat split.
  - apply insert_or_replace_count.
  - apply insert_or_replace_count.
  - exact He.
  - intros T. now apply select_rows_entries.
  - intros s cat' conf'. apply insert_or_replace_twice.
Qed.

(** 'ce shi' -> 'Test' added twice to the seeded glossary. *)
Lemma add_term_idempotent_witness :
  let once := Glossary.add_term Samples.ceshi (lit "Test") (lit "custom") 1.0%Q
                                Samples.seeded_world in
  let twice := Glossary.add_term Samples.ceshi (lit "Test") (lit "custom") 1.0%Q
                                 once in
  Glossary.count_pair Samples.ceshi (lit "Test") (Glossary.db once) = 1%nat
  /\ Glossary.count_pair Samples.ceshi (lit "Test") (Glossary.db twice) = 1%nat
  /\ Glossary.entries (Glossary.db twice) = Glossary.entries (Glossary.db once).
Proof.
  cbv zeta.
  assert (H1 : fst (Glossary.next_fault Samples.seeded_world) = Glossary.NoFault)
    by (vm_compute; reflexivity).
  assert (H2 : fst (Glossary.next_fault
                      (Glossary.add_term Samples.ceshi (lit "Test") (lit "custom")
                                         1.0%Q Samples.seeded_world))
               = Glossary.NoFault)
    by (vm_compute; reflexivity).
  pose proof (add_term_idempotent Samples.ceshi (lit "Test") (lit "custom") 1.0%Q
                Samples.seeded_world H1 H2) as H.
  cbv zeta in H. destruct H as (Ha & Hb & Hc & _).
  split; [exact Ha|]. split; [exact Hb|exact Hc].
Defined.

(** The second call does give the row a new id. *)
Remark add_term_twice_new_id :
  let once := Glossary.add_term Samples.ceshi (lit "Test") (lit "custom") 1.0%Q
                                Samples.seeded_world in
  let twice := Glossary.add_term Samples.ceshi (lit "Test") (lit "custom") 1.0%Q
                                 once in
  Glossary.last_id (Glossary.db once) = 37%N
  /\ Glossary.last_id (Glossary.db twice) = 38%N.
Proof. split; vm_compute; reflexivity. Qed.

(** ** Usage counts *)

Section Usage.

Import Glossary.

Lemma find_map_same {f : row -> row} (c e : str) (l : list row) :
  (forall r, same_pair c e (f r) = same_pair c e r) ->
  find (same_pair c e) (map f l) = option_map f (find (same_pair c e) l).
Proof.
  intros Hf. induction l as [|r l IH]; simpl; [reflexivity|].
  rewrite Hf. destruct (same_pair c e r); [reflexivity|exact IH].
Qed.

(** [UPDATE ... SET usage_count = usage_count + 1 WHERE chinese = ?] adds one
    for the rows of the term and leaves the others. *)
Lemma usage_of_update (T c e : str) (s : store) :
  usage_of c e (update_usage T s)
  = option_map (fun n => if PyStr.eqb c T then (n + 1)%N else n)
               (usage_of c e s).
Proof.
  unfold usage_of, update_usage. cbn [rows].
  rewrite find_map_same.
  - destruct (find (same_pair c e) (rows s)) as [r|] eqn:E; [|reflexivity].
    simpl. apply find_some in E as [_ Hp].
    unfold same_pair in Hp. apply andb_true_iff in Hp as [Hc _].
    apply str_eqb_eq in Hc. rewrite Hc.
    now destruct (PyStr.eqb c T).
  - intros r. unfold same_pair. now destruct (PyStr.eqb (chinese r) T).
Qed.

Lemma find_app_found {A : Type} (p : A -> bool) (l l' : list A) (x : A) :
  find p l = Some x -> find p (l ++ l') = Some x.
Proof.
  induction l as [|y l IH]; simpl; [discriminate|].
  destruct (p y); [trivial|exact IH].
Qed.

Lemma find_filter_keep {A : Type} (p q : A -> bool) (l : list A) :
  (forall x, p x = true -> q x = true) ->
  find p (filter q l) = find p l.
Proof.
  intros Hpq. induction l as [|y l IH]; simpl; [reflexivity|].
  destruct (q y) eqn:Eq; simpl.
  - destruct (p y); [reflexivity|exact IH].
  - destruct (p y) eqn:Ep; [|exact IH].
    apply Hpq in Ep. congruence.
Qed.

Lemma usage_of_insert_or_ignore (t : str * str * str * Q) (c e : str)
      (s : store) (n : N) :
  usage_of c e s = Some n -> usage_of c e (insert_or_ignore t s) = Some n.
Proof.
  destruct t as [[[c' e'] cat] conf]. unfold insert_or_ignore, usage_of.
  destruct (existsb (same_pair c' e') (rows s)); [trivial|].
  cbn [rows]. intros H.
  destruct (find (same_pair c e) (rows s)) as [r|] eqn:E; [|discriminate].
  now rewrite (find_app_found _ _ _ r E).
Qed.

Lemma usage_of_seed (ts : list (str * str * str * Q)) (c e : str)
      (s : store) (n : N) :
  usage_of c e s = Some n ->
  usage_of c e (fold_left (fun acc t => insert_or_ignore t acc) ts s) = Some n.
Proof.
  revert s. induction ts as [|t ts IH]; intros s H; [exact H|].
  simpl. apply IH. now apply usage_of_insert_or_ignore.
Qed.

(** [INSERT OR REPLACE] of another pair leaves the count of this one. *)
Lemma usage_of_insert_other (c e c' e' cat : str) (conf : Q) (s : store) (n : N) :
  PyStr.eqb c' c && PyStr.eqb e' e = false ->
  usage_of c e s = Some n ->
  usage_of c e (insert_or_replace (c', e', cat, conf) s) = Some n.
Proof.
  intros Hne. unfold insert_or_replace, usage_of. cbn [rows]. intros H.
  destruct (find (same_pair c e) (rows s)) as [r|] eqn:E; [|discriminate].
  rewrite (find_app_found _ _ [fresh_row s c' e' cat conf] r); [exact H|].
  rewrite find_filter_keep; [exact E|].
  intros x Hx. unfold same_pair in *.
  apply andb_true_iff in Hx as [Hc He].
  apply str_eqb_eq in Hc, He. rewrite Hc, He.
  destruct (PyStr.eqb c c') eqn:E1; [|reflexivity].
  destruct (PyStr.eqb e e') eqn:E2; [|reflexivity].
  apply str_eqb_eq in E1, E2. subst.
  now rewrite !str_eqb_refl in Hne.
Qed.

(** [INSERT OR REPLACE] of the pair itself starts its count again. *)
Lemma usage_of_insert_same (c e cat : str) (conf : Q) (s : store) :
  usage_of c e (insert_or_replace (c, e, cat, conf) s) = Some 0%N.
Proof.
  unfold insert_or_replace, usage_of. cbn [rows].
  assert (Hnone : find (same_pair c e)
                       (filter (fun r => negb (same_pair c e r)) (rows s)) = None).
  { induction (rows s) as [|r l IH]; simpl; [reflexivity|].
    destruct (same_pair c e r) eqn:E; simpl; [exact IH|]. now rewrite E. }
  assert (Happ : forall l l' : list row,
             find (same_pair c e) l = None ->
             find (same_pair c e) (l ++ l') = find (same_pair c e) l').
  { intros l l'. induction l as [|y l IH]; simpl; [reflexivity|].
    destruct (same_pair c e y); [discriminate|exact IH]. }
  rewrite (Happ _ _ Hnone). simpl. now rewrite same_pair_fresh.
Qed.

(** What the three methods do to the table. *)
Lemma lookup_db (T : str) (w : world) :
  db (snd (lookup T w)) = db w
  \/ (fst (lookup T w) <> [] /\ db (snd (lookup T w)) = update_usage T (db w)).
Proof.
  unfold lookup. pose proof (next_fault_db w) as Hdb.
  destruct (next_fault w) as [f w1]. simpl in Hdb.
  unfold with_connection, lookup_body.
  destruct (connect_ok f); [|now left].
  destruct (stmt_ok f 0); [|now left].
  rewrite Hdb.
  destruct (select_rows T (db w)) as [|top rest] eqn:E.
  - destruct (commit_ok f); simpl; left; congruence.
  - destruct (stmt_ok f 1); [|now left].
    destruct (commit_ok f); [|now left].
    right. simpl. split; [discriminate|reflexivity].
Qed.

Lemma lookup_nonempty_db (T : str) (w : world) :
  fst (lookup T w) <> [] -> db (snd (lookup T w)) = update_usage T (db w).
Proof.
  intros Hne. unfold lookup in *. pose proof (next_fault_db w) as Hdb.
  destruct (next_fault w) as [f w1]. simpl in Hdb.
  unfold with_connection, lookup_body in *.
  destruct (connect_ok f); [|now elim Hne].
  destruct (stmt_ok f 0); [|now elim Hne].
  rewrite Hdb in *.
  destruct (select_rows T (db w)) as [|top rest] eqn:E.
  - destruct (commit_ok f); now elim Hne.
  - destruct (stmt_ok f 1); [|now elim Hne].
    destruct (commit_ok f); [|now elim Hne].
    reflexivity.
Qed.

Lemma load_default_terms_db (w : world) :
  db (load_default_terms w) = db w
  \/ db (load_default_terms w)
     = fold_left (fun acc t => insert_or_ignore t acc) default_terms (db w).
Proof.
  unfold load_default_terms. pose proof (next_fault_db w) as Hdb.
  destruct (next_fault w) as [f w1]. simpl in Hdb.
  unfold with_connection, load_default_terms_body.
  destruct (connect_ok f); [|now left].
  destruct (stmt_ok f 0); [|now left].
  destruct (commit_ok f); [|now left].
  right. unfold log, set_db. cbn [db]. now rewrite Hdb.
Qed.

Lemma add_term_db_cases (c e cat : str) (conf : Q) (w : world) :
  db (add_term c e cat conf w) = db w
  \/ db (add_term c e cat conf w) = insert_or_replace (c, e, cat, conf) (db w).
Proof.
  unfold add_term. pose proof (next_fault_db w) as Hdb.
  destruct (next_fault w) as [f w1]. simpl in Hdb.
  unfold with_connection, add_term_body.
  destruct (connect_ok f); [|now left].
  destruct (stmt_ok f 0); [|now left].
  destruct (commit_ok f); [|now left].
  right. simpl. now rewrite Hdb.
Qed.

(** One operation that is not an [add_term] of the pair does not lower the
    count of the pair. *)
Lemma perform_monotone (o : operation) (c e : str) (w : world) (n : N) :
  writes_pair c e o = false ->
  usage_of c e (db w) = Some n ->
  exists n', usage_of c e (db (perform o w)) = Some n' /\ (n <= n')%N.
Proof.
  intros Ho Hn. destruct o as [T|c' e' cat conf|]; cbn [perform].
  - destruct (lookup_db T w) as [->|[_ ->]].
    + exists n. split; [exact Hn|lia].
    + rewrite usage_of_update, Hn. simpl.
      destruct (PyStr.eqb c T); eexists; split; try reflexivity; lia.
  - destruct (add_term_db_cases c' e' cat conf w) as [->| ->].
    + exists n. split; [exact Hn|lia].
    + exists n. split; [|lia].
      now apply usage_of_insert_other.
  - destruct (load_default_terms_db w) as [->| ->].
    + exists n. split; [exact Hn|lia].
    + exists n. split; [|lia]. now apply usage_of_seed.
Qed.

End Usage.

(** C8, as amended.  A look-up that returns hits adds one to the usage
    count of every entry of the term.  No sequence of look-ups, re-seedings
    and [add_term]s of other pairs lowers the usage count of an entry.  An
    [add_term] of the pair of an entry, when the database takes it, replaces
    the entry, and the usage count of the new entry is 0. *)
Theorem usage_count_monotone (c e : str) (n : N) (w : Glossary.world) :
  Glossary.usage_of c e (Glossary.db w) = Some n ->
  (fst (Glossary.lookup c w) <> [] ->
   Glossary.usage_of c e (Glossary.db (snd (Glossary.lookup c w)))
   = Some (n + 1)%N)
  /\ (forall ops,
         forallb (fun o => negb (Glossary.writes_pair c e o)) ops = true ->
         exists n',
           Glossary.usage_of c e (Glossary.db (Glossary.perform_all ops w))
           = Some n'
           /\ (n <= n')%N)
  /\ (forall cat conf,
         fst (Glossary.next_fault w) = Glossary.NoFault ->
         Glossary.usage_of c e (Glossary.db (Glossary.add_term c e cat conf w))
         = Some 0%N).
Proof.
  intros Hn. split; [|split].
  - intros Hhit. rewrite (lookup_nonempty_db c w Hhit), usage_of_update, Hn.
    simpl. now rewrite str_eqb_refl.
  - intros ops. revert w n Hn.
    induction ops as [|o ops IH]; intros w n Hn Hall.
    + exists n. split; [exact Hn|lia].
    + cbn [forallb] in Hall. apply andb_true_iff in Hall as [Ho Hall].
      apply negb_true_iff in Ho.
      destruct (perform_monotone o c e w n Ho Hn) as (n1 & Hn1 & Hle1).
      destruct (IH (Glossary.perform o w) n1 Hn1 Hall) as (n2 & Hn2 & Hle2).
      exists n2. split; [exact Hn2|lia].
  - intros cat conf Hf.
    rewrite (add_term_db c e cat conf w Hf). apply usage_of_insert_same.
Qed.

(** 'qi dong' -> 'Start' in the seeded glossary: a look-up, a re-seeding,
    an [add_term] of another pair and a second look-up. *)
Lemma usage_count_monotone_witness :
  Glossary.usage_of Samples.qidong (lit "Start")
    (Glossary.db (snd (Glossary.lookup Samples.qidong Samples.seeded_world)))
  = Some 1%N
  /\ exists n',
      Glossary.usage_of Samples.qidong (lit "Start")
        (Glossary.db
           (Glossary.perform_all
              [ Glossary.Lookup Samples.qidong;
                Glossary.LoadDefaultTerms;
                Glossary.AddTerm Samples.ceshi (lit "Test") (lit "custom") 1.0%Q;
                Glossary.Lookup Samples.qidong ]
              Samples.seeded_world))
      = Some n'
      /\ (0 <= n')%N.
Proof.
  assert (H0 : Glossary.usage_of Samples.qidong (lit "Start")
                 (Glossary.db Samples.seeded_world) = Some 0%N)
    by (vm_compute; reflexivity).
  destruct (usage_count_monotone Samples.qidong (lit "Start") 0%N
              Samples.seeded_world H0) as (Hhit & Hseq & _).
  split.
  - apply Hhit. vm_compute. discriminate.
  - apply Hseq. vm_compute. reflexivity.
Defined.

(** C8, as stated, fails: after one look-up the entry 'qi dong' -> 'Start'
    has usage count 1, and [add_term] of the same pair brings it to 0. *)
Lemma usage_count_counterexample :
  let w1 := Glossary.perform_all [Glossary.Lookup Samples.qidong]
                                 Samples.seeded_world in
  let w2 := Glossary.perform_all
              [Glossary.AddTerm Samples.qidong (lit "Start") (lit "automation")
                                1.0%Q] w1 in
  Glossary.usage_of Samples.qidong (lit "Start") (Glossary.db w1) = Some 1%N
  /\ Glossary.usage_of Samples.qidong (lit "Start") (Glossary.db w2) = Some 0%N.
Proof. split; vm_compute; reflexivity. Qed.

(** C9.  When the block of [lookup] raises, [lookup] returns the empty
    list, leaves the table as it is and logs an error; when the block of
    [add_term] raises, [add_term] leaves the table as it is and logs an
    error.  A refused connection, a failing first statement and a failing
    commit make either block raise.  Both methods return in every case. *)
Theorem glossary_failure_contained
        (T c e cat : str) (conf : Q) (w : Glossary.world) :
  let f := fst (Glossary.next_fault w) in
  (fst (Glossary.with_connection f (Glossary.lookup_body f T) (Glossary.db w))
   = Raised ->
   fst (Glossary.lookup T w) = []
   /\ Glossary.db (snd (Glossary.lookup T w)) = Glossary.db w
   /\ Glossary.journal (snd (Glossary.lookup T w))
      = Glossary.ErrorLookingUp T :: Glossary.journal w)
  /\ (fst (Glossary.with_connection f
             (Glossary.add_term_body f (c, e, cat, conf)) (Glossary.db w))
      = Raised ->
      Glossary.db (Glossary.add_term c e cat conf w) = Glossary.db w
      /\ Glossary.journal (Glossary.add_term c e cat conf w)
         = Glossary.ErrorAddingTerm :: Glossary.journal w)
  /\ (Glossary.connect_ok f = false \/ Glossary.stmt_ok f 0 = false
      \/ Glossary.commit_ok f = false ->
      fst (Glossary.with_connection f (Glossary.lookup_body f T) (Glossary.db w))
      = Raised
      /\ fst (Glossary.with_connection f
                (Glossary.add_term_body f (c, e, cat, conf)) (Glossary.db w))
         = Raised).
Proof.
  cbv zeta.
  pose proof (next_fault_db w) as Hdb.
  pose proof (next_fault_journal w) as Hj.
  split; [|split].
  - intros Hr. unfold Glossary.lookup.
    destruct (Glossary.next_fault w) as [f w1]. simpl in *.
    rewrite Hdb.
    destruct (Glossary.with_connection f (Glossary.lookup_body f T) (Glossary.db w))
      as [[hits|] s']; [discriminate|].
    simpl. now rewrite Hdb, Hj.
  - intros Hr. unfold Glossary.add_term.
    destruct (Glossary.next_fault w) as [f w1]. simpl in *.
    rewrite Hdb.
    destruct (Glossary.with_connection f
                (Glossary.add_term_body f (c, e, cat, conf)) (Glossary.db w))
      as [[u|] s']; [discriminate|].
    simpl. now rewrite Hdb, Hj.
  - unfold Glossary.with_connection, Glossary.lookup_body, Glossary.add_term_body.
    intros [H|[H|H]]; rewrite ?H.
    + now split.
    + destruct (Glossary.connect_ok _); now split.
    + destruct (Glossary.connect_ok _); [|now split].
      destruct (Glossary.stmt_ok _ 0); [|now split].
      split; [|reflexivity].
      destruct (Glossary.select_rows T (Glossary.db w)); [reflexivity|].
      now destruct (Glossary.stmt_ok _ 1).
Qed.

(** The seeded glossary while its file cannot be opened. *)
Lemma glossary_failure_contained_witness :
  let w := Glossary.mkWorld (Glossary.db Samples.seeded_world)
                            [Glossary.ConnectFails] [] in
  fst (Glossary.lookup Samples.qidong w) = []
  /\ Glossary.db (snd (Glossary.lookup Samples.qidong w)) = Glossary.db w
  /\ Glossary.journal (snd (Glossary.lookup Samples.qidong w))
     = [Glossary.ErrorLookingUp Samples.qidong]
  /\ Glossary.db (Glossary.add_term Samples.ceshi (lit "Test") (lit "custom")
                                    1.0%Q w) = Glossary.db w
  /\ Glossary.journal (Glossary.add_term Samples.ceshi (lit "Test")
                                         (lit "custom") 1.0%Q w)
     = [Glossary.ErrorAddingTerm].
Proof.
  cbv zeta.
  pose proof (glossary_failure_contained Samples.qidong Samples.ceshi
                (lit "Test") (lit "custom") 1.0%Q
                (Glossary.mkWorld (Glossary.db Samples.seeded_world)
                                  [Glossary.ConnectFails] [])) as H.
  cbv zeta in H. destruct H as (Hl & Ha & Hf).
  destruct Hf as [Hrl Hra]; [left; reflexivity|].
  destruct (Hl Hrl) as (H1 & H2 & H3). destruct (Ha Hra) as (H4 & H5).
  repeat split; assumption.
Defined.

(** A write that fails after the rows were read: [lookup] finds the entry,
    the UPDATE of the usage count raises, and the caller sees a miss. *)
Remark lookup_miss_on_failed_update :
  let w := Glossary.mkWorld (Glossary.db Samples.seeded_world)
                            [Glossary.StatementFails 1] [] in
  Glossary.select_rows Samples.qidong (Glossary.db w) <> []
  /\ fst (Glossary.lookup Samples.qidong w) = [].
Proof. split; vm_compute; [discriminate|reflexivity]. Qed.

(* ================================================================== *)
(** * Further properties *)

(** ** The glossary table under its operations *)

Section TableFacts.

Import Glossary GlossaryTable.

Lemma count_pair_update (T c e : str) (s : store) :
  count_pair c e (update_usage T s) = count_pair c e s.
Proof.
  unfold count_pair, update_usage. cbn [rows].
  induction (rows s) as [|r l IH]; [reflexivity|].
  cbn [map filter].
  assert (Hs : same_pair c e (if PyStr.eqb (chinese r) T then bump r else r)
               = same_pair c e r)
    by (now destruct (PyStr.eqb (chinese r) T)).
  rewrite Hs. destruct (same_pair c e r); cbn [List.length]; now rewrite IH.
Qed.

Lemma filter_length_le {A : Type} (p : A -> bool) (l : list A) :
  (List.length (filter p l) <= List.length l)%nat.
Proof.
  induction l as [|x l IH]; simpl; [lia|].
  destruct (p x); simpl; lia.
Qed.

Lemma filter_comm {A : Type} (p q : A -> bool) (l : list A) :
  filter p (filter q l) = filter q (filter p l).
Proof.
  induction l as [|x l IH]; simpl; [reflexivity|].
  destruct (p x) eqn:Ep, (q x) eqn:Eq; simpl; rewrite ?Ep, ?Eq, IH; reflexivity.
Qed.

Lemma same_pair_fresh_other (s : store) (c e c' e' cat : str) (conf : Q) :
  PyStr.eqb c' c && PyStr.eqb e' e = false ->
  same_pair c e (fresh_row s c' e' cat conf) = false.
Proof. intros H. exact H. Qed.

Lemma pair_eq_dec (c e c' e' : str) :
  {c' = c /\ e' = e} + {PyStr.eqb c' c && PyStr.eqb e' e = false}.
Proof.
  destruct (PyStr.eqb c' c) eqn:Ec, (PyStr.eqb e' e) eqn:Ee; simpl;
    try (right; reflexivity).
  left. split; now apply str_eqb_eq.
Qed.

Lemma count_pair_replace (c e : str) (t : str * str * str * Q) (s : store) :
  (count_pair c e s <= 1)%nat ->
  (count_pair c e (insert_or_replace t s) <= 1)%nat.
Proof.
  destruct t as [[[c' e'] cat] conf]. intros H.
  destruct (pair_eq_dec c e c' e') as [[-> ->]|Hne].
  - now rewrite insert_or_replace_count.
  - unfold count_pair, insert_or_replace in *. cbn [rows].
    rewrite filter_app, length_app. cbn [filter].
    rewrite (same_pair_fresh_other s c e c' e' cat conf Hne). cbn [List.length].
    rewrite filter_comm.
    pose proof (filter_length_le (fun r => negb (same_pair c' e' r))
                  (filter (same_pair c e) (rows s))).
    lia.
Qed.

Lemma existsb_filter_nil {A : Type} (p : A -> bool) (l : list A) :
  existsb p l = false -> filter p l = [].
Proof.
  induction l as [|x l IH]; simpl; [reflexivity|].
  destruct (p x); simpl; [discriminate|exact IH].
Qed.

Lemma count_pair_ignore (c e : str) (t : str * str * str * Q) (s : store) :
  (count_pair c e s <= 1)%nat ->
  (count_pair c e (insert_or_ignore t s) <= 1)%nat.
Proof.
  destruct t as [[[c' e'] cat] conf]. intros H. unfold insert_or_ignore.
  destruct (existsb (same_pair c' e') (rows s)) eqn:Ex; [exact H|].
  unfold count_pair in *. cbn [rows].
  rewrite filter_app, length_app. cbn [filter].
  destruct (pair_eq_dec c e c' e') as [[-> ->]|Hne].
  - rewrite (existsb_filter_nil _ _ Ex), same_pair_fresh. simpl. lia.
  - rewrite (same_pair_fresh_other s c e c' e' cat conf Hne). simpl. lia.
Qed.

Lemma unique_seed (ts : list (str * str * str * Q)) (s : store) :
  unique_pairs s ->
  unique_pairs (fold_left (fun acc t => insert_or_ignore t acc) ts s).
Proof.
  revert s. induction ts as [|t ts IH]; intros s H; [exact H|].
  simpl. apply IH. intros c e. apply count_pair_ignore, H.
Qed.

Lemma unique_perform (o : operation) (w : world) :
  unique_pairs (db w) -> unique_pairs (db (perform o w)).
Proof.
  intros H. destruct o as [T|c e cat conf|]; cbn [perform].
  - destruct (lookup_db T w) as [->|[_ ->]]; [exact H|].
    intros c e. rewrite count_pair_update. apply H.
  - destruct (add_term_db_cases c e cat conf w) as [->| ->]; [exact H|].
    intros c' e'. apply count_pair_replace, H.
  - destruct (load_default_terms_db w) as [->| ->]; [exact H|].
    now apply unique_seed.
Qed.

End TableFacts.

(** X1.  The table constraint is kept: whatever look-ups, [add_term]s and
    re-seedings are performed, with whatever faults, a table that holds
    every (chinese, english) pair at most once still does so afterwards. *)
Theorem unique_pairs_kept (ops : list Glossary.operation) (w : Glossary.world) :
  GlossaryTable.unique_pairs (Glossary.db w) ->
  GlossaryTable.unique_pairs (Glossary.db (Glossary.perform_all ops w)).
Proof.
  revert w. induction ops as [|o ops IH]; intros w H; [exact H|].
  cbn [Glossary.perform_all fold_left]. apply IH. now apply unique_perform.
Qed.

(** A new file, seeded, then 'ce shi' added twice and looked up. *)
Lemma unique_pairs_kept_witness :
  GlossaryTable.unique_pairs
    (Glossary.db
       (Glossary.perform_all
          [ Glossary.LoadDefaultTerms;
            Glossary.AddTerm Samples.ceshi (lit "Test") (lit "custom") 1.0%Q;
            Glossary.AddTerm Samples.ceshi (lit "Test") (lit "custom") 1.0%Q;
            Glossary.Lookup Samples.ceshi ]
          Samples.fresh_world)).
Proof.
  apply (unique_pairs_kept _ Samples.fresh_world).
  intros c e. unfold Glossary.count_pair. simpl. lia.
Defined.

Section SeedFacts.

Import Glossary GlossaryTable.








End SeedFacts.



Section LookupOrder.

Import Glossary GlossaryTable.

Lemma insert_ranked_perm (x : row) (l : list row) :
  Permutation (insert_ranked x l) (x :: l).
Proof.
  induction l as [|y l IH]; simpl; [reflexivity|].
  destruct (outranks y x); [|reflexivity].
  rewrite IH. apply perm_swap.
Qed.

Lemma order_by_rank_perm (l : list row) : Permutation (order_by_rank l) l.
Proof.
  induction l as [|x l IH]; simpl; [reflexivity|].
  rewrite insert_ranked_perm. now constructor.
Qed.

Lemma ranked_before_trans (a b c : row) :
  ranked_before a b -> ranked_before b c -> ranked_before a c.
Proof.
  unfold ranked_before. intros Hab Hbc. exact (outranks_neg_trans c b a Hbc Hab).
Qed.

Lemma outranks_asym (a b : row) : outranks a b = true -> outranks b a = false.
Proof.
  unfold outranks.
  destruct (Qcompare_spec (confidence a) (confidence b)) as [E1|E1|E1];
    destruct (Qcompare_spec (confidence b) (confidence a)) as [E2|E2|E2];
    intros Hlt; try discriminate; try reflexivity; try (exfalso; lra).
  apply N.ltb_lt in Hlt. apply N.ltb_ge. lia.
Qed.

Lemma insert_ranked_sorted (x : row) (l : list row) :
  StronglySorted ranked_before l -> StronglySorted ranked_before (insert_ranked x l).
Proof.
  induction 1 as [|y l Hl IH Hy]; simpl.
  - repeat constructor.
  - destruct (outranks y x) eqn:E.
    + constructor; [exact IH|].
      apply Forall_forall. intros z Hz.
      apply (Permutation_in _ (insert_ranked_perm x l)) in Hz.
      destruct Hz as [<-|Hz].
      * now apply outranks_asym.
      * rewrite Forall_forall in Hy. now apply Hy.
    + constructor; [now constructor|].
      constructor; [exact E|].
      apply Forall_forall. intros z Hz. rewrite Forall_forall in Hy.
      apply (ranked_before_trans x y z); [exact E | now apply Hy].
Qed.

Lemma order_by_rank_sorted (l : list row) :
  StronglySorted ranked_before (order_by_rank l).
Proof.
  induction l as [|x l IH]; simpl; [constructor|].
  now apply insert_ranked_sorted.
Qed.

End LookupOrder.

(** X3.  A look-up that the database answers returns every entry of the
    term once, and nothing else, highest confidence first and, among equal
    confidences, highest usage count first. *)
Theorem lookup_complete_and_ordered (T : str) (w : Glossary.world) :
  fst (Glossary.next_fault w) = Glossary.NoFault ->
  exists found,
    fst (Glossary.lookup T w) = map Glossary.to_hit found
    /\ Permutation found
         (filter (fun r => PyStr.eqb (Glossary.chinese r) T)
                 (Glossary.rows (Glossary.db w)))
    /\ StronglySorted GlossaryTable.ranked_before found.
Proof.
  intros Hf. exists (Glossary.select_rows T (Glossary.db w)).
  split; [|split].
  - destruct (Glossary.select_rows T (Glossary.db w)) as [|top rest] eqn:E.
    + unfold Glossary.lookup. pose proof (next_fault_db w) as Hdb.
      destruct (Glossary.next_fault w) as [f w1]. simpl in Hf, Hdb. subst f.
      unfold Glossary.with_connection, Glossary.lookup_body. simpl.
      now rewrite Hdb, E.
    + now rewrite (lookup_hit T w top rest Hf E).
  - apply order_by_rank_perm.
  - apply order_by_rank_sorted.
Qed.

(** 'qi dong' with a second, less trusted target. *)
Lemma lookup_complete_and_ordered_witness :
  let w := Glossary.add_term Samples.qidong (lit "Launch") (lit "custom") 0.6%Q
                             Samples.seeded_world in
  fst (Glossary.lookup Samples.qidong w)
  = [ (lit "Start", lit "automation", 1.0%Q);
      (lit "Launch", lit "custom", 0.6%Q) ]
  /\ exists found,
      fst (Glossary.lookup Samples.qidong w) = map Glossary.to_hit found
      /\ Permutation found
           (filter (fun r => PyStr.eqb (Glossary.chinese r) Samples.qidong)
                   (Glossary.rows (Glossary.db w)))
      /\ StronglySorted GlossaryTable.ranked_before found.
Proof.
  cbv zeta. split; [vm_compute; reflexivity|].
  apply lookup_complete_and_ordered. vm_compute. reflexivity.
Defined.

(** X4.  A look-up writes usage counts and nothing else: the table has the
    same rows with the same id, source, target, category and confidence, in
    the same order, and the rows of other terms are untouched. *)
Theorem lookup_writes_usage_only (T : str) (w : Glossary.world) :
  let s := Glossary.db w in
  let s' := Glossary.db (snd (Glossary.lookup T w)) in
  map GlossaryTable.columns_of (Glossary.rows s')
  = map GlossaryTable.columns_of (Glossary.rows s)
  /\ filter (fun r => negb (PyStr.eqb (Glossary.chinese r) T)) (Glossary.rows s')
     = filter (fun r => negb (PyStr.eqb (Glossary.chinese r) T)) (Glossary.rows s)
  /\ Glossary.last_id s' = Glossary.last_id s.
Proof.
  cbv zeta. destruct (lookup_db T w) as [->|[_ ->]]; [now repeat split|].
  unfold Glossary.update_usage. cbn [Glossary.rows Glossary.last_id].
  repeat split.
  - rewrite map_map. apply map_ext. intros r.
    now destruct (PyStr.eqb (Glossary.chinese r) T).
  - induction (Glossary.rows (Glossary.db w)) as [|r l IH]; [reflexivity|].
    cbn [map filter].
    destruct (PyStr.eqb (Glossary.chinese r) T) eqn:E.
    + cbn [Glossary.bump Glossary.chinese]. rewrite E. exact IH.
    + rewrite E. cbn [negb]. now rewrite IH.
Qed.

Section AddFacts.

Import Glossary GlossaryTable.

Lemma has_pair_replace (c e : str) (t : str * str * str * Q) (s : store) :
  has_pair c e s = true -> has_pair c e (insert_or_replace t s) = true.
Proof.
  destruct t as [[[c' e'] cat] conf]. unfold has_pair, insert_or_replace.
  cbn [rows]. intros H. rewrite existsb_app. cbn [existsb].
  destruct (pair_eq_dec c e c' e') as [[-> ->]|Hne].
  - now rewrite same_pair_fresh, !orb_true_r.
  - apply orb_true_iff. left.
    apply existsb_exists in H as (r & Hr & Hp).
    apply existsb_exists. exists r. split; [|exact Hp].
    apply filter_In. split; [exact Hr|].
    unfold same_pair in *. apply andb_true_iff in Hp as [Hc He].
    apply str_eqb_eq in Hc, He. rewrite Hc, He.
    destruct (PyStr.eqb c c') eqn:E1; [|reflexivity].
    destruct (PyStr.eqb e e') eqn:E2; [|reflexivity].
    apply str_eqb_eq in E1, E2. subst. now rewrite !str_eqb_refl in Hne.
Qed.

Lemma has_pair_replace_same (c e cat : str) (conf : Q) (s : store) :
  has_pair c e (insert_or_replace (c, e, cat, conf) s) = true.
Proof.
  unfold has_pair, insert_or_replace. cbn [rows].
  rewrite existsb_app. cbn [existsb].
  now rewrite same_pair_fresh, !orb_true_r.
Qed.

Lemma faults_nil_next (w : world) :
  faults w = [] -> next_fault w = (NoFault, w).
Proof. unfold next_fault. now intros ->. Qed.

Lemma add_term_quiet (c e cat : str) (conf : Q) (w : world) :
  faults w = [] ->
  faults (add_term c e cat conf w) = []
  /\ db (add_term c e cat conf w) = insert_or_replace (c, e, cat, conf) (db w).
Proof.
  intros Hq. unfold add_term. rewrite (faults_nil_next w Hq).
  unfold with_connection, add_term_body. cbn. now split.
Qed.


End AddFacts.



Section ImportFacts.

Import Glossary GlossaryTable CustomGlossary.

Lemma add_record_quiet (item : json_record) (w : world) :
  faults w = [] ->
  faults (add_record item w) = []
  /\ db (add_record item w)
     = insert_or_replace (get (rec_chinese item) [], get (rec_english item) [],
                          get (rec_category item) (lit "custom"),
                          get (rec_confidence item) 1.0%Q) (db w).
Proof. intros Hq. unfold add_record. now apply add_term_quiet. Qed.

Lemma import_keeps_pair (items : list json_record) (c e : str) (w : world) :
  faults w = [] ->
  has_pair c e (db w) = true ->
  has_pair c e (db (fold_left (fun acc item => add_record item acc) items w))
  = true.
Proof.
  revert w. induction items as [|item items IH]; intros w Hq Hp; [exact Hp|].
  cbn [fold_left]. destruct (add_record_quiet item w Hq) as [Hq' Hdb].
  apply IH; [exact Hq'|]. rewrite Hdb. now apply has_pair_replace.
Qed.

End ImportFacts.

(** X6.  Loading a JSON glossary while the database answers leaves, for
    every record of the file, a row for its pair, where an absent 'chinese'
    or 'english' key counts as the empty string; a file that cannot be read
    changes nothing. *)
Theorem custom_glossary_loaded
        (items : list CustomGlossary.json_record) (w : Glossary.world) :
  Glossary.faults w = [] ->
  (forall item,
      In item items ->
      GlossaryTable.has_pair
        (CustomGlossary.get (CustomGlossary.rec_chinese item) [])
        (CustomGlossary.get (CustomGlossary.rec_english item) [])
        (Glossary.db
           (CustomGlossary.load_custom_glossary_json (Returned items) w))
      = true)
  /\ CustomGlossary.load_custom_glossary_json Raised w = w.
Proof.
  intros Hq. split; [|reflexivity].
  cbn [CustomGlossary.load_custom_glossary_json].
  revert w Hq. induction items as [|first items IH]; intros w Hq item Hin;
    [destruct Hin|].
  cbn [fold_left]. destruct (add_record_quiet first w Hq) as [Hq' Hdb].
  destruct Hin as [<-|Hin].
  - apply import_keeps_pair; [exact Hq'|]. rewrite Hdb.
    apply has_pair_replace_same.
  - now apply IH.
Qed.

(** A file with a full record and one that has no 'english' key. *)
Lemma custom_glossary_loaded_witness :
  let items :=
    [ CustomGlossary.mkRecord (Some Samples.ceshi) (Some (lit "Test"))
                              (Some (lit "qa")) (Some 0.9%Q);
      CustomGlossary.mkRecord (Some Samples.weizhicihui) None None None ] in
  GlossaryTable.has_pair Samples.weizhicihui []
    (Glossary.db
       (CustomGlossary.load_custom_glossary_json (Returned items)
                                                 Samples.seeded_world))
  = true.
Proof.
  cbv zeta.
  refine (proj1 (custom_glossary_loaded _ Samples.seeded_world _)
                (CustomGlossary.mkRecord (Some Samples.weizhicihui) None None None)
                _).
  - reflexivity.
  - right. left. reflexivity.
Defined.

(** ** The translation gateway *)

Section SelectionFacts.

Import Translation.

Lemma str_eqb_sym (s t : str) : PyStr.eqb s t = PyStr.eqb t s.
Proof.
  destruct (PyStr.eqb s t) eqn:E.
  - apply str_eqb_eq in E. subst. symmetry. apply str_eqb_refl.
  - destruct (PyStr.eqb t s) eqn:E'; [|reflexivity].
    apply str_eqb_eq in E'. subst. now rewrite str_eqb_refl in E.
Qed.

End SelectionFacts.

(** X7.  The primary engine is the preferred one when that is available,
    otherwise google when available, otherwise OpenAI when available,
    otherwise there is none; so the manager has a primary engine exactly
    when some engine is available, and never an unavailable one. *)
Theorem primary_engine_selection
        (c : Translation.config) (g : Translation.GoogleTranslateEngine)
        (o : Translation.OpenAITranslationEngine) :
  let m := Translation.initialize_engines c g o in
  Translation.primary_engine m
  = (if PyStr.eqb (Gateway.preferred_engine c) (lit "openai")
        && Translation.openai_is_available o
     then Some (Translation.Engine Translation.openai_engine o)
     else if Translation.google_is_available g
          then Some (Translation.Engine Translation.google_engine g)
          else if Translation.openai_is_available o
               then Some (Translation.Engine Translation.openai_engine o)
               else None)
  /\ (Translation.primary_engine m = None
      <-> Translation.google_is_available g = false
          /\ Translation.openai_is_available o = false)
  /\ (forall e, Translation.primary_engine m = Some e ->
                Translation.engine_is_available e = true).
Proof.
  cbv zeta.
  assert (Hsel : Translation.primary_engine (Translation.initialize_engines c g o)
                 = (if PyStr.eqb (Gateway.preferred_engine c) (lit "openai")
                       && Translation.openai_is_available o
                    then Some (Translation.Engine Translation.openai_engine o)
                    else if Translation.google_is_available g
                         then Some (Translation.Engine Translation.google_engine g)
                         else if Translation.openai_is_available o
                              then Some (Translation.Engine Translation.openai_engine o)
                              else None)).
  { unfold Translation.initialize_engines, Gateway.preferred_engine.
    cbn [Translation.primary_engine Translation.is_available
         Translation.google_engine Translation.openai_engine].
    set (p := match Translation.cfg_primary_engine c with
              | Some p => p
              | None => lit "google"
              end).
    destruct (Translation.google_is_available g),
             (Translation.openai_is_available o);
      cbn [app Translation.dict_get]; rewrite ?andb_false_r, ?andb_true_r.
    - destruct (PyStr.eqb (lit "google") p) eqn:Eg.
      + apply str_eqb_eq in Eg. subst p. rewrite <- Eg. reflexivity.
      + rewrite (str_eqb_sym (lit "openai") p).
        now destruct (PyStr.eqb p (lit "openai")).
    - now destruct (PyStr.eqb (lit "google") p).
    - rewrite (str_eqb_sym (lit "openai") p).
      now destruct (PyStr.eqb p (lit "openai")).
    - reflexivity. }
  split; [exact Hsel|]. rewrite Hsel. split.
  - destruct (Translation.google_is_available g),
             (Translation.openai_is_available o);
      rewrite ?andb_false_r, ?andb_true_r;
      try destruct (PyStr.eqb _ (lit "openai"));
      split; intros H; try discriminate; try (destruct H; discriminate);
      now split.
  - intros e.
    destruct (Translation.google_is_available g) eqn:Eg,
             (Translation.openai_is_available o) eqn:Eo;
      rewrite ?andb_false_r, ?andb_true_r;
      try destruct (PyStr.eqb _ (lit "openai"));
      intros H; inversion H; subst; assumption.
Qed.

(** X8.  [translate] writes to the glossary on a hit only: afterwards the
    table is the one before, or the one before with the usage counts of
    the text's entries raised by one, and the latter only when a glossary
    match is reported.  With the glossary switched off, in the call or in
    the configuration, the database is not even opened: the world is left
    as it was, no match is reported and the confidence is 0.8. *)
Theorem translate_glossary_effects
        (m : Translation.TranslationManager) (text src tgt : str)
        (use_glossary : bool) (w : Glossary.world) :
  let res := fst (Translation.manager_translate m text src tgt use_glossary w) in
  let w' := snd (Translation.manager_translate m text src tgt use_glossary w) in
  (Glossary.db w' = Glossary.db w
   \/ (Translation.glossary_matches res <> []
       /\ Glossary.db w' = Glossary.update_usage text (Glossary.db w)))
  /\ (use_glossary
      && Translation.use_glossary_enabled (Translation.manager_config m) = false ->
      w' = w
      /\ Translation.glossary_matches res = []
      /\ Translation.confidence res = 0.8%Q).
Proof.
  cbv zeta. unfold Translation.manager_translate.
  destruct (use_glossary
            && Translation.use_glossary_enabled (Translation.manager_config m)).
  - split; [|discriminate].
    pose proof (lookup_db text w) as Hdb.
    pose proof (lookup_nonempty_db text w) as Hne.
    destruct (Glossary.lookup text w) as [[|best rest] w1]; cbn [fst snd] in *.
    + destruct Hdb as [Hdb|[Habs _]]; [now left|congruence].
    + right. split; [discriminate|]. apply Hne. discriminate.
  - split; [now left|]. intros _. now repeat split.
Qed.

(** The glossary switched off in the configuration, a term that has an
    entry. *)
Lemma translate_glossary_effects_witness :
  let m := Translation.mkManager (Translation.mkConfig None (Some false)) [] None in
  let r := Translation.manager_translate m Samples.qidong (lit "auto") (lit "en")
                                         true Samples.seeded_world in
  snd r = Samples.seeded_world
  /\ Translation.glossary_matches (fst r) = []
  /\ Translation.confidence (fst r) = 0.8%Q.
Proof.
  cbv zeta.
  apply (proj2 (translate_glossary_effects
                  (Translation.mkManager (Translation.mkConfig None (Some false))
                                         [] None)
                  Samples.qidong (lit "auto") (lit "en") true
                  Samples.seeded_world)).
  reflexivity.
Defined.

Section AnswerFacts.

Import Translation Gateway.

Lemma rest_of_line_body (bs further : str) :
  forallb (fun d => negb (N.eqb d newline)) bs = true ->
  rest_of_line (bs ++ match further with
                      | [] => []
                      | _ :: _ => newline :: further
                      end) = bs.
Proof.
  induction bs as [|b bs IH]; intros H.
  - destruct further; [reflexivity|]. cbn [app rest_of_line].
    now rewrite N.eqb_refl.
  - cbn [forallb] in H. apply andb_true_iff in H as [Hb Hbs].
    apply negb_true_iff in Hb. cbn [app rest_of_line]. rewrite Hb.
    now rewrite (IH Hbs).
Qed.

Lemma spaces_then_group_body (spaces body further : str) :
  forallb isspace spaces = true ->
  one_line body = true ->
  spaces_then_group (spaces ++ body ++ match further with
                                       | [] => []
                                       | _ :: _ => newline :: further
                                       end) = Some body.
Proof.
  intros Hs Hb. induction spaces as [|c sp IH].
  - destruct body as [|b bs]; [discriminate|].
    unfold one_line in Hb. apply andb_true_iff in Hb as [Hsp Hnl].
    apply negb_true_iff in Hsp.
    cbn [forallb] in Hnl. apply andb_true_iff in Hnl as [Hb Hbs].
    apply negb_true_iff in Hb.
    cbn [app spaces_then_group group_at]. rewrite Hsp, Hb.
    now rewrite (rest_of_line_body bs further Hbs).
  - cbn [forallb] in Hs. apply andb_true_iff in Hs as [Hc Hsp].
    cbn [app spaces_then_group]. rewrite Hc. now rewrite (IH Hsp).
Qed.

Lemma search_formatted (spaces body further : str) :
  forallb isspace spaces = true ->
  one_line body = true ->
  search_translation (formatted_answer spaces body further) = Some body.
Proof.
  intros Hs Hb. unfold formatted_answer.
  change (lit "Translation:")
    with [84; 114; 97; 110; 115; 108; 97; 116; 105; 111; 110; 58]%N.
  cbn [app search_translation].
  change (lit "Translation:")
    with [84; 114; 97; 110; 115; 108; 97; 116; 105; 111; 110; 58]%N.
  cbn [starts_with N.eqb Pos.eqb andb skipn].
  now rewrite (spaces_then_group_body spaces body further Hs Hb).
Qed.

Lemma search_without_marker (content : str) :
  occurs (lit "Translation:") content = false ->
  search_translation content = None.
Proof.
  induction content as [|c content IH]; [reflexivity|].
  cbn [occurs]. intros H. apply orb_false_iff in H as [Hhd Htl].
  cbn [search_translation]. rewrite Hhd. now apply IH.
Qed.

End AnswerFacts.

(** X9.  When the model answers in the requested format, the OpenAI engine
    returns the text that follows the marker on its line, stripped, with
    confidence 0.95; when the answer does not contain the marker at all, it
    returns the input text, also with confidence 0.95. *)
Theorem openai_answer_parsed
        (o : Translation.OpenAITranslationEngine) (chat : str -> outcome str)
        (key text src tgt content : str) :
  Translation.client o = Some chat ->
  Translation.api_key o = Some key ->
  chat text = Returned content ->
  (forall spaces body further,
      content = Gateway.formatted_answer spaces body further ->
      forallb isspace spaces = true ->
      Gateway.one_line body = true ->
      Translation.openai_translate o text src tgt
      = Translation.mkResult text (strip body) 0.95%Q (lit "zh") tgt [])
  /\ (occurs (lit "Translation:") content = false ->
      Translation.openai_translate o text src tgt
      = Translation.mkResult text text 0.95%Q (lit "zh") tgt []).
Proof.
  intros Hc Hk Hchat. unfold Translation.openai_translate.
  rewrite Hc, Hk, Hchat. split.
  - intros spaces body further -> Hs Hb.
    now rewrite (search_formatted spaces body further Hs Hb).
  - intros Hno. now rewrite (search_without_marker content Hno).
Qed.

(** The answer 'Translation: Start ' with an explanation on the next
    line. *)
Lemma openai_answer_parsed_witness :
  let answer := Gateway.formatted_answer (lit " ") (lit "Start ")
                                         (lit "Explanation: N/A") in
  let o := Translation.mkOpenAI (Some (lit "key")) (Some (fun _ => Returned answer)) in
  Translation.openai_translate o Samples.qidong (lit "auto") (lit "en")
  = Translation.mkResult Samples.qidong (lit "Start") 0.95%Q (lit "zh")
                         (lit "en") [].
Proof.
  cbv zeta.
  refine (proj1 (openai_answer_parsed
                   (Translation.mkOpenAI (Some (lit "key"))
                      (Some (fun _ => Returned
                                        (Gateway.formatted_answer (lit " ")
                                           (lit "Start ") (lit "Explanation: N/A")))))
                   _ (lit "key") Samples.qidong (lit "auto") (lit "en") _
                   eq_refl eq_refl eq_refl)
                (lit " ") (lit "Start ") (lit "Explanation: N/A") eq_refl _ _);
    reflexivity.
Defined.

Section ConfidenceFacts.

Import Translation.

Lemma manager_translate_confidence (m : TranslationManager) (text src tgt : str)
      (ug : bool) (w : Glossary.world) :
  let res := fst (manager_translate m text src tgt ug w) in
  (glossary_matches res = [] /\ confidence res = 0.8%Q)
  \/ (glossary_matches res <> [] /\ confidence res = 0.95%Q).
Proof.
  cbv zeta. unfold manager_translate.
  destruct (ug && use_glossary_enabled (manager_config m)).
  - destruct (Glossary.lookup text w) as [[|best rest] w1]; cbn.
    + now left.
    + right. split; [discriminate|reflexivity].
  - cbn. now left.
Qed.

End ConfidenceFacts.

(** X10.  The confidence of what [translate] returns is 0.8 without a
    glossary match and 0.95 with one, so the coordinator's confidence
    threshold never holds a result of the manager back: such a result is
    shown exactly when its translated text differs from its original
    text. *)
Theorem manager_results_pass_threshold
        (m : Translation.TranslationManager) (text src tgt : str)
        (use_glossary : bool) (w : Glossary.world) :
  let res := fst (Translation.manager_translate m text src tgt use_glossary w) in
  ((Translation.glossary_matches res = [] /\ Translation.confidence res = 0.8%Q)
   \/ (Translation.glossary_matches res <> []
       /\ Translation.confidence res = 0.95%Q))
  /\ Coordinator.worth_showing res
     = negb (PyStr.eqb (Translation.translated_text res) text).
Proof.
  cbv zeta.
  pose proof (manager_translate_confidence m text src tgt use_glossary w) as Hc.
  pose proof (manager_translate_original m text src tgt use_glossary w) as Ho.
  cbv zeta in Hc. split; [exact Hc|].
  unfold Coordinator.worth_showing. rewrite Ho.
  destruct Hc as [[_ ->]|[_ ->]]; now rewrite andb_true_r.
Qed.

(** X11.  When the glossary has nothing for a text and no back end answers,
    the result is shown exactly when post-processing changes the text: a
    text in which none of the six phrases occurs is never shown, so that
    nothing reaches the overlay for it. *)
Theorem unanswered_text_not_shown
        (m : Translation.TranslationManager) (text src tgt : str)
        (use_glossary : bool) (w : Glossary.world) :
  fst (Glossary.lookup text w) = [] ->
  Translation.no_backend_answer m text src tgt ->
  let res := fst (Translation.manager_translate m text src tgt use_glossary w) in
  Coordinator.worth_showing res
  = negb (PyStr.eqb (Translation.post_process_translation text text) text)
  /\ (Translation.plain text = true -> Coordinator.worth_showing res = false).
Proof.
  intros Hmiss Hfail. cbv zeta.
  assert (Hfb : match Translation.primary_engine m with
                | Some e => Translation.translated_text
                              (Translation.engine_translate e text src tgt)
                | None => text
                end = text).
  { unfold Translation.no_backend_answer in Hfail.
    destruct (Translation.primary_engine m); [now rewrite Hfail|reflexivity]. }
  assert (Hw : Coordinator.worth_showing
                 (fst (Translation.manager_translate m text src tgt use_glossary w))
               = negb (PyStr.eqb (Translation.post_process_translation text text)
                                 text)).
  { unfold Translation.manager_translate, Coordinator.worth_showing.
    destruct (use_glossary
              && Translation.use_glossary_enabled (Translation.manager_config m)).
    - destruct (Glossary.lookup text w) as [hits w1]. cbn [fst] in Hmiss.
      subst hits. cbn. rewrite Hfb. now rewrite andb_true_r.
    - cbn. rewrite Hfb. now rewrite andb_true_r. }
  split; [exact Hw|].
  intros Hp. rewrite Hw, (post_process_plain text text Hp).
  now rewrite str_eqb_refl.
Qed.

(** The unknown word, the seeded glossary, google unreachable. *)
Lemma unanswered_text_not_shown_witness :
  Coordinator.worth_showing
    (fst (Translation.manager_translate Samples.unreachable_manager
            Samples.weizhicihui (lit "auto") (lit "en") true
            Samples.seeded_world)) = false.
Proof.
  refine (proj2 (unanswered_text_not_shown Samples.unreachable_manager
                   Samples.weizhicihui (lit "auto") (lit "en") true
                   Samples.seeded_world _ _) _).
  - vm_compute. reflexivity.
  - unfold Translation.no_backend_answer. simpl.
    apply google_failure_result. unfold Translation.google_fails. simpl.
    reflexivity.
  - vm_compute. reflexivity.
Defined.

(** ** The capture loop over many ticks *)

Section LoopFacts.

Variables Frame WindowInfo ScreenRegion Item App : Type.
Variable size : Frame -> N.
Variable gray_hash : Frame -> outcome Z.

Local Abbreviation monitor := (Capture.monitor Frame WindowInfo ScreenRegion Item App).
Local Abbreviation tick := (Capture.tick Frame WindowInfo ScreenRegion).
Local Abbreviation loop_state := (Capture.loop_state Frame Item App).
Local Abbreviation iteration := (Capture.iteration size gray_hash).
Local Abbreviation loop_from := (Capture.monitor_loop_from size gray_hash).
Local Abbreviation image_hash := (Capture.calculate_image_hash gray_hash).

(** While the stored fingerprint is the one of every frame, nothing is
    called. *)
Lemma loop_skips_stored (m : monitor) (ticks : list tick) (st : loop_state)
      (h : Z) :
  Capture.previous_hash st = Some h ->
  Forall (fun t => image_hash (Capture.capture m t) = h) ticks ->
  Capture.ocr_calls (loop_from m ticks st) = Capture.ocr_calls st.
Proof.
  revert st. induction ticks as [|t ticks IH]; intros st Hp Hall; [reflexivity|].
  apply Forall_cons_iff in Hall as [Ht Hts].
  cbn [Capture.monitor_loop_from].
  destruct (Capture.is_monitoring t); [|reflexivity].
  assert (Hp' : Capture.previous_hash st
                = Some (image_hash (Capture.capture m t))) by (now rewrite Ht).
  destruct (iteration_skip _ _ _ _ _ size gray_hash m t st Hp')
    as (Ho & _ & _ & Hh).
  rewrite (IH (iteration m t st)); [exact Ho | | exact Hts].
  rewrite Hh. exact Hp.
Qed.

Lemma loop_one_call (m : monitor) (ticks : list tick) (st : loop_state) (h : Z) :
  Forall (fun t => image_hash (Capture.capture m t) = h) ticks ->
  (Capture.ocr_calls (loop_from m ticks st) <= Capture.ocr_calls st + 1)%nat.
Proof.
  revert st. induction ticks as [|t ticks IH]; intros st Hall; [simpl; lia|].
  apply Forall_cons_iff in Hall as [Ht Hts].
  cbn [Capture.monitor_loop_from].
  destruct (Capture.is_monitoring t); [|lia].
  destruct (iteration_hash _ _ _ _ _ size gray_hash m t st) as [[_ Hsame]|Hacc].
  - specialize (IH (iteration m t st) Hts). lia.
  - rewrite Ht in Hacc.
    rewrite (loop_skips_stored m ticks (iteration m t st) h Hacc Hts).
    apply iteration_ocr_calls.
Qed.

Lemma iteration_too_early (m : monitor) (t : tick) (st : loop_state) :
  LoopTrace.too_early m st t ->
  iteration m t st
  = Capture.mkLoop (Capture.last_capture_time st) (Capture.previous_hash st)
                   (Capture.app st) (Capture.Slept Frame Item 0.1%Q :: Capture.trace st).
Proof.
  unfold LoopTrace.too_early, Capture.iteration. now intros ->.
Qed.

Lemma loop_too_early (m : monitor) (ticks : list tick) (st : loop_state) :
  Forall (LoopTrace.too_early m st) ticks ->
  let st' := loop_from m ticks st in
  Capture.ocr_calls st' = Capture.ocr_calls st
  /\ Capture.translation_calls st' = Capture.translation_calls st
  /\ Capture.app st' = Capture.app st
  /\ Capture.previous_hash st' = Capture.previous_hash st
  /\ Capture.last_capture_time st' = Capture.last_capture_time st.
Proof.
  cbv zeta. revert st. induction ticks as [|t ticks IH]; intros st Hall;
    [now repeat split|].
  apply Forall_cons_iff in Hall as [Ht Hts].
  cbn [Capture.monitor_loop_from].
  destruct (Capture.is_monitoring t); [|now repeat split].
  rewrite (iteration_too_early m t st Ht).
  set (st1 := Capture.mkLoop _ _ _ _).
  assert (Hts1 : Forall (LoopTrace.too_early m st1) ticks) by exact Hts.
  destruct (IH st1 Hts1) as (H1 & H2 & H3 & H4 & H5).
  rewrite H1, H2, H3, H4, H5. now repeat split.
Qed.

(** The counts of calls and the non-empty results, over one iteration. *)
Lemma iteration_counts (m : monitor) (t : tick) (st : loop_state) :
  (Capture.translation_calls st <= Capture.ocr_calls st)%nat ->
  Forall LoopTrace.on_results (Capture.trace st) ->
  (Capture.translation_calls (iteration m t st)
   <= Capture.ocr_calls (iteration m t st))%nat
  /\ Forall LoopTrace.on_results (Capture.trace (iteration m t st)).
Proof.
  intros Hle Hres. unfold Capture.iteration.
  unfold Capture.translation_calls, Capture.ocr_calls in *.
  destruct (Qlt_bool _ _); [split; [exact Hle | now constructor]|].
  destruct (N.eqb _ 0); [now split|].
  destruct (Capture.same_hash _ _); [now split|].
  destruct (Capture.ocr_callback m) as [ocr|]; [|now split].
  destruct (ocr _ _) as [[rs|] a1].
  - destruct rs as [|x rs].
    + cbn. split; [lia | now constructor].
    + destruct (Capture.translation_callback m) as [tr|].
      * destruct (tr _ _) as [[u|] a2]; cbn; split; try lia;
          repeat constructor; try exact Hres; discriminate.
      * cbn. split; [lia | now constructor].
  - cbn. split; [lia | now repeat constructor].
Qed.

End LoopFacts.

(** X12.  However many ticks show frames with one and the same fingerprint,
    the loop calls the OCR callback at most once over all of them. *)
Theorem equal_fingerprints_one_call
        (Frame WindowInfo ScreenRegion Item App : Type)
        (size : Frame -> N) (gray_hash : Frame -> outcome Z)
        (m : Capture.monitor Frame WindowInfo ScreenRegion Item App)
        (ticks : list (Capture.tick Frame WindowInfo ScreenRegion))
        (st : Capture.loop_state Frame Item App) (h : Z) :
  Forall (fun t => Capture.calculate_image_hash gray_hash (Capture.capture m t) = h)
         ticks ->
  (Capture.ocr_calls (Capture.monitor_loop_from size gray_hash m ticks st)
   <= Capture.ocr_calls st + 1)%nat.
Proof. apply loop_one_call. Qed.

(** Frames 7, 9 and 7 again, under a fingerprint that is the same for
    all. *)
Lemma equal_fingerprints_one_call_witness :
  (Capture.ocr_calls
     (Capture.monitor_loop (fun _ : N => 1024%N) (fun _ : N => Returned 42%Z)
        Samples.counting_monitor
        [Samples.first_tick; Samples.second_tick;
         Capture.mkTick true 12%Q (Samples.showing 7)] 0%nat)
   <= 1)%nat.
Proof.
  apply (equal_fingerprints_one_call N unit unit nat nat (fun _ => 1024%N)
           (fun _ => Returned 42%Z) Samples.counting_monitor
           [Samples.first_tick; Samples.second_tick;
            Capture.mkTick true 12%Q (Samples.showing 7)]
           (Capture.initial N nat 0%nat) 42%Z).
  repeat constructor.
Defined.

(** X13.  Ticks that come before the frame interval has elapsed since the
    last accepted capture only sleep: no callback is called, and the
    application state, the stored fingerprint and the time of the last
    accepted capture stay as they are, whatever the screen shows. *)
Theorem rate_limit
        (Frame WindowInfo ScreenRegion Item App : Type)
        (size : Frame -> N) (gray_hash : Frame -> outcome Z)
        (m : Capture.monitor Frame WindowInfo ScreenRegion Item App)
        (ticks : list (Capture.tick Frame WindowInfo ScreenRegion))
        (st : Capture.loop_state Frame Item App) :
  Forall (LoopTrace.too_early m st) ticks ->
  let st' := Capture.monitor_loop_from size gray_hash m ticks st in
  Capture.ocr_calls st' = Capture.ocr_calls st
  /\ Capture.translation_calls st' = Capture.translation_calls st
  /\ Capture.app st' = Capture.app st
  /\ Capture.previous_hash st' = Capture.previous_hash st
  /\ Capture.last_capture_time st' = Capture.last_capture_time st.
Proof. apply loop_too_early. Qed.

(** Frame 7 accepted at second 10, then other frames 0.1 and 0.3 seconds
    later, at two frames a second. *)
Lemma rate_limit_witness :
  let size := fun _ : N => 1024%N in
  let gray_hash := fun f : N => Returned (Z.of_N f) in
  let st := Capture.iteration size gray_hash Samples.counting_monitor
                              Samples.first_tick (Capture.initial N nat 0%nat) in
  let st' := Capture.monitor_loop_from size gray_hash Samples.counting_monitor
               [ Capture.mkTick true 10.1%Q (Samples.showing 8);
                 Capture.mkTick true 10.3%Q (Samples.showing 9) ] st in
  Capture.ocr_calls st = 1%nat
  /\ Capture.ocr_calls st' = Capture.ocr_calls st
  /\ Capture.app st' = Capture.app st.
Proof.
  cbv zeta. split; [reflexivity|].
  pose proof (rate_limit N unit unit nat nat (fun _ => 1024%N)
                (fun f => Returned (Z.of_N f)) Samples.counting_monitor
                [ Capture.mkTick true 10.1%Q (Samples.showing 8);
                  Capture.mkTick true 10.3%Q (Samples.showing 9) ]
                (Capture.iteration (fun _ => 1024%N) (fun f => Returned (Z.of_N f))
                   Samples.counting_monitor Samples.first_tick
                   (Capture.initial N nat 0%nat))) as H.
  cbv zeta in H. destruct H as (H1 & _ & H3 & _).
  - repeat constructor.
  - split; assumption.
Defined.

(** X14.  A frame that is not empty, comes after the frame interval and has
    a fingerprint other than the stored one is handed to the OCR callback,
    exactly once, and its fingerprint and time are stored, whether the
    callback returns or raises. *)
Theorem changed_frame_is_processed
        (Frame WindowInfo ScreenRegion Item App : Type)
        (size : Frame -> N) (gray_hash : Frame -> outcome Z)
        (m : Capture.monitor Frame WindowInfo ScreenRegion Item App)
        (ocr : Frame -> App -> outcome (list Item) * App)
        (t : Capture.tick Frame WindowInfo ScreenRegion)
        (st : Capture.loop_state Frame Item App) :
  Capture.ocr_callback m = Some ocr ->
  Capture.fingerprinted size m t st ->
  Capture.same_hash
    (Capture.calculate_image_hash gray_hash (Capture.capture m t))
    (Capture.previous_hash st) = false ->
  let st' := Capture.iteration size gray_hash m t st in
  Capture.ocr_calls st' = (Capture.ocr_calls st + 1)%nat
  /\ In (Capture.OcrCalled Item (Capture.capture m t)) (Capture.trace st')
  /\ Capture.previous_hash st'
     = Some (Capture.calculate_image_hash gray_hash (Capture.capture m t))
  /\ Capture.last_capture_time st' = Capture.now t.
Proof.
  intros Hocr [Hgate Hsize] Hdiff. cbv zeta.
  unfold Capture.iteration, Capture.ocr_calls.
  rewrite Hgate. apply N.eqb_neq in Hsize. rewrite Hsize, Hdiff, Hocr.
  destruct (ocr _ _) as [[rs|] a1].
  - destruct rs as [|x rs].
    + cbn. repeat split; try lia. now left.
    + destruct (Capture.translation_callback m) as [tr|].
      * destruct (tr _ _) as [[u|] a2]; cbn; repeat split; try lia; tauto.
      * cbn. repeat split; try lia. now left.
  - cbn. repeat split; try lia. tauto.
Qed.

(** The first frame of a run: nothing is stored yet. *)
Lemma changed_frame_is_processed_witness :
  let st' := Capture.iteration (fun _ : N => 1024%N) (fun _ : N => @Raised Z)
               Samples.counting_monitor Samples.first_tick
               (Capture.initial N nat 0%nat) in
  Capture.ocr_calls st' = 1%nat
  /\ In (Capture.OcrCalled nat 7%N) (Capture.trace st')
  /\ Capture.previous_hash st' = Some 0%Z
  /\ Capture.last_capture_time st' = 10%Q.
Proof.
  cbv zeta.
  refine (changed_frame_is_processed N unit unit nat nat (fun _ => 1024%N)
            (fun _ => Raised) Samples.counting_monitor _ Samples.first_tick
            (Capture.initial N nat 0%nat) eq_refl _ eq_refl).
  split; [reflexivity | discriminate].
Defined.

(** X15.  A frame on which the OCR callback raised is not tried again: the
    loop logs the error and sleeps a second, and as long as the screen
    keeps that fingerprint no callback is called for it. *)
Theorem failed_frame_not_retried
        (Frame WindowInfo ScreenRegion Item App : Type)
        (size : Frame -> N) (gray_hash : Frame -> outcome Z)
        (m : Capture.monitor Frame WindowInfo ScreenRegion Item App)
        (ocr : Frame -> App -> outcome (list Item) * App)
        (t : Capture.tick Frame WindowInfo ScreenRegion)
        (later : list (Capture.tick Frame WindowInfo ScreenRegion))
        (st : Capture.loop_state Frame Item App) :
  Capture.ocr_callback m = Some ocr ->
  Capture.fingerprinted size m t st ->
  Capture.same_hash
    (Capture.calculate_image_hash gray_hash (Capture.capture m t))
    (Capture.previous_hash st) = false ->
  fst (ocr (Capture.capture m t) (Capture.app st)) = Raised ->
  Forall (fun t' => Capture.calculate_image_hash gray_hash (Capture.capture m t')
                    = Capture.calculate_image_hash gray_hash (Capture.capture m t))
         later ->
  let st1 := Capture.iteration size gray_hash m t st in
  Capture.trace st1
  = Capture.Slept Frame Item 1.0%Q :: Capture.ErrorLogged Frame Item
    :: Capture.OcrCalled Item (Capture.capture m t) :: Capture.trace st
  /\ Capture.ocr_calls (Capture.monitor_loop_from size gray_hash m later st1)
     = Capture.ocr_calls st1.
Proof.
  intros Hocr Hfp Hdiff Hraise Hlater. cbv zeta.
  assert (Hh : Capture.previous_hash (Capture.iteration size gray_hash m t st)
               = Some (Capture.calculate_image_hash gray_hash
                         (Capture.capture m t)))
    by (now apply fingerprinted_hash).
  split.
  - destruct Hfp as [Hgate Hsize]. unfold Capture.iteration.
    rewrite Hgate. apply N.eqb_neq in Hsize. rewrite Hsize, Hdiff, Hocr.
    cbn [Capture.app]. destruct (ocr _ _) as [[rs|] a1]; [discriminate|].
    reflexivity.
  - now apply (loop_skips_stored _ _ _ _ _ size gray_hash m later _ _ Hh).
Qed.

(** An OCR callback that always raises, frame 7 at seconds 10, 11 and
    12. *)
Lemma failed_frame_not_retried_witness :
  let m := Capture.mkMonitor
             (Some (fun (_ : N) (calls : nat) => (@Raised (list nat), S calls)))
             (@None (list nat -> nat -> outcome unit * nat))
             (@None unit) (@nil unit) (1.0 / 2)%Q in
  let run := Capture.monitor_loop (fun _ : N => 1024%N)
               (fun f : N => Returned (Z.of_N f)) m
               [ Samples.first_tick;
                 Capture.mkTick true 11%Q (Samples.showing 7);
                 Capture.mkTick true 12%Q (Samples.showing 7) ] 0%nat in
  Capture.ocr_calls run = 1%nat /\ Capture.app run = 1%nat.
Proof.
  cbv zeta.
  pose proof (failed_frame_not_retried N unit unit nat nat (fun _ => 1024%N)
                (fun f => Returned (Z.of_N f))
                (Capture.mkMonitor
                   (Some (fun (_ : N) (calls : nat) => (@Raised (list nat), S calls)))
                   None None [] (1.0 / 2)%Q)
                _ Samples.first_tick
                [ Capture.mkTick true 11%Q (Samples.showing 7);
                  Capture.mkTick true 12%Q (Samples.showing 7) ]
                (Capture.initial N nat 0%nat) eq_refl) as H.
  cbv zeta in H. destruct H as [_ H].
  - split; [reflexivity | discriminate].
  - reflexivity.
  - reflexivity.
  - repeat constructor.
  - split; [|reflexivity]. unfold Capture.monitor_loop.
    cbn [Capture.monitor_loop_from Capture.is_monitoring Samples.first_tick].
    exact H.
Defined.

(** X16.  The loop never calls the translation callback without OCR results
    and never more often than the OCR callback, and it calls the OCR
    callback at most once per tick. *)
Theorem loop_call_counts
        (Frame WindowInfo ScreenRegion Item App : Type)
        (size : Frame -> N) (gray_hash : Frame -> outcome Z)
        (m : Capture.monitor Frame WindowInfo ScreenRegion Item App)
        (ticks : list (Capture.tick Frame WindowInfo ScreenRegion))
        (a : App) :
  let st := Capture.monitor_loop size gray_hash m ticks a in
  (Capture.translation_calls st <= Capture.ocr_calls st)%nat
  /\ (Capture.ocr_calls st <= List.length ticks)%nat
  /\ Forall LoopTrace.on_results (Capture.trace st).
Proof.
  cbv zeta. unfold Capture.monitor_loop.
  assert (Hgen : forall st0 : Capture.loop_state Frame Item App,
             (Capture.translation_calls st0 <= Capture.ocr_calls st0)%nat ->
             Forall LoopTrace.on_results (Capture.trace st0) ->
             let st := Capture.monitor_loop_from size gray_hash m ticks st0 in
             (Capture.translation_calls st <= Capture.ocr_calls st)%nat
             /\ (Capture.ocr_calls st
                 <= Capture.ocr_calls st0 + List.length ticks)%nat
             /\ Forall LoopTrace.on_results (Capture.trace st)).
  { induction ticks as [|t ticks IH]; intros st0 Hle Hres; cbv zeta.
    - cbn. repeat split; trivial. lia.
    - cbn [Capture.monitor_loop_from List.length].
      destruct (Capture.is_monitoring t); [|repeat split; trivial; lia].
      destruct (iteration_counts _ _ _ _ _ size gray_hash m t st0 Hle Hres)
        as [Hle1 Hres1].
      destruct (IH _ Hle1 Hres1) as (H1 & H2 & H3).
      pose proof (iteration_ocr_calls _ _ _ _ _ size gray_hash m t st0).
      repeat split; trivial. lia. }
  destruct (Hgen (Capture.initial Frame Item a)) as (H1 & H2 & H3).
  - cbn. lia.
  - constructor.
  - repeat split; trivial.
Qed.

(** ** The coordinator's counters and recent list *)

Section CounterFacts.

Import Coordinator.

Lemma valid_pairs_length (os : list OCRResult)
      (ts : list Translation.TranslationResult) :
  (List.length (valid_pairs os ts) <= List.length os)%nat.
Proof.
  unfold valid_pairs.
  pose proof (filter_length_le (fun p => worth_showing (snd p)) (combine os ts)).
  rewrite length_combine in H. lia.
Qed.

Lemma firstn_cons_firstn {A : Type} (n : nat) (x : A) (l : list A) :
  firstn (S n) (x :: firstn (S n) l) = firstn (S n) (x :: l).
Proof.
  rewrite !firstn_cons. f_equal. rewrite firstn_firstn. f_equal. lia.
Qed.

(** Adding one after the other keeps the newest twenty, newest first. *)
Lemma recent_fold (new : list Translation.TranslationResult)
      (recent : list (str * str)) :
  fold_left (fun acc t =>
               add_recent_translation (Translation.original_text t)
                                      (Translation.translated_text t) acc)
            new (firstn 20 recent)
  = firstn 20
      (rev (map (fun t => (Translation.original_text t,
                           Translation.translated_text t)) new)
       ++ recent).
Proof.
  revert recent. induction new as [|t new IH]; intros recent; [reflexivity|].
  cbn [fold_left map rev]. unfold add_recent_translation at 2.
  rewrite firstn_cons_firstn, IH, <- app_assoc. reflexivity.
Qed.

Lemma recent_after (new : list Translation.TranslationResult)
      (recent : list (str * str)) :
  fold_left (fun acc t =>
               add_recent_translation (Translation.original_text t)
                                      (Translation.translated_text t) acc)
            new recent
  = match new with
    | [] => recent
    | _ :: _ =>
        firstn 20
          (rev (map (fun t => (Translation.original_text t,
                               Translation.translated_text t)) new)
           ++ recent)
    end.
Proof.
  destruct new as [|t new]; [reflexivity|].
  cbn [fold_left]. unfold add_recent_translation at 2.
  rewrite recent_fold. cbn [map rev]. now rewrite <- app_assoc.
Qed.

Lemma process_ocr_counts (Frame : Type)
      (detect_text : Frame -> outcome (list OCRResult)) (cfg : option Z)
      (image : Frame) (st : state) :
  let r := process_ocr detect_text cfg image st in
  texts_detected (snd r)
  = (texts_detected st + N.of_nat (List.length (fst r)))%N
  /\ texts_translated (snd r) = texts_translated st
  /\ recent_translations (snd r) = recent_translations st.
Proof.
  cbv zeta. unfold process_ocr.
  destruct (detect_text image); cbn; repeat split; lia.
Qed.

Lemma process_translations_counts (tm : Translation.TranslationManager)
      (os : list OCRResult) (st : state) :
  let st' := process_translations tm os st in
  texts_detected st' = texts_detected st
  /\ (texts_translated st <= texts_translated st'
      <= texts_translated st + N.of_nat (List.length os))%N
  /\ ((List.length (recent_translations st) <= 20)%nat ->
      (List.length (recent_translations st') <= 20)%nat).
Proof.
  cbv zeta. unfold process_translations.
  destruct os as [|o os]; [repeat split; trivial; lia|].
  destruct (Translation.translate_batch tm _ _ _ _) as [ts w].
  cbn [texts_detected texts_translated recent_translations].
  pose proof (valid_pairs_length (o :: os) ts) as Hle.
  rewrite length_map. repeat split; try lia.
  intros Hr. rewrite recent_after.
  destruct (map snd (valid_pairs (o :: os) ts)); [exact Hr|].
  apply firstn_le_length.
Qed.

(** The invariant of the counters and the recent list. *)
Lemma pipeline_counts (Frame : Type)
      (detect_text : Frame -> outcome (list OCRResult)) (cfg : option Z)
      (tm : Translation.TranslationManager) (image : Frame) (st : state) :
  (texts_translated st <= texts_detected st)%N ->
  (List.length (recent_translations st) <= 20)%nat ->
  let r := process_ocr detect_text cfg image st in
  let st' := process_translations tm (fst r) (snd r) in
  (texts_translated (snd r) <= texts_detected (snd r))%N
  /\ (List.length (recent_translations (snd r)) <= 20)%nat
  /\ (texts_detected st <= texts_detected (snd r))%N
  /\ (texts_translated st' <= texts_detected st')%N
  /\ (List.length (recent_translations st') <= 20)%nat
  /\ (texts_detected st <= texts_detected st')%N
  /\ (texts_translated st <= texts_translated st')%N.
Proof.
  intros Hinv Hrec. cbv zeta.
  destruct (process_ocr_counts Frame detect_text cfg image st) as (Hd & Ht & Hr).
  destruct (process_translations_counts tm
              (fst (process_ocr detect_text cfg image st))
              (snd (process_ocr detect_text cfg image st))) as (Hd' & Ht' & Hr').
  rewrite Hr in Hr'. rewrite Hd', Hd. rewrite Ht in Ht'. rewrite Hr, Ht.
  repeat split; lia.
Qed.

End CounterFacts.

(** X17.  Through any run of the capture loop with the coordinator's
    callbacks, the number of texts translated never exceeds the number of
    texts detected, neither counter ever goes down, and the recent list
    never holds more than twenty entries. *)
Theorem coordinator_counters
        (Frame WindowInfo ScreenRegion : Type)
        (size : Frame -> N) (gray_hash : Frame -> outcome Z)
        (detect_text : Frame -> outcome (list Coordinator.OCRResult))
        (cfg_min_text_size : option Z)
        (tm : Translation.TranslationManager)
        (target : option WindowInfo) (regions : list ScreenRegion) (fps : Q)
        (ticks : list (Capture.tick Frame WindowInfo ScreenRegion))
        (st : Capture.loop_state Frame Coordinator.OCRResult Coordinator.state) :
  (Coordinator.texts_translated (Capture.app st)
   <= Coordinator.texts_detected (Capture.app st))%N ->
  (List.length (Coordinator.recent_translations (Capture.app st)) <= 20)%nat ->
  let a' := Capture.app
              (Capture.monitor_loop_from size gray_hash
                 (Coordinator.the_monitor detect_text cfg_min_text_size tm
                                          target regions fps)
                 ticks st) in
  (Coordinator.texts_translated a' <= Coordinator.texts_detected a')%N
  /\ (List.length (Coordinator.recent_translations a') <= 20)%nat
  /\ (Coordinator.texts_detected (Capture.app st)
      <= Coordinator.texts_detected a')%N
  /\ (Coordinator.texts_translated (Capture.app st)
      <= Coordinator.texts_translated a')%N.
Proof.
  cbv zeta. revert st.
  induction ticks as [|t ticks IH]; intros st Hinv Hrec;
    [cbn [Capture.monitor_loop_from]; repeat split; trivial; lia|].
  cbn [Capture.monitor_loop_from].
  destruct (Capture.is_monitoring t); [|repeat split; trivial; lia].
  set (m := Coordinator.the_monitor detect_text cfg_min_text_size tm
                                    target regions fps).
  assert (Hstep :
            let a1 := Capture.app (Capture.iteration size gray_hash m t st) in
            (Coordinator.texts_translated a1 <= Coordinator.texts_detected a1)%N
            /\ (List.length (Coordinator.recent_translations a1) <= 20)%nat
            /\ (Coordinator.texts_detected (Capture.app st)
                <= Coordinator.texts_detected a1)%N
            /\ (Coordinator.texts_translated (Capture.app st)
                <= Coordinator.texts_translated a1)%N).
  { cbv zeta. unfold Capture.iteration.
    destruct (Qlt_bool _ _);
      [cbn [Capture.app]; repeat split; trivial; lia|].
    destruct (N.eqb _ 0); [repeat split; trivial; lia|].
    destruct (Capture.same_hash _ _); [repeat split; trivial; lia|].
    subst m.
    cbn [Coordinator.the_monitor Capture.ocr_callback
         Capture.translation_callback Capture.app].
    unfold Coordinator.ocr_callback, Coordinator.translation_callback.
    set (image := Capture.capture _ t).
    pose proof (pipeline_counts Frame detect_text cfg_min_text_size tm image
                  (Capture.app st) Hinv Hrec) as Hp.
    cbv zeta in Hp.
    destruct (Coordinator.process_ocr detect_text cfg_min_text_size image
                (Capture.app st)) as [rs a1].
    cbn [fst snd] in Hp. destruct Hp as (H1 & H2 & H3 & H4 & H5 & H6 & H7).
    destruct rs as [|r rs]; cbn [Capture.app].
    - cbn [Coordinator.process_translations] in H7. repeat split; trivial.
    - repeat split; trivial. }
  cbv zeta in Hstep. destruct Hstep as (H1 & H2 & H3 & H4).
  destruct (IH _ H1 H2) as (K1 & K2 & K3 & K4).
  subst m. repeat split; trivial; lia.
Qed.

(** Two frames with three regions each through the loop of a coordinator
    that has just been started. *)
Lemma coordinator_counters_witness :
  let a' := Capture.app
              (Capture.monitor_loop (fun _ : N => 1024%N)
                 (fun f : N => Returned (Z.of_N f))
                 (Samples.app_monitor Samples.echo_manager)
                 [Samples.first_tick; Samples.second_tick]
                 Samples.start_state) in
  Coordinator.texts_detected a' = 4%N
  /\ (Coordinator.texts_translated a' <= Coordinator.texts_detected a')%N
  /\ (List.length (Coordinator.recent_translations a') <= 20)%nat.
Proof.
  cbv zeta. split; [vm_compute; reflexivity|].
  pose proof (coordinator_counters N unit unit (fun _ => 1024%N)
                (fun f => Returned (Z.of_N f)) Samples.three_regions None
                Samples.echo_manager None [] 2%Q
                [Samples.first_tick; Samples.second_tick]
                (Capture.initial N Coordinator.OCRResult Samples.start_state))
    as H.
  cbv zeta in H. destruct H as (H1 & H2 & _).
  - cbn. lia.
  - cbn. lia.
  - split; assumption.
Defined.

(** X18.  When [_process_translations] keeps at least one pair, the recent
    list afterwards is the kept pairs, last kept first, followed by the
    earlier entries, cut off after twenty; when it keeps none, the list is
    not touched. *)
Theorem recent_translations_newest_first
        (tm : Translation.TranslationManager)
        (ocr_results : list Coordinator.OCRResult) (st : Coordinator.state) :
  let kept :=
    map snd
        (Coordinator.valid_pairs ocr_results
           (fst (Translation.translate_batch tm
                   (map Coordinator.text ocr_results)
                   (lit "auto") (lit "en") (Coordinator.glossary st)))) in
  Coordinator.recent_translations
    (Coordinator.process_translations tm ocr_results st)
  = match kept with
    | [] => Coordinator.recent_translations st
    | _ :: _ =>
        firstn 20
          (rev (map (fun t => (Translation.original_text t,
                               Translation.translated_text t)) kept)
           ++ Coordinator.recent_translations st)
    end.
Proof.
  cbv zeta. unfold Coordinator.process_translations.
  destruct ocr_results as [|o os]; [reflexivity|].
  destruct (Translation.translate_batch tm _ _ _ _) as [ts w].
  cbn [Coordinator.recent_translations fst]. apply recent_after.
Qed.

(** ** Starting and stopping sessions *)

Section SessionFacts.

Variables WindowInfo ScreenRegion : Type.

Local Abbreviation translator := (Session.translator WindowInfo ScreenRegion).
Local Abbreviation command := (Session.command WindowInfo ScreenRegion).

Lemma start_monitoring_idle (tw : option WindowInfo)
      (rs : option (list ScreenRegion))
      (mo : Session.monitor_object WindowInfo ScreenRegion) :
  Session.is_monitoring mo = false ->
  Session.start_monitoring tw rs mo
  = Session.mkMonitorObject true tw (Session.regions_or_empty rs)
                            (S (Session.threads_started mo)).
Proof. unfold Session.start_monitoring. now intros ->. Qed.




Lemma obey_without_engine (c : command) (t : translator) :
  Session.ocr_ready t && Session.translation_ready t = false ->
  Session.translation_active t = false ->
  let t' := Session.obey c t in
  Session.ocr_ready t' && Session.translation_ready t' = false
  /\ Session.translation_active t' = false
  /\ Session.the_monitor t' = Session.the_monitor t
  /\ Session.sessions_count t' = Session.sessions_count t.
Proof.
  intros He Ha. cbv zeta. destruct c as [| | |w|r]; cbn [Session.obey];
    unfold Session.toggle_translation, Session.start_translation,
           Session.stop_translation, Session.set_target_window,
           Session.add_monitor_region; rewrite ?Ha.
  - destruct (Session.ocr_ready t) eqn:Eo; cbn [negb];
      [|cbn; rewrite Eo; now repeat split].
    destruct (Session.translation_ready t) eqn:Et; [discriminate|].
    cbn. rewrite Eo, Et. now repeat split.
  - now repeat split.
  - destruct (Session.ocr_ready t) eqn:Eo; cbn [negb];
      [|cbn; rewrite Eo; now repeat split].
    destruct (Session.translation_ready t) eqn:Et; [discriminate|].
    cbn. rewrite Eo, Et. now repeat split.
  - cbn. now repeat split.
  - cbn. now repeat split.
Qed.

(** A start that goes through. *)
Lemma start_fresh (t : translator) :
  Session.ocr_ready t = true ->
  Session.translation_ready t = true ->
  Session.translation_active t = false ->
  Session.is_monitoring (Session.the_monitor t) = false ->
  Session.app_monitor_regions (Session.start_translation t)
  = Session.app_monitor_regions t
  /\ Session.the_monitor (Session.start_translation t)
     = (if PyStr.eqb (Session.current_mode t) (lit "app")
           && Session.is_some (Session.app_target_window t)
        then Session.mkMonitorObject true (Session.app_target_window t)
               (Session.Own []) (S (Session.threads_started (Session.the_monitor t)))
        else if PyStr.eqb (Session.current_mode t) (lit "region")
                && Session.nonempty (Session.app_monitor_regions t)
             then Session.mkMonitorObject true None (Session.OfCaller ScreenRegion)
                    (S (Session.threads_started (Session.the_monitor t)))
             else Session.mkMonitorObject true None (Session.Own [])
                    (S (Session.threads_started (Session.the_monitor t)))).
Proof.
  intros Ho Ht Ha Hm. unfold Session.start_translation.
  rewrite Ha, Ho, Ht. cbn [negb Session.app_monitor_regions Session.the_monitor].
  split; [reflexivity|].
  destruct (_ && _); [|destruct (_ && _) eqn:E];
    rewrite (start_monitoring_idle _ _ _ Hm); try reflexivity.
  apply andb_true_iff in E as [_ E].
  unfold Session.regions_or_empty.
  now destruct (Session.app_monitor_regions t).
Qed.

End SessionFacts.



(** X20.  Without an OCR engine or without a translation engine no session
    ever starts: whatever is asked, the session stays inactive, the
    monitor is not touched and no session is counted. *)
Theorem no_session_without_engines
        (WindowInfo ScreenRegion : Type)
        (cs : list (Session.command WindowInfo ScreenRegion))
        (t : Session.translator WindowInfo ScreenRegion) :
  Session.ocr_ready t && Session.translation_ready t = false ->
  Session.translation_active t = false ->
  let t' := Session.obey_all cs t in
  Session.translation_active t' = false
  /\ Session.the_monitor t' = Session.the_monitor t
  /\ Session.sessions_count t' = Session.sessions_count t.
Proof.
  cbv zeta. revert t. induction cs as [|c cs IH]; intros t He Ha;
    [now repeat split|].
  cbn [Session.obey_all fold_left].
  destruct (obey_without_engine _ _ c t He Ha) as (He1 & Ha1 & Hm1 & Hc1).
  destruct (IH _ He1 Ha1) as (H1 & H2 & H3).
  rewrite <- Hm1, <- Hc1. now repeat split.
Qed.

(** No translation engine: a window is chosen and the session toggled. *)
Lemma no_session_without_engines_witness :
  let t := Session.new_translator nat nat true false (lit "app") in
  let t' := Session.obey_all
              [ Session.SetTargetWindow nat 5%nat; Session.Toggle nat nat;
                Session.Start nat nat ] t in
  Session.translation_active t' = false
  /\ Session.the_monitor t' = Session.the_monitor t
  /\ Session.sessions_count t' = Session.sessions_count t.
Proof.
  cbv zeta. apply no_session_without_engines; reflexivity.
Defined.

(** X21.  What a new session watches is decided by what was asked for
    last.  Started after a window was chosen, it captures that window.
    Started after a region was added, it captures the region that was
    added first, not the one added last; regions added while it runs reach
    the running monitor, which goes on capturing the first. *)
Theorem session_target
        (WindowInfo ScreenRegion Frame Item App : Type)
        (ocr : option (Frame -> App -> outcome (list Item) * App))
        (translate : option (list Item -> App -> outcome unit * App))
        (frame_interval : Q)
        (t : Session.translator WindowInfo ScreenRegion)
        (tick : Capture.tick Frame WindowInfo ScreenRegion) :
  Session.ocr_ready t = true ->
  Session.translation_ready t = true ->
  Session.translation_active t = false ->
  Session.is_monitoring (Session.the_monitor t) = false ->
  (forall w,
      let t1 := Session.obey_all
                  [Session.SetTargetWindow ScreenRegion w;
                   Session.Start WindowInfo ScreenRegion] t in
      Capture.capture
        (Session.loop_monitor ocr translate frame_interval t1) tick
      = Capture.capture_window (Capture.screen_now tick) w)
  /\ (forall r later,
         let t1 := Session.obey_all
                     [Session.AddMonitorRegion WindowInfo r;
                      Session.Start WindowInfo ScreenRegion] t in
         let t2 := Session.obey_all
                     (map (@Session.AddMonitorRegion WindowInfo ScreenRegion) later) t1 in
         let first := hd r (Session.app_monitor_regions t) in
         Capture.capture
           (Session.loop_monitor ocr translate frame_interval t1) tick
         = Capture.capture_region (Capture.screen_now tick) first
         /\ Session.watched_regions t2
            = Session.app_monitor_regions t ++ r :: later
         /\ Capture.capture
              (Session.loop_monitor ocr translate frame_interval t2) tick
            = Capture.capture_region (Capture.screen_now tick) first).
Proof.
  intros Ho Ht Ha Hm. split.
  - intros w. cbv zeta.
    cbn [Session.obey_all fold_left Session.obey].
    destruct (start_fresh _ _ (Session.set_target_window w t) Ho Ht Ha Hm)
      as [_ Hmon].
    unfold Capture.capture, Session.loop_monitor.
    cbn [Capture.target_window Capture.monitor_regions].
    rewrite Hmon. reflexivity.
  - intros r later. cbv zeta.
    assert (Hadd : forall rs (u : Session.translator WindowInfo ScreenRegion),
               let u' := Session.obey_all
                           (map (@Session.AddMonitorRegion WindowInfo ScreenRegion) rs) u in
               Session.app_monitor_regions u'
               = Session.app_monitor_regions u ++ rs
               /\ Session.the_monitor u' = Session.the_monitor u).
    { induction rs as [|x rs IH]; intros u; cbv zeta.
      - cbn. now rewrite app_nil_r.
      - cbn [map Session.obey_all fold_left Session.obey].
        destruct (IH (Session.add_monitor_region x u)) as [H1 H2].
        unfold Session.obey_all in H1, H2. rewrite H1, H2. cbn.
        now rewrite <- app_assoc. }
    set (t1 := Session.obey_all
                 [Session.AddMonitorRegion WindowInfo r;
                  Session.Start WindowInfo ScreenRegion] t).
    assert (H1 : Session.the_monitor t1
                 = Session.mkMonitorObject true None
                     (Session.OfCaller ScreenRegion)
                     (S (Session.threads_started (Session.the_monitor t)))
                 /\ Session.app_monitor_regions t1
                    = Session.app_monitor_regions t ++ [r]).
    { subst t1. cbn [Session.obey_all fold_left Session.obey].
      destruct (start_fresh _ _ (Session.add_monitor_region r t) Ho Ht Ha Hm)
        as [Hregs Hmon].
      rewrite Hregs, Hmon. cbn [Session.add_monitor_region Session.current_mode
        Session.app_target_window Session.app_monitor_regions Session.the_monitor].
      change (PyStr.eqb (lit "region") (lit "app")) with false.
      change (PyStr.eqb (lit "region") (lit "region")) with true.
      cbn [andb].
      assert (Hne : Session.nonempty (Session.app_monitor_regions t ++ [r]) = true)
        by (now destruct (Session.app_monitor_regions t)).
      rewrite Hne. now split. }
    destruct H1 as [Hmon Hregs].
    assert (Hfirst : forall l,
               hd r (Session.app_monitor_regions t)
               = hd r ((Session.app_monitor_regions t ++ [r]) ++ l)).
    { intros l. now destruct (Session.app_monitor_regions t). }
    assert (Hcap : forall u : Session.translator WindowInfo ScreenRegion,
               Session.the_monitor u = Session.the_monitor t1 ->
               forall l, Session.app_monitor_regions u
                         = (Session.app_monitor_regions t ++ [r]) ++ l ->
               Capture.capture
                 (Session.loop_monitor ocr translate frame_interval u) tick
               = Capture.capture_region (Capture.screen_now tick)
                   (hd r (Session.app_monitor_regions t))).
    { intros u Hu l Hl. unfold Capture.capture, Session.loop_monitor.
      cbn [Capture.target_window Capture.monitor_regions].
      unfold Session.watched_regions. rewrite Hu, Hmon.
      cbn [Session.target_window Session.monitor_regions]. rewrite Hl.
      rewrite (Hfirst l).
      destruct ((Session.app_monitor_regions t ++ [r]) ++ l) eqn:E;
        [destruct (Session.app_monitor_regions t); discriminate|].
      reflexivity. }
    destruct (Hadd later t1) as [Hl2 Hm2].
    split; [|split].
    + apply (Hcap t1 eq_refl []). now rewrite app_nil_r.
    + unfold Session.watched_regions. rewrite Hm2, Hmon.
      cbn [Session.monitor_regions].
      rewrite Hl2, Hregs, <- app_assoc. reflexivity.
    + apply (Hcap _ Hm2 later). now rewrite Hl2, Hregs.
Qed.

(** Regions 1 and 2 are added before the session starts and region 3
    while it runs: region 1 is captured. *)
Lemma session_target_witness :
  let t := Session.new_translator nat nat true true (lit "app") in
  let t2 := Session.obey_all
              [ Session.AddMonitorRegion nat 1%nat;
                Session.AddMonitorRegion nat 2%nat; Session.Start nat nat;
                Session.AddMonitorRegion nat 3%nat ] t in
  let tick :=
    Capture.mkTick true 10%Q
      (Capture.mkScreen (fun w : nat => (0 + w)%nat)
                        (fun r : nat => (100 + r)%nat) 999%nat) in
  Session.watched_regions t2 = [1; 2; 3]%nat
  /\ Capture.capture
       (Session.loop_monitor (@None (nat -> unit -> outcome (list unit) * unit))
                             None 0.5%Q t2) tick = 101%nat.
Proof.
  cbv zeta.
  pose proof (session_target nat nat nat unit unit None None 0.5%Q
                (Session.obey_all [Session.AddMonitorRegion nat 1%nat]
                   (Session.new_translator nat nat true true (lit "app")))
                (Capture.mkTick true 10%Q
                   (Capture.mkScreen (fun w : nat => (0 + w)%nat)
                                     (fun r : nat => (100 + r)%nat) 999%nat))
                eq_refl eq_refl eq_refl eq_refl) as [_ H].
  destruct (H 2%nat [3%nat]) as (_ & Hw & Hc).
  split; [exact Hw | exact Hc].
Defined.

(** ** Configuration paths *)

Section ConfigFacts.

Variable Leaf : Type.

Local Abbreviation value := (Config.value Leaf).

Lemma item_set_item (key : str) (v : value) (items : list (str * value)) :
  Config.item key (Config.set_item key v items) = Some v.
Proof.
  unfold Config.item, Config.set_item.
  induction items as [|[k v'] items IH]; cbn.
  - now rewrite str_eqb_refl.
  - destruct (PyStr.eqb k key) eqn:E; cbn; rewrite E; [reflexivity|exact IH].
Qed.


Lemma split_on_nonempty (sep : char) (s : str) : Config.split_on sep s <> [].
Proof.
  destruct s as [|c s]; cbn; [discriminate|].
  destruct (N.eqb c sep); [discriminate|].
  destruct (Config.split_on sep s); discriminate.
Qed.

Lemma assign_step (key key2 : str) (keys : list str) (v : value)
      (items : list (str * value)) :
  Config.assign (key :: key2 :: keys) v (Config.Mapping items)
  = match Config.assign (key2 :: keys) v
            (match Config.item key items with
             | Some c => c
             | None => Config.Mapping []
             end) with
    | Returned child' => Returned (Config.Mapping (Config.set_item key child' items))
    | Raised => Raised
    end.
Proof. reflexivity. Qed.

Lemma assign_descend (keys : list str) (v config config' : value) :
  Config.assign keys v config = Returned config' ->
  Config.descend keys config' = Some v.
Proof.
  revert config config'. induction keys as [|key keys IH]; intros config config'.
  - destruct config; discriminate.
  - destruct config as [a|items]; [discriminate|].
    destruct keys as [|key2 keys].
    + cbn. intros H. injection H as <-. cbn. now rewrite item_set_item.
    + rewrite assign_step.
      destruct (Config.assign (key2 :: keys) v _) as [child'|] eqn:E;
        [|discriminate].
      intros H. injection H as <-.
      cbn [Config.descend]. rewrite item_set_item. now apply (IH _ _ E).
Qed.

Lemma assign_raised (keys : list str) (v config : value) :
  keys <> [] ->
  Config.assign keys v config = Raised ->
  Config.descend keys config = None.
Proof.
  revert config. induction keys as [|key keys IH]; intros config Hne;
    [congruence|].
  destruct config as [a|items]; [reflexivity|].
  destruct keys as [|key2 keys]; [discriminate|].
  rewrite assign_step. cbn [Config.descend].
  destruct (Config.item key items) as [c|] eqn:Ei; [|reflexivity].
  destruct (Config.assign (key2 :: keys) v c) eqn:E; [discriminate|].
  intros _. apply IH; [discriminate|exact E].
Qed.




End ConfigFacts.

(** X22.  What [set] wrote under a dotted path, [get] reads back under
    that path.  When [set] raises (a value on the way is not a mapping),
    the path cannot be read either and [get] hands out its default. *)
Theorem config_get_after_set
        (Leaf : Type) (config : Config.value Leaf) (key_path : str)
        (v default : Config.value Leaf) :
  (forall config',
      Config.set config key_path v = Returned config' ->
      Config.get config' key_path default = v)
  /\ (Config.set config key_path v = Raised ->
      Config.get config key_path default = default).
Proof.
  unfold Config.set, Config.get. split.
  - intros config' H. now rewrite (assign_descend Leaf _ _ _ _ H).
  - intros H.
    now rewrite (assign_raised Leaf _ _ _ (split_on_nonempty _ _) H).
Qed.

(** 'ocr.confidence_threshold' set in a configuration that has no 'ocr'
    section, and in one where 'ocr' is a plain value. *)
Lemma config_get_after_set_witness :
  (exists config',
      Config.set (Config.Mapping []) (lit "ocr.confidence_threshold")
                 (Config.Scalar 7%nat) = Returned config'
      /\ Config.get config' (lit "ocr.confidence_threshold") (Config.Scalar 0%nat)
         = Config.Scalar 7%nat)
  /\ Config.get (Config.Mapping [(lit "ocr", Config.Scalar 1%nat)])
                (lit "ocr.confidence_threshold") (Config.Scalar 0%nat)
     = Config.Scalar 0%nat.
Proof.
  split.
  - eexists. split; [reflexivity|].
    apply (proj1 (config_get_after_set nat (Config.Mapping [])
                    (lit "ocr.confidence_threshold") (Config.Scalar 7%nat)
                    (Config.Scalar 0%nat))).
    reflexivity.
  - apply (proj2 (config_get_after_set nat
                    (Config.Mapping [(lit "ocr", Config.Scalar 1%nat)])
                    (lit "ocr.confidence_threshold") (Config.Scalar 7%nat)
                    (Config.Scalar 0%nat))).
    reflexivity.
Defined.



(* ------------------------------------------------------------------ *)
(** ** GlossaryLoader: loading, exporting, merging, validating *)

Lemma lstrip_snoc (w : str) (c : char) :
  isspace c = false -> lstrip (w ++ [c]) = lstrip w ++ [c].
Proof.
  intros Hc. induction w as [|d w IH]; cbn.
  - now rewrite Hc.
  - destruct (isspace d); [exact IH|reflexivity].
Qed.

Lemma lstrip_fixed (c : char) (s : str) :
  isspace c = false -> lstrip (c :: s) = c :: s.
Proof. intros Hc. cbn. now rewrite Hc. Qed.

Lemma lstrip_shape (s : str) :
  lstrip s = [] \/ exists c t, lstrip s = c :: t /\ isspace c = false.
Proof.
  induction s as [|c s IH]; cbn; [now left|].
  destruct (isspace c) eqn:E; [exact IH|].
  right. now exists c, s.
Qed.

Lemma lstrip_idem (s : str) : lstrip (lstrip s) = lstrip s.
Proof.
  destruct (lstrip_shape s) as [E|(c & t & E & Hc)]; rewrite E.
  - reflexivity.
  - now apply lstrip_fixed.
Qed.

Lemma rstrip_idem (s : str) : rstrip (rstrip s) = rstrip s.
Proof. unfold rstrip. now rewrite rev_involutive, lstrip_idem. Qed.

Lemma rstrip_head (c : char) (t : str) :
  isspace c = false -> exists t', rstrip (c :: t) = c :: t'.
Proof.
  intros Hc. unfold rstrip. cbn [rev].
  rewrite (lstrip_snoc _ _ Hc), rev_app_distr. cbn.
  now eexists.
Qed.

Lemma strip_idem (s : str) : strip (strip s) = strip s.
Proof.
  unfold strip.
  destruct (lstrip_shape s) as [E|(c & t & E & Hc)]; rewrite E.
  - reflexivity.
  - destruct (rstrip_head c t Hc) as [t' Ht'].
    rewrite Ht', (lstrip_fixed _ _ Hc), <- Ht'. apply rstrip_idem.
Qed.

Lemma dict_item_set (V : Type) (key : str) (v : V) (d : PyDict.dict V) :
  PyDict.item key (PyDict.set_item key v d) = Some v.
Proof.
  induction d as [|[k v'] d IH]; cbn.
  - now rewrite str_eqb_refl.
  - destruct (PyStr.eqb k key) eqn:E; cbn; rewrite E; [reflexivity|exact IH].
Qed.

Lemma dict_item_set_other (V : Type) (key key' : str) (v : V)
      (d : PyDict.dict V) :
  PyStr.eqb key key' = false ->
  PyDict.item key' (PyDict.set_item key v d) = PyDict.item key' d.
Proof.
  intros Hne. induction d as [|[k v'] d IH]; cbn.
  - now rewrite Hne.
  - destruct (PyStr.eqb k key) eqn:E; cbn.
    + apply str_eqb_eq in E. subst k. now rewrite Hne.
    + destruct (PyStr.eqb k key'); [reflexivity|exact IH].
Qed.

Lemma dict_set_fresh (V : Type) (key : str) (v : V) (d : PyDict.dict V) :
  ~ In key (map fst d) -> PyDict.set_item key v d = d ++ [(key, v)].
Proof.
  induction d as [|[k v'] d IH]; cbn; intros Hn; [reflexivity|].
  destruct (PyStr.eqb k key) eqn:E.
  - apply str_eqb_eq in E. tauto.
  - f_equal. apply IH. tauto.
Qed.

Lemma dict_set_In (V : Type) (key : str) (v : V) (d : PyDict.dict V)
      (kv : str * V) :
  In kv (PyDict.set_item key v d) -> kv = (key, v) \/ In kv d.
Proof.
  induction d as [|[k v'] d IH]; cbn.
  - intros [H|[]]; auto.
  - destruct (PyStr.eqb k key) eqn:E; cbn.
    + apply str_eqb_eq in E. subst k. intros [H|H]; auto.
    + intros [H|H]; auto. destruct (IH H); auto.
Qed.

(** *** Loading *)

Lemma add_item_filled (g : Loader.terms) (item : CustomGlossary.json_record) :
  Forall Loader.filled g -> Forall Loader.filled (Loader.add_item g item).
Proof.
  intros Hg. unfold Loader.add_item.
  destruct (truthy (strip (CustomGlossary.get (CustomGlossary.rec_chinese item) []))
            && truthy (strip (CustomGlossary.get (CustomGlossary.rec_english item) [])))
    eqn:E; [|exact Hg].
  apply andb_prop in E as [E1 E2].
  apply Forall_forall. intros kv Hin.
  apply dict_set_In in Hin as [->|Hin].
  - split; cbn [fst snd]; now rewrite strip_idem.
  - revert kv Hin. now apply Forall_forall.
Qed.

Lemma load_json_filled (file : outcome Loader.json_data) :
  Forall Loader.filled (Loader.load_json_glossary file).
Proof.
  destruct file as [[items|d|]|]; cbn [Loader.load_json_glossary];
    try constructor.
  - assert (H : forall g, Forall Loader.filled g ->
                          Forall Loader.filled (fold_left Loader.add_item items g)).
    { induction items as [|i items IH]; intros g Hg; cbn; [exact Hg|].
      apply IH. now apply add_item_filled. }
    apply H. constructor.
  - unfold Loader.keep_filled. apply Forall_forall. intros kv Hin.
    apply filter_In in Hin as [_ Hk]. apply andb_prop in Hk. exact Hk.
Qed.

Lemma validate_filled (g : Loader.terms) (acc : Loader.issues * PyDict.dict str) :
  Forall Loader.filled g ->
  Loader.empty_keys (fst (fold_left Loader.validate_entry g acc))
  = Loader.empty_keys (fst acc)
  /\ Loader.empty_values (fst (fold_left Loader.validate_entry g acc))
     = Loader.empty_values (fst acc).
Proof.
  intros Hg. revert acc.
  induction Hg as [|[c e] g [Hc He] _ IH]; intros [i seen]; cbn [fold_left].
  - now split.
  - cbn [fst snd] in Hc, He.
    destruct (IH (Loader.validate_entry (i, seen) (c, e))) as [IH1 IH2].
    rewrite IH1, IH2. unfold Loader.validate_entry.
    rewrite Hc, He. cbn [negb].
    destruct (PyDict.item e seen); cbn [fst Loader.empty_keys Loader.empty_values];
      now split.
Qed.

(** X24. Whatever the file holds and in either format, and also when it
    cannot be read, the glossary that [load_json_glossary] returns passes
    the first two checks of [validate_glossary]: no key and no value of it
    is empty or made of white space. *)
Theorem loaded_glossary_has_no_empty_entry (file : outcome Loader.json_data) :
  Loader.empty_keys (Loader.validate_glossary (Loader.load_json_glossary file)) = []
  /\ Loader.empty_values (Loader.validate_glossary (Loader.load_json_glossary file)) = [].
Proof.
  unfold Loader.validate_glossary.
  apply (validate_filled _ (Loader.mkIssues [] [] [] [], [])).
  apply load_json_filled.
Qed.

(** *** Export and load *)

Lemma truthy_nonempty (s : str) : s <> [] -> truthy s = true.
Proof. destruct s; [congruence|reflexivity]. Qed.

Lemma load_exported (g d0 : Loader.terms) :
  NoDup (map fst (d0 ++ g)) ->
  Forall Loader.tidy g ->
  fold_left Loader.add_item
            (map (fun ce =>
                    CustomGlossary.mkRecord (Some (fst ce)) (Some (snd ce))
                                            (Some (lit "exported")) (Some 1.0%Q))
                 g) d0
  = d0 ++ g.
Proof.
  revert d0. induction g as [|[c e] g IH]; intros d0 Hnd Ht; cbn [map fold_left].
  - now rewrite app_nil_r.
  - apply Forall_cons_iff in Ht as [(Hc & Hc' & He & He') Ht].
    cbn [fst snd] in Hc, Hc', He, He'.
    assert (Hstep : Loader.add_item d0
                      (CustomGlossary.mkRecord (Some c) (Some e)
                                               (Some (lit "exported")) (Some 1.0%Q))
                    = d0 ++ [(c, e)]).
    { unfold Loader.add_item. cbn [CustomGlossary.rec_chinese
                                     CustomGlossary.rec_english CustomGlossary.get fst snd].
      rewrite Hc, He, (truthy_nonempty _ Hc'), (truthy_nonempty _ He').
      cbn [andb]. apply dict_set_fresh.
      rewrite map_app in Hnd. cbn [map fst] in Hnd.
      apply NoDup_remove_2 in Hnd. intros Hin. apply Hnd.
      apply in_or_app. now left. }
    cbn [fst snd]. rewrite Hstep, IH.
    + now rewrite <- app_assoc.
    + now rewrite <- app_assoc.
    + exact Ht.
Qed.

(** X25. Export followed by load is the identity on tidy glossaries: for a
    dict (keys pairwise different) whose keys and values are stripped and
    not empty, loading the list that [export_glossary_to_json] dumps, as
    [json.load] reads it back, gives the same dict, with its entries in
    the same order. *)
Theorem export_then_load (g : Loader.terms) :
  Loader.well_formed g ->
  Forall Loader.tidy g ->
  Loader.load_json_glossary (Returned (Loader.export_glossary_to_json g)) = g.
Proof.
  intros Hwf Ht. unfold Loader.export_glossary_to_json.
  cbn [Loader.load_json_glossary].
  now rewrite (load_exported g [] Hwf Ht).
Qed.

Lemma export_then_load_witness :
  let g := [ (lit "abc", lit "Emergency Stop"); (lit "de", lit "Servo") ] in
  Loader.load_json_glossary (Returned (Loader.export_glossary_to_json g)) = g.
Proof.
  cbv zeta. apply export_then_load.
  - unfold Loader.well_formed. cbn [map fst].
    repeat constructor; cbn; intuition discriminate.
  - repeat constructor; cbn; try reflexivity; discriminate.
Defined.

(** *** Merging *)

Lemma merge_entry_item (merged : Loader.terms) (c e : str) :
  (PyDict.item c (Loader.merge_entry merged (c, e)) = Some e
   /\ forall cur, PyDict.item c merged = Some cur -> (len cur <= len e)%nat)
  \/ (exists cur, PyDict.item c merged = Some cur
                  /\ Loader.merge_entry merged (c, e) = merged
                  /\ (len e <= len cur)%nat).
Proof.
  unfold Loader.merge_entry.
  destruct (PyDict.item c merged) as [cur|] eqn:E.
  - destruct (negb (PyStr.eqb cur e)) eqn:N.
    + destruct (len cur <? len e)%nat eqn:L.
      * left. split; [apply dict_item_set|].
        intros cur' [= <-]. apply Nat.ltb_lt in L. lia.
      * right. exists cur. apply Nat.ltb_ge in L. now repeat split.
    + left. split; [apply dict_item_set|].
      intros cur' [= <-]. apply negb_false_iff, str_eqb_eq in N. subst. lia.
  - left. split; [apply dict_item_set|]. intros cur [=].
Qed.

Lemma merge_entry_other (merged : Loader.terms) (c e c' : str) :
  c <> c' ->
  PyDict.item c' (Loader.merge_entry merged (c, e)) = PyDict.item c' merged.
Proof.
  intros Hne. apply str_eqb_neq in Hne. unfold Loader.merge_entry.
  destruct (PyDict.item c merged) as [cur|].
  - destruct (negb (PyStr.eqb cur e)).
    + destruct (len cur <? len e)%nat; [|reflexivity].
      now apply dict_item_set_other.
    + now apply dict_item_set_other.
  - now apply dict_item_set_other.
Qed.

Lemma str_eq_dec (s t : str) : {s = t} + {s <> t}.
Proof. apply list_eq_dec, N.eq_dec. Qed.

Lemma merge_entry_invariant (seen : list (str * str)) (merged : Loader.terms)
      (ce : str * str) :
  Loader.merge_invariant seen merged ->
  Loader.merge_invariant (seen ++ [ce]) (Loader.merge_entry merged ce).
Proof.
  destruct ce as [c e]. intros [Hfrom Hto]. split.
  - intros c' e' Hit. apply in_or_app.
    destruct (str_eq_dec c c') as [<-|Hne].
    + destruct (merge_entry_item merged c e) as [[Hnew _]|(cur & Hcur & Hsame & _)].
      * rewrite Hnew in Hit. injection Hit as <-. right. now left.
      * rewrite Hsame in Hit. left. now apply Hfrom.
    + rewrite (merge_entry_other _ _ _ _ Hne) in Hit. left. now apply Hfrom.
  - intros c' e' Hin. apply in_app_or in Hin as [Hin|[[= <- <-]|[]]].
    + destruct (Hto _ _ Hin) as (e0 & He0 & Hle).
      destruct (str_eq_dec c c') as [<-|Hne].
      * destruct (merge_entry_item merged c e) as [[Hnew Hge]|(cur & Hcur & Hsame & _)].
        -- exists e. split; [exact Hnew|]. specialize (Hge _ He0). lia.
        -- rewrite Hsame. now exists e0.
      * rewrite (merge_entry_other _ _ _ _ Hne). now exists e0.
    + destruct (merge_entry_item merged c e) as [[Hnew _]|(cur & Hcur & Hsame & Hle)].
      * exists e. split; [exact Hnew|lia].
      * rewrite Hsame. now exists cur.
Qed.

Lemma merge_fold_invariant (g seen : list (str * str)) (merged : Loader.terms) :
  Loader.merge_invariant seen merged ->
  Loader.merge_invariant (seen ++ g) (fold_left Loader.merge_entry g merged).
Proof.
  revert seen merged. induction g as [|ce g IH]; intros seen merged H; cbn.
  - now rewrite app_nil_r.
  - replace (seen ++ ce :: g) with ((seen ++ [ce]) ++ g)
      by now rewrite <- app_assoc.
    apply IH. now apply merge_entry_invariant.
Qed.

Lemma merge_glossaries_invariant (glossaries : list Loader.terms)
      (seen : list (str * str)) (merged : Loader.terms) :
  Loader.merge_invariant seen merged ->
  Loader.merge_invariant (seen ++ List.concat glossaries)
                  (fold_left (fun merged g => fold_left Loader.merge_entry g merged)
                             glossaries merged).
Proof.
  revert seen merged.
  induction glossaries as [|g gs IH]; intros seen merged H; cbn.
  - now rewrite app_nil_r.
  - rewrite app_assoc. apply IH. now apply merge_fold_invariant.
Qed.

(** X26. [merge_glossaries] loses no term and invents none. A term that
    some glossary of the list translates is a key of the merged glossary,
    and the translation kept for it is at least as long as the one that
    glossary gives; and every entry of the merged glossary is an entry of
    one of the glossaries. *)
Theorem merge_keeps_a_longest (glossaries : list Loader.terms) :
  (forall g c e,
      In g glossaries -> In (c, e) g ->
      exists e', PyDict.item c (Loader.merge_glossaries glossaries) = Some e'
                 /\ (len e <= len e')%nat)
  /\ (forall c e',
         PyDict.item c (Loader.merge_glossaries glossaries) = Some e' ->
         exists g, In g glossaries /\ In (c, e') g).
Proof.
  assert (Hinv : Loader.merge_invariant (List.concat glossaries)
                                 (Loader.merge_glossaries glossaries)).
  { apply (merge_glossaries_invariant glossaries [] []).
    split; [intros c e [=]|intros c e []]. }
  destruct Hinv as [Hfrom Hto]. split.
  - intros g c e Hg Hin. apply Hto. apply in_concat. now exists g.
  - intros c e' Hit. apply Hfrom in Hit. apply in_concat in Hit as (g & Hg & Hin).
    now exists g.
Qed.

Lemma merge_keeps_a_longest_witness :
  let short := [ (lit "k", lit "Stop") ] in
  let long := [ (lit "k", lit "Emergency Stop") ] in
  exists e', PyDict.item (lit "k") (Loader.merge_glossaries [long; short]) = Some e'
             /\ (len (lit "Stop") <= len e')%nat.
Proof.
  cbv zeta.
  apply (proj1 (merge_keeps_a_longest
                  [ [ (lit "k", lit "Emergency Stop") ]; [ (lit "k", lit "Stop") ] ])
               [ (lit "k", lit "Stop") ] (lit "k") (lit "Stop")).
  - cbn. tauto.
  - cbn. tauto.
Defined.

(** *** Validating *)

Lemma NoDup_snoc (A : Type) (l : list A) (a : A) :
  NoDup (l ++ [a]) <-> NoDup l /\ ~ In a l.
Proof.
  split.
  - intros H. split.
    + apply NoDup_remove_1 in H. now rewrite app_nil_r in H.
    + apply NoDup_remove_2 in H. now rewrite app_nil_r in H.
  - intros [H1 H2]. apply NoDup_Add with (a := a) (l := l); [|now split].
    rewrite <- (app_nil_r l) at 1. apply Add_app.
Qed.

Lemma validate_entry_seen (p : list (str * str))
      (acc : Loader.issues * PyDict.dict str) (ce : str * str) :
  Loader.seen_invariant p acc ->
  Loader.seen_invariant (p ++ [ce]) (Loader.validate_entry acc ce).
Proof.
  destruct acc as [i seen], ce as [c e]. intros [Hseen Hdup].
  cbn [fst snd] in Hseen, Hdup.
  unfold Loader.seen_invariant. rewrite map_app. cbn [map snd].
  unfold Loader.validate_entry.
  destruct (PyDict.item e seen) as [first|] eqn:E;
    cbn [fst snd Loader.duplicate_values].
  - assert (Hin : In e (map snd p)) by (apply Hseen; congruence).
    split.
    + intros e0. rewrite Hseen, in_app_iff. cbn.
      split; [tauto|]. intros [H|[<-|[]]]; assumption.
    + rewrite NoDup_snoc. split.
      * intros H. now apply app_eq_nil in H as [_ H].
      * tauto.
  - assert (Hnin : ~ In e (map snd p)).
    { intros H. apply Hseen in H. congruence. }
    split.
    + intros e0. rewrite in_app_iff. cbn.
      destruct (str_eq_dec e e0) as [<-|Hne].
      * rewrite dict_item_set. split; [tauto|congruence].
      * apply str_eqb_neq in Hne as Hne'.
        rewrite (dict_item_set_other _ _ _ _ _ Hne'), Hseen.
        split; [tauto|]. intros [H|[H|[]]]; [exact H|contradiction].
    + rewrite NoDup_snoc. tauto.
Qed.

Lemma validate_fold_seen (g p : list (str * str))
      (acc : Loader.issues * PyDict.dict str) :
  Loader.seen_invariant p acc ->
  Loader.seen_invariant (p ++ g) (fold_left Loader.validate_entry g acc).
Proof.
  revert p acc. induction g as [|ce g IH]; intros p acc H; cbn.
  - now rewrite app_nil_r.
  - replace (p ++ ce :: g) with ((p ++ [ce]) ++ g) by now rewrite <- app_assoc.
    apply IH. now apply validate_entry_seen.
Qed.

(** X27. [validate_glossary] reports a duplicate value exactly when there
    is one: the list under 'duplicate_values' is empty if and only if no
    two entries of the glossary have the same English text. *)
Theorem duplicates_reported (g : Loader.terms) :
  Loader.duplicate_values (Loader.validate_glossary g) = []
  <-> NoDup (map snd g).
Proof.
  unfold Loader.validate_glossary.
  apply (validate_fold_seen g [] (Loader.mkIssues [] [] [] [], [])).
  split; cbn.
  - intros e. split; [congruence|tauto].
  - split; [constructor|reflexivity].
Qed.

(* ------------------------------------------------------------------ *)
(** ** OCR engines and OCRManager *)

Lemma int_of_above (q : Q) : (-1 < q)%Q -> (0 <= Ocr.int_of q)%Z.
Proof.
  intros Hq. unfold Ocr.int_of. destruct (Qle_bool 0 q) eqn:E.
  - apply Qle_bool_iff in E. apply Qfloor_resp_le in E.
    exact E.
  - assert (H : (inject_Z (-1) < inject_Z (Qceiling q))%Q).
    { apply Qlt_le_trans with q; [exact Hq|apply Qle_ceiling]. }
    rewrite <- Zlt_Qlt in H. lia.
Qed.

Lemma int_of_near (q : Q) : (inject_Z (Ocr.int_of q) < q + 1)%Q.
Proof.
  unfold Ocr.int_of. destruct (Qle_bool 0 q) eqn:E.
  - pose proof (Qfloor_le q). lra.
  - pose proof (Qceiling_lt q) as H.
    unfold Z.sub in H. rewrite inject_Z_plus in H.
    change (inject_Z (- (1))) with (- (1))%Q in H. lra.
Qed.

Lemma int_of_gap (m M : Q) :
  (m <= M)%Q -> (0 <= Ocr.int_of (M - inject_Z (Ocr.int_of m)))%Z.
Proof.
  intros H. apply int_of_above. pose proof (int_of_near m). lra.
Qed.

Lemma fold_min_le (l : list Q) (a : Q) :
  (fold_left (fun m x => if Qlt_bool x m then x else m) l a <= a)%Q.
Proof.
  revert a. induction l as [|x l IH]; intros a; cbn [fold_left].
  - apply Qle_refl.
  - destruct (Qlt_bool x a) eqn:E.
    + apply Qle_trans with x; [apply IH|].
      apply Qlt_bool_iff in E. now apply Qlt_le_weak.
    + apply IH.
Qed.

Lemma fold_max_ge (l : list Q) (a : Q) :
  (a <= fold_left (fun m x => if Qlt_bool m x then x else m) l a)%Q.
Proof.
  revert a. induction l as [|x l IH]; intros a; cbn [fold_left].
  - apply Qle_refl.
  - destruct (Qlt_bool a x) eqn:E.
    + apply Qle_trans with x; [|apply IH].
      apply Qlt_bool_iff in E. now apply Qlt_le_weak.
    + apply IH.
Qed.

Lemma min_le_max (l : list Q) (m M : Q) :
  Ocr.py_min l = Returned m -> Ocr.py_max l = Returned M -> (m <= M)%Q.
Proof.
  destruct l as [|a l]; cbn; [discriminate|].
  intros [= <-] [= <-].
  apply Qle_trans with a; [apply fold_min_le|apply fold_max_ge].
Qed.

Lemma rectangle_sides (points : list (Q * Q)) (x y w h : Z) :
  Ocr.rectangle points = Returned (x, y, w, h) -> (0 <= w)%Z /\ (0 <= h)%Z.
Proof.
  unfold Ocr.rectangle.
  destruct (Ocr.py_min (map fst points)) as [mx|] eqn:Emx; [|discriminate].
  destruct (Ocr.py_min (map snd points)) as [my|] eqn:Emy; [|discriminate].
  destruct (Ocr.py_max (map fst points)) as [Mx|] eqn:EMx; [|discriminate].
  destruct (Ocr.py_max (map snd points)) as [My|] eqn:EMy; [|discriminate].
  intros [= <- <- <- <-]. split; apply int_of_gap.
  - exact (min_le_max _ _ _ Emx EMx).
  - exact (min_le_max _ _ _ Emy EMy).
Qed.

Section OcrFacts.

Variable Frame : Type.
Variable paddle_ocr : Frame -> outcome (option (list (option Ocr.paddle_line))).
Variable image_to_data : Frame -> outcome (list Ocr.tesseract_row).
Variable paddle_available tesseract_available : bool.
Variable cfg_confidence_threshold : option Q.
Variable cfg_engine : option str.

Local Abbreviation passes := (Ocr.passes cfg_confidence_threshold).
Local Abbreviation paddle_regions := (Ocr.paddle_regions cfg_confidence_threshold).
Local Abbreviation paddle_detect_text :=
  (Ocr.paddle_detect_text paddle_ocr paddle_available cfg_confidence_threshold).
Local Abbreviation tesseract_detect_text :=
  (Ocr.tesseract_detect_text image_to_data tesseract_available
                             cfg_confidence_threshold).
Local Abbreviation engine_detect_text :=
  (Ocr.engine_detect_text paddle_ocr image_to_data paddle_available
                          tesseract_available cfg_confidence_threshold).
Local Abbreviation detect_text :=
  (Ocr.detect_text paddle_ocr image_to_data paddle_available
                   tesseract_available cfg_confidence_threshold).
Local Abbreviation initialize_engines :=
  (Ocr.initialize_engines paddle_available tesseract_available cfg_engine).
Local Abbreviation is_available :=
  (Ocr.is_available paddle_available tesseract_available).

Lemma new_result_passes (text : str) (bbox : Z * Z * Z * Z) (confidence : Q) :
  truthy (strip text) = true ->
  Qle_bool (Ocr.confidence_threshold cfg_confidence_threshold) confidence = true ->
  passes (Coordinator.new_OCRResult text bbox confidence).
Proof.
  intros Ht Hc. unfold Ocr.passes, Coordinator.new_OCRResult.
  cbn [Coordinator.text Coordinator.confidence]. repeat split.
  - intros E. rewrite E in Ht. discriminate.
  - apply strip_idem.
  - now apply Qle_bool_iff.
Qed.

Lemma paddle_regions_passes (lines : list (option Ocr.paddle_line))
      (acc rs : list Coordinator.OCRResult) :
  Forall passes acc ->
  paddle_regions lines acc = Returned rs ->
  Forall passes rs.
Proof.
  revert acc. induction lines as [|[line|] lines IH]; intros acc Hacc;
    cbn [Ocr.paddle_regions].
  - now intros [= <-].
  - destruct (Ocr.text_info line) as [text confidence].
    destruct (Qle_bool (Ocr.confidence_threshold cfg_confidence_threshold) confidence)
      eqn:Ec; cbn [andb]; [|now apply IH].
    destruct (truthy (strip text)) eqn:Et; [|now apply IH].
    destruct (Ocr.rectangle (Ocr.bbox_points line)) as [bbox|]; [|discriminate].
    apply IH. apply Forall_app. split; [exact Hacc|].
    constructor; [|constructor]. now apply new_result_passes.
  - now apply IH.
Qed.

Lemma paddle_regions_wide (lines : list (option Ocr.paddle_line))
      (acc rs : list Coordinator.OCRResult) :
  Forall Ocr.has_sides acc ->
  paddle_regions lines acc = Returned rs ->
  Forall Ocr.has_sides rs.
Proof.
  revert acc. induction lines as [|[line|] lines IH]; intros acc Hacc;
    cbn [Ocr.paddle_regions].
  - now intros [= <-].
  - destruct (Ocr.text_info line) as [text confidence].
    destruct (Qle_bool (Ocr.confidence_threshold cfg_confidence_threshold) confidence
              && truthy (strip text)); [|now apply IH].
    destruct (Ocr.rectangle (Ocr.bbox_points line)) as [[[[x y] w] h]|] eqn:Er;
      [|discriminate].
    apply IH. apply Forall_app. split; [exact Hacc|].
    constructor; [|constructor].
    apply rectangle_sides in Er. exact Er.
  - now apply IH.
Qed.

Lemma paddle_passes (image : Frame) : Forall passes (paddle_detect_text image).
Proof.
  unfold Ocr.paddle_detect_text.
  destruct (negb paddle_available); [constructor|].
  destruct (paddle_ocr image) as [[lines|]|]; try constructor.
  destruct (paddle_regions lines []) as [rs|] eqn:E; [|constructor].
  apply (paddle_regions_passes lines [] rs); [constructor|exact E].
Qed.

Lemma tesseract_passes (image : Frame) :
  Forall passes (tesseract_detect_text image).
Proof.
  unfold Ocr.tesseract_detect_text.
  destruct (negb tesseract_available); [constructor|].
  destruct (image_to_data image) as [rows|]; [|constructor].
  assert (H : forall acc, Forall passes acc ->
                          Forall passes
                                 (fold_left (Ocr.tesseract_region cfg_confidence_threshold)
                                            rows acc)).
  { induction rows as [|row rows IH]; intros acc Hacc; cbn [fold_left];
      [exact Hacc|].
    apply IH. unfold Ocr.tesseract_region.
    destruct (Qle_bool (Ocr.confidence_threshold cfg_confidence_threshold)
                       (Ocr.row_conf row / 100)) eqn:Ec; cbn [andb]; [|exact Hacc].
    destruct (truthy (strip (Ocr.row_text row))) eqn:Et; [|exact Hacc].
    apply Forall_app. split; [exact Hacc|]. constructor; [|constructor].
    apply new_result_passes; [now rewrite strip_idem|exact Ec]. }
  apply H. constructor.
Qed.

Lemma engine_passes (e : Ocr.engine) (image : Frame) :
  Forall passes (engine_detect_text e image).
Proof. destruct e; [apply paddle_passes|apply tesseract_passes]. Qed.

(** X28. Whatever engine answers, by name or as the primary one, every
    result that [OCRManager.detect_text] returns has a text that is not
    empty and has no white space at either end, and a confidence that is
    not below the configured threshold (0.7 when the configuration has
    none). *)
Theorem ocr_results_pass_the_filters
        (image : Frame) (engine_name : option str) (r : Coordinator.OCRResult) :
  In r (detect_text initialize_engines image engine_name) ->
  Coordinator.text r <> []
  /\ strip (Coordinator.text r) = Coordinator.text r
  /\ (Ocr.confidence_threshold cfg_confidence_threshold
      <= Coordinator.confidence r)%Q.
Proof.
  intros Hin.
  assert (H : Forall passes (detect_text initialize_engines image engine_name)).
  { unfold Ocr.detect_text.
    destruct (Ocr.named_engine initialize_engines engine_name) as [e|];
      [apply engine_passes|].
    destruct (Ocr.primary_engine initialize_engines) as [e|];
      [apply engine_passes|constructor]. }
  rewrite Forall_forall in H. exact (H r Hin).
Qed.

(** X29. The rectangle that [PaddleOCREngine.detect_text] puts around the
    corner points of a line never has a negative side: width and height
    of every result are at least 0, wherever the corner points lie. *)
Theorem paddle_boxes_have_sides (image : Frame) (r : Coordinator.OCRResult) :
  In r (paddle_detect_text image) ->
  (0 <= Ocr.bbox_width r)%Z /\ (0 <= Coordinator.bbox_height r)%Z.
Proof.
  intros Hin.
  assert (H : Forall Ocr.has_sides (paddle_detect_text image)).
  { unfold Ocr.paddle_detect_text.
    destruct (negb paddle_available); [constructor|].
    destruct (paddle_ocr image) as [[lines|]|]; try constructor.
    destruct (paddle_regions lines []) as [rs|] eqn:E; [|constructor].
    apply (paddle_regions_wide lines [] rs); [constructor|exact E]. }
  rewrite Forall_forall in H. exact (H r Hin).
Qed.

Lemma ocr_engines_item (n : str) :
  PyDict.item n (Ocr.engines initialize_engines)
  = if PyStr.eqb (lit "paddleocr") n && paddle_available
    then Some Ocr.PaddleOCREngine
    else if PyStr.eqb (lit "tesseract") n && tesseract_available
         then Some Ocr.TesseractOCREngine
         else None.
Proof.
  unfold Ocr.initialize_engines. cbn [Ocr.engines].
  assert (Hd : PyStr.eqb (lit "paddleocr") (lit "tesseract") = false)
    by (vm_compute; reflexivity).
  destruct paddle_available, tesseract_available;
    cbn [PyDict.set_item PyDict.item]; rewrite ?Hd;
    cbn [PyDict.item]; rewrite ?andb_true_r, ?andb_false_r;
    destruct (PyStr.eqb (lit "paddleocr") n);
    destruct (PyStr.eqb (lit "tesseract") n); reflexivity.
Qed.

Lemma ocr_names_differ (n : str) :
  PyStr.eqb (lit "paddleocr") n = true -> PyStr.eqb (lit "tesseract") n = false.
Proof.
  intros H. apply str_eqb_eq in H. subst n. vm_compute. reflexivity.
Qed.

Lemma ocr_primary_engine :
  Ocr.primary_engine initialize_engines
  = if match cfg_engine with
       | Some n => PyStr.eqb (lit "tesseract") n
       | None => false
       end && tesseract_available
    then Some Ocr.TesseractOCREngine
    else if paddle_available then Some Ocr.PaddleOCREngine
    else if tesseract_available then Some Ocr.TesseractOCREngine
    else None.
Proof.
  assert (Hitem := ocr_engines_item
                     match cfg_engine with Some name => name | None => lit "paddleocr" end).
  unfold Ocr.initialize_engines in *. cbn [Ocr.engines Ocr.primary_engine] in *.
  rewrite Hitem. clear Hitem.
  assert (Hd : PyStr.eqb (lit "paddleocr") (lit "tesseract") = false)
    by (vm_compute; reflexivity).
  assert (Hd' : PyStr.eqb (lit "tesseract") (lit "paddleocr") = false)
    by (vm_compute; reflexivity).
  assert (Hr : PyStr.eqb (lit "paddleocr") (lit "paddleocr") = true)
    by apply str_eqb_refl.
  destruct cfg_engine as [n|].
  - destruct (PyStr.eqb (lit "paddleocr") n) eqn:Ep.
    + rewrite (ocr_names_differ n Ep).
      destruct paddle_available, tesseract_available;
        cbn [andb PyDict.set_item]; rewrite ?Hd; reflexivity.
    + destruct (PyStr.eqb (lit "tesseract") n);
        destruct paddle_available, tesseract_available;
        cbn [andb PyDict.set_item]; rewrite ?Hd; reflexivity.
  - rewrite Hr, Hd'.
    destruct paddle_available, tesseract_available;
      cbn [andb PyDict.set_item]; rewrite ?Hd; reflexivity.
Qed.

Lemma ocr_named_engine (engine_name : option str) :
  Ocr.named_engine initialize_engines engine_name
  = if match engine_name with
       | Some n => PyStr.eqb (lit "paddleocr") n
       | None => false
       end && paddle_available
    then Some Ocr.PaddleOCREngine
    else if match engine_name with
            | Some n => PyStr.eqb (lit "tesseract") n
            | None => false
            end && tesseract_available
         then Some Ocr.TesseractOCREngine
         else None.
Proof.
  unfold Ocr.named_engine. destruct engine_name as [n|]; [|reflexivity].
  destruct (truthy n) eqn:Tn; [apply ocr_engines_item|].
  destruct n; [reflexivity|discriminate].
Qed.

(** X30. Which engine [OCRManager.detect_text] runs.  An engine asked for
    by name answers when it is available; otherwise the primary engine
    does, which is the configured one when that is available, else
    PaddleOCR when available, else Tesseract when available; when neither
    is available the answer is the empty list.  An engine that is not
    available is never run. *)
Theorem ocr_engine_choice (image : Frame) (engine_name : option str) :
  let asked name :=
    match engine_name with Some n => PyStr.eqb (lit name) n | None => false end in
  let preferred name :=
    match cfg_engine with Some n => PyStr.eqb (lit name) n | None => false end in
  let chosen :=
    if asked "paddleocr"%string && paddle_available
    then Some Ocr.PaddleOCREngine
    else if asked "tesseract"%string && tesseract_available
         then Some Ocr.TesseractOCREngine
    else if preferred "tesseract"%string && tesseract_available
         then Some Ocr.TesseractOCREngine
    else if paddle_available then Some Ocr.PaddleOCREngine
    else if tesseract_available then Some Ocr.TesseractOCREngine
    else None in
  detect_text initialize_engines image engine_name
  = match chosen with
    | Some e => engine_detect_text e image
    | None => []
    end
  /\ (forall e, chosen = Some e -> is_available e = true).
Proof.
  cbv zeta. split.
  - unfold Ocr.detect_text.
    rewrite ocr_named_engine, ocr_primary_engine.
    repeat match goal with
           | |- context [if ?b then _ else _] => destruct b
           end; reflexivity.
  - intros e.
    destruct paddle_available, tesseract_available;
      rewrite ?andb_true_r, ?andb_false_r;
      repeat match goal with
             | |- context [if ?b then _ else _] => destruct b
             end; intros [= <-]; reflexivity.
Qed.

End OcrFacts.

(** PaddleOCR reads one line, ' Stop ' with confidence 0.93; Tesseract is
    not installed. *)
Lemma ocr_results_pass_the_filters_witness :
  let r := Coordinator.mkOCRResult (lit "Stop") (10, 20, 80, 24)%Z 0.93%Q in
  Coordinator.text r <> []
  /\ strip (Coordinator.text r) = Coordinator.text r
  /\ (Ocr.confidence_threshold None <= Coordinator.confidence r)%Q.
Proof.
  cbv zeta.
  apply (ocr_results_pass_the_filters
           unit
           (fun _ => Returned (Some [ Some (Ocr.mkLine [ (10.5, 20.25); (90.5, 20.25);
                                                         (90.5, 44.75); (10.5, 44.75) ]%Q
                                                       (lit " Stop ", 0.93%Q)) ]))
           (fun _ => Raised) true false None None tt None).
  vm_compute. left. reflexivity.
Defined.

(** Corner points left of the screen's edge, between -0.5 and -0.25. *)
Lemma paddle_boxes_have_sides_witness :
  let r := Coordinator.mkOCRResult (lit "Stop") (0, 20, 0, 24)%Z 0.93%Q in
  (0 <= Ocr.bbox_width r)%Z /\ (0 <= Coordinator.bbox_height r)%Z.
Proof.
  cbv zeta.
  apply (paddle_boxes_have_sides
           unit
           (fun _ => Returned (Some [ Some (Ocr.mkLine [ (-0.5, 20.25); (-0.25, 20.25);
                                                         (-0.25, 44.75); (-0.5, 44.75) ]%Q
                                                       (lit " Stop ", 0.93%Q)) ]))
           true None tt).
  vm_compute. left. reflexivity.
Defined.
